(** * Respiratory-sound classification pipeline: loss module and feature dump

    A shallow embedding of [cb.py] (class-balanced loss, focal loss) and of
    the control flow of [save_features.py] (argument post-processing,
    checkpoint loading, per-batch feature dump).

    Number model.  Python floats, NumPy arrays and torch tensors hold real
    numbers here: every arithmetic operation is the exact operation on [R],
    and the theorems about numbers hold over the reals.  Rounding is
    outside this model; overflow to infinity and NaN are modelled for the
    modulating factor of the focal loss only (single precision with
    overflow, below).  A division by zero yields [x * / 0], which the
    real-number library makes [0], and [ln] of a non-positive number is the
    library's [0].  The theorems below say where a denominator is proved
    non-zero.

    File model.  A path string names the entry that the list of its names
    leads to; the directories and the regular files of the world are keyed
    by these lists.  [os.makedirs] makes the missing directories on the
    way, and every operation raises what the operating system raises when
    a regular file is in the way.  Symbolic links and the name [..] are
    outside this model.  The code outside the two files (the
    loaders, the backbone and its forward pass, the optimizer) may read
    and change the world. *)

From Stdlib Require Import Reals Lra Lia ZArith String Ascii Bool Arith List.
From Stdlib Require Import Decimal DecimalString DecimalNat.
Import ListNotations.

Set Implicit Arguments.

(** ** Python exceptions and fallible computations *)

Inductive exception : Type :=
| RuntimeError          (* torch: shapes that do not broadcast, bad class index *)
| ValueError            (* torch: target size differs from input size; int() *)
| UnboundLocalError     (* a local variable read before any assignment *)
| NotImplementedError
| AssertionError
| ZeroDivisionError
| FileNotFoundError
| FileExistsError
| IsADirectoryError
| NotADirectoryError
| TypeError             (* raising an object that is not an exception *)
| KeyError.

Inductive result (A : Type) : Type :=
| Ok (a : A)
| Raise (e : exception).

Arguments Ok {A} a.
Arguments Raise {A} e.

Definition bind {A B : Type} (m : result A) (k : A -> result B) : result B :=
  match m with
  | Ok a => k a
  | Raise e => Raise e
  end.

Notation "x <- m ;; k" := (bind m (fun x => k))
  (at level 61, m at next level, right associativity).

Definition returns {A : Type} (m : result A) : Prop := exists a, m = Ok a.
Definition raises {A : Type} (m : result A) : Prop := exists e, m = Raise e.

(** ** Finite sums *)

Open Scope R_scope.

(** [big_sum f n] is [f 0 + ... + f (n-1)]. *)
Fixpoint big_sum (f : nat -> R) (n : nat) : R :=
  match n with
  | O => 0
  | S k => big_sum f k + f k
  end.

(** [np.sum] of a one-dimensional array. *)
Definition np_sum (a : list R) : R := fold_right Rplus 0 a.

(** ** Two-dimensional tensors

    A tensor is its shape and its entries.  Entries outside the shape are
    never read by the operations below. *)

Module Torch.

Record tensor : Type := mkTensor {
  rows : nat;
  cols : nat;
  entry : nat -> nat -> R
}.

(** A one-dimensional tensor, as produced by [t.sum(1)]. *)
Record tensor1 : Type := mkTensor1 {
  len : nat;
  entry1 : nat -> R
}.

(** Broadcasting of one dimension: equal sizes, or one of them is 1. *)
Definition bdim (a b : nat) : option nat :=
  if a =? b then Some a
  else if a =? 1 then Some b
  else if b =? 1 then Some a
  else None.

(** The index read in a dimension of size [d] for position [i] of the
    broadcast result. *)
Definition bidx (d i : nat) : nat := if d =? 1 then 0%nat else i.

(** Broadcast read of an entry. *)
Definition bentry (t : tensor) (i j : nat) : R :=
  entry t (bidx (rows t) i) (bidx (cols t) j).

(** Elementwise binary operation with broadcasting; shapes that do not
    broadcast raise [RuntimeError]. *)
Definition tzip (f : R -> R -> R) (a b : tensor) : result tensor :=
  match bdim (rows a) (rows b), bdim (cols a) (cols b) with
  | Some r, Some c => Ok (mkTensor r c (fun i j => f (bentry a i j) (bentry b i j)))
  | _, _ => Raise RuntimeError
  end.

Definition tmul : tensor -> tensor -> result tensor := tzip Rmult.
Definition tsub : tensor -> tensor -> result tensor := tzip Rminus.

(** In-place multiplication [a.mul_(w)]: [w] is broadcast to the shape of
    [a], which is the shape of the result. *)
Definition expands_to (d n : nat) : bool := (d =? n) || (d =? 1).

Definition tmul_ (a w : tensor) : result tensor :=
  if expands_to (rows w) (rows a) && expands_to (cols w) (cols a) then
    Ok (mkTensor (rows a) (cols a) (fun i j => entry a i j * bentry w i j))
  else Raise RuntimeError.

(** Elementwise unary operation. *)
Definition tmap (f : R -> R) (a : tensor) : tensor :=
  mkTensor (rows a) (cols a) (fun i j => f (entry a i j)).

(** Python scalar combined with a tensor: [s * t], [s + t]. *)
Definition smul (s : R) (a : tensor) : tensor := tmap (Rmult s) a.
Definition sadd (s : R) (a : tensor) : tensor := tmap (Rplus s) a.

Definition texp : tensor -> tensor := tmap exp.
Definition tlog : tensor -> tensor := tmap ln.

(** [torch.sum(t)]: the sum of all entries. *)
Definition tsum (a : tensor) : R :=
  big_sum (fun i => big_sum (fun j => entry a i j) (cols a)) (rows a).

(** [t.sum(1)]: sum over the class axis. *)
Definition sum_dim1 (a : tensor) : tensor1 :=
  mkTensor1 (rows a) (fun i => big_sum (fun j => entry a i j) (cols a)).

(** [torch.tensor(array).float()] of a one-dimensional array. *)
Definition of_array (a : list R) : tensor1 :=
  mkTensor1 (length a) (fun j => nth j a 0).

(** [t.unsqueeze(0)]: shape [n] becomes [1, n]. *)
Definition unsqueeze0 (a : tensor1) : tensor :=
  mkTensor 1 (len a) (fun _ j => entry1 a j).

(** [t.unsqueeze(1)]: shape [n] becomes [n, 1]. *)
Definition unsqueeze1 (a : tensor1) : tensor :=
  mkTensor (len a) 1 (fun i _ => entry1 a i).

(** [t.repeat(r, c)]: the tensor tiled [r] times down and [c] times across. *)
Definition repeat (a : tensor) (r c : nat) : tensor :=
  mkTensor (rows a * r) (cols a * c)
           (fun i j => entry a (i mod rows a) (j mod cols a)).

(** [F.one_hot(labels, num_classes).float()] for a one-dimensional integer
    tensor: a class value outside [0, num_classes) raises, and so does an
    empty tensor when no positive number of classes is given. *)
Definition class_ok (num_classes : nat) (l : Z) : bool :=
  ((0 <=? l) && (l <? Z.of_nat num_classes))%Z.

Definition one_hot (labels : list Z) (num_classes : nat) : result tensor :=
  if (length labels =? 0)%nat && (num_classes =? 0)%nat then Raise RuntimeError
  else if forallb (class_ok num_classes) labels then
    Ok (mkTensor (length labels) num_classes
          (fun i j => if (nth i labels 0%Z =? Z.of_nat j)%Z then 1 else 0))
  else Raise RuntimeError.

(** [t.softmax(dim = 1)]. *)
Definition softmax1 (a : tensor) : tensor :=
  mkTensor (rows a) (cols a)
    (fun i j => exp (entry a i j) / big_sum (fun k => exp (entry a i k)) (cols a)).

Definition sigmoid (x : R) : R := 1 / (1 + exp (- x)).

(** Elementwise binary cross-entropy between the target [y] and the logit
    [x]: [-(y * log(sigmoid x) + (1 - y) * log(1 - sigmoid x))]. *)
Definition bce_logit (x y : R) : R :=
  - (y * ln (sigmoid x) + (1 - y) * ln (1 - sigmoid x)).

Definition same_shape (a b : tensor) : bool :=
  (rows a =? rows b)%nat && (cols a =? cols b)%nat.

(** [F.binary_cross_entropy_with_logits(input, target, reduction = "none")]:
    the target must have the size of the input. *)
Definition binary_cross_entropy_with_logits_none
           (input target : tensor) : result tensor :=
  if same_shape input target then
    Ok (mkTensor (rows input) (cols input)
          (fun i j => bce_logit (entry input i j) (entry target i j)))
  else Raise ValueError.

(** [torch.mean(t)]. *)
Definition tmean (a : tensor) : R := tsum a / INR (rows a * cols a).

(** [F.binary_cross_entropy_with_logits(input, target, weight)] with the
    default reduction, the mean. *)
Definition binary_cross_entropy_with_logits
           (input target weight : tensor) : result R :=
  loss <- binary_cross_entropy_with_logits_none input target ;;
  weighted <- tmul_ loss weight ;;
  Ok (tmean weighted).

(** The logarithm of [F.binary_cross_entropy], clamped from below at -100;
    the logarithm of zero is minus infinity and clamps to -100. *)
Definition clamped_log (p : R) : R :=
  if Rle_dec p 0 then -100 else Rmax (ln p) (-100).

Definition bce_prob (p y : R) : R :=
  - (y * clamped_log p + (1 - y) * clamped_log (1 - p)).

(** All entries of a tensor satisfy a decidable test. *)
Fixpoint all_below (n : nat) (test : nat -> bool) : bool :=
  match n with
  | O => true
  | S k => all_below k test && test k
  end.

Definition is_prob (p : R) : bool :=
  if Rle_dec 0 p then (if Rle_dec p 1 then true else false) else false.

Definition all_probs (a : tensor) : bool :=
  all_below (rows a) (fun i => all_below (cols a) (fun j => is_prob (entry a i j))).

(** [F.binary_cross_entropy(input, target, weight)] with the default
    reduction: the target must have the size of the input, every input
    entry must lie in [0, 1], the weight is broadcast to that size. *)
Definition binary_cross_entropy (input target weight : tensor) : result R :=
  if same_shape input target then
    if all_probs input then
      weighted <- tmul_ (mkTensor (rows input) (cols input)
                           (fun i j => bce_prob (entry input i j) (entry target i j)))
                        weight ;;
      Ok (tmean weighted)
    else Raise RuntimeError
  else Raise ValueError.

End Torch.

Import Torch.

(** ** cb.py *)

(** A Python value that is either a float or a tensor, as the local
    variable [modulator] of [focal_loss] is. *)
Inductive pyval : Type :=
| PyFloat (r : R)
| PyTensor (t : tensor).

(** [v * t] for such a value and a tensor. *)
Definition pymul (v : pyval) (t : tensor) : result tensor :=
  match v with
  | PyFloat r => Ok (smul r t)
  | PyTensor m => tmul m t
  end.

(** Lines 23-27 of cb.py: the modulating factor. *)
Definition focal_modulator (labels logits : tensor) (gamma : R) : result pyval :=
  if Req_dec_T gamma 0 then Ok (PyFloat 1)
  else
    a <- tmul (smul (- gamma) labels) logits ;;
    e <- tsub a (smul gamma (tlog (sadd 1 (texp (smul (-1) logits))))) ;;
    Ok (PyTensor (texp e)).

(** [focal_loss(labels, logits, alpha, gamma)]. *)
Definition focal_loss (labels logits alpha : tensor) (gamma : R) : result R :=
  BCLoss <- binary_cross_entropy_with_logits_none logits labels ;;
  modulator <- focal_modulator labels logits gamma ;;
  loss <- pymul modulator BCLoss ;;
  weighted_loss <- tmul alpha loss ;;
  let focal_loss := tsum weighted_loss in
  Ok (focal_loss / tsum labels).

(** Lines 54-56 of cb.py: the normalized class weights, a NumPy array.
    [np.power(beta, n)] for an integer [n] is [powerRZ beta n]. *)
Definition class_weights (samples_per_cls : list Z) (no_of_classes : nat)
           (beta : R) : list R :=
  let effective_num := map (fun n => 1 - powerRZ beta n) samples_per_cls in
  let weights := map (fun e => (1 - beta) / e) effective_num in
  map (fun w => w / np_sum weights * INR no_of_classes) weights.

(** Lines 60-67 of cb.py: the class weights expanded to one weight per
    example, repeated along the class axis. *)
Definition expand_weights (weights : list R) (labels_one_hot : tensor)
           (no_of_classes : nat) : result tensor :=
  let weights := of_array weights in
  let weights := unsqueeze0 weights in
  weights <- tmul (repeat weights (rows labels_one_hot) 1) labels_one_hot ;;
  let weights := sum_dim1 weights in
  let weights := unsqueeze1 weights in
  Ok (repeat weights 1 no_of_classes).

(** Lines 69-76 of cb.py: the loss selected by [loss_type].  The local
    variable [cb_loss] is assigned in the three branches only; returning
    it unassigned raises [UnboundLocalError]. *)
Definition dispatch_loss (labels_one_hot logits weights : tensor)
           (loss_type : string) (gamma : R) : result R :=
  cb_loss <-
    (if String.eqb loss_type "focal" then
       v <- focal_loss labels_one_hot logits weights gamma ;; Ok (Some v)
     else if String.eqb loss_type "sigmoid" then
       v <- binary_cross_entropy_with_logits logits labels_one_hot weights ;;
       Ok (Some v)
     else if String.eqb loss_type "softmax" then
       let pred := softmax1 logits in
       v <- binary_cross_entropy pred labels_one_hot weights ;; Ok (Some v)
     else Ok None) ;;
  match cb_loss with
  | Some v => Ok v
  | None => Raise UnboundLocalError
  end.

(** [CB_loss(labels, logits, samples_per_cls, no_of_classes, loss_type,
    beta, gamma)]. *)
Definition CB_loss (labels : list Z) (logits : tensor) (samples_per_cls : list Z)
           (no_of_classes : nat) (loss_type : string) (beta gamma : R)
  : result R :=
  let weights := class_weights samples_per_cls no_of_classes beta in
  labels_one_hot <- one_hot labels no_of_classes ;;
  weights <- expand_weights weights labels_one_hot no_of_classes ;;
  dispatch_loss labels_one_hot logits weights loss_type gamma.

(** ** Single precision with overflow

    Lines 26-27 on float32 tensors, one entry at a time.  A value is a real
    number, an infinity or NaN.  A finite result is the exact real: rounding
    and underflow are not modelled.  A result whose magnitude reaches
    [2^128 - 2^103], from where rounding to the nearest float32 gives an
    infinity, is the infinity of its sign. *)
Inductive f32 : Type :=
| Fin (r : R)
| PInf
| NInf
| NaN.

Definition f32_threshold : R := 2 ^ 128 - 2 ^ 103.

Definition f32_round (r : R) : f32 :=
  if Rle_dec f32_threshold r then PInf
  else if Rle_dec r (- f32_threshold) then NInf
  else Fin r.

Definition f32_neg (a : f32) : f32 :=
  match a with
  | Fin r => Fin (- r)
  | PInf => NInf
  | NInf => PInf
  | NaN => NaN
  end.

Definition f32_add (a b : f32) : f32 :=
  match a, b with
  | Fin r, Fin s => f32_round (r + s)
  | NaN, _ | _, NaN => NaN
  | PInf, NInf | NInf, PInf => NaN
  | PInf, _ | _, PInf => PInf
  | NInf, _ | _, NInf => NInf
  end.

Definition f32_sub (a b : f32) : f32 := f32_add a (f32_neg b).

(** An infinity of the sign of [r], NaN for zero. *)
Definition f32_signed_inf (r : R) : f32 :=
  if Rlt_dec 0 r then PInf else if Rlt_dec r 0 then NInf else NaN.

Definition f32_mul (a b : f32) : f32 :=
  match a, b with
  | Fin r, Fin s => f32_round (r * s)
  | NaN, _ | _, NaN => NaN
  | Fin r, PInf | PInf, Fin r => f32_signed_inf r
  | Fin r, NInf | NInf, Fin r => f32_signed_inf (- r)
  | PInf, PInf | NInf, NInf => PInf
  | PInf, NInf | NInf, PInf => NInf
  end.

(** [torch.exp] and [torch.log]. *)
Definition f32_exp (a : f32) : f32 :=
  match a with
  | Fin r => f32_round (exp r)
  | PInf => PInf
  | NInf => Fin 0
  | NaN => NaN
  end.

Definition f32_log (a : f32) : f32 :=
  match a with
  | Fin r => if Rlt_dec 0 r then Fin (ln r)
             else if Rlt_dec r 0 then NaN else NInf
  | PInf => PInf
  | NInf => NaN
  | NaN => NaN
  end.

(** An entry of the modulator of lines 26-27, for [gamma <> 0], a label
    [y] and a logit [x]. *)
Definition modulator_f32 (gamma : R) (y x : f32) : f32 :=
  f32_exp
    (f32_sub (f32_mul (f32_mul (Fin (- gamma)) y) x)
             (f32_mul (Fin gamma)
                      (f32_log (f32_add (Fin 1)
                                        (f32_exp (f32_mul (Fin (-1)) x)))))).

(** ** Python strings *)

Open Scope string_scope.

(** [str(n)] for a non-negative integer and [str(z)] for an integer. *)
Definition str_of_nat (n : nat) : string :=
  NilEmpty.string_of_uint (Nat.to_uint n).

Definition str_of_Z (z : Z) : string :=
  NilEmpty.string_of_int (Z.to_int z).

(** [c * n] for a one-character string. *)
Fixpoint replicate_char (n : nat) (c : ascii) : string :=
  match n with
  | O => ""
  | S k => String c (replicate_char k c)
  end.

(** [s.zfill(width)] for a string without a sign. *)
Definition zfill (width : nat) (s : string) : string :=
  replicate_char (width - String.length s) "0" ++ s.

(** [sub in s]. *)
Fixpoint contains (sub s : string) : bool :=
  prefix sub s ||
  match s with
  | "" => false
  | String _ s' => contains sub s'
  end.

(** [s.replace(old, new)] for a non-empty [old]: occurrences are replaced
    from left to right and do not overlap.  [skip] counts the characters of
    a replaced occurrence still to be dropped. *)
Fixpoint replace_from (old new s : string) (skip : nat) : string :=
  match s with
  | "" => ""
  | String c s' =>
      match skip with
      | S k => replace_from old new s' k
      | O =>
          if prefix old s
          then new ++ replace_from old new s' (String.length old - 1)
          else String c (replace_from old new s' 0)
      end
  end.

Definition replace (old new s : string) : string := replace_from old new s 0.

(** [s.split(',')]: never an empty list. *)
Fixpoint split_comma (s : string) : list string :=
  match s with
  | "" => [""]
  | String c s' =>
      if Ascii.eqb c "," then "" :: split_comma s'
      else match split_comma s' with
           | [] => [String c ""]
           | h :: t => String c h :: t
           end
  end.

(** [os.path.join(a, b)] on POSIX paths. *)
Definition ends_with_slash (s : string) : bool :=
  match get (String.length s - 1) s with
  | Some c => Ascii.eqb c "/"
  | None => false
  end.

Definition path_join (a b : string) : string :=
  if prefix "/" b then b
  else if String.eqb a "" then b
  else if ends_with_slash a then a ++ b
  else a ++ "/" ++ b.

(** Truth value of a string, and of an optional string. *)
Definition truthy (s : string) : bool := negb (String.eqb s "").

Definition truthy_opt (o : option string) : bool :=
  match o with
  | Some s => truthy s
  | None => false
  end.

(** ** Paths *)

(** [s.split('/')]. *)
Fixpoint split_slash (s : string) : list string :=
  match s with
  | "" => [""]
  | String c s' =>
      if Ascii.eqb c "/" then "" :: split_slash s'
      else match split_slash s' with
           | [] => [String c ""]
           | h :: t => String c h :: t
           end
  end.

(** The entry that a path string names, as the operating system resolves
    it: the names on the way from the working directory down to the entry,
    or from the root for a path that starts with a slash (the first name
    is then ["/"]).  Empty names (a doubled or a trailing slash) and the
    name [.] do not move.  The name [..] and symbolic links are not
    resolved: the model covers path strings without them. *)
Definition path : Type := list string.

Definition is_name (c : string) : bool :=
  negb (String.eqb c "") && negb (String.eqb c ".").

Definition resolve (p : string) : path :=
  ((if prefix "/" p then ["/"] else []) ++ filter is_name (split_slash p))%list.

(** A path string that can name a directory only: it ends with a slash or
    with the name [.]. *)
Definition dir_only (p : string) : bool :=
  negb (is_name (last (split_slash p) "")).

Fixpoint path_eqb (a b : path) : bool :=
  match a, b with
  | [], [] => true
  | x :: a', y :: b' => String.eqb x y && path_eqb a' b'
  | _, _ => false
  end.

(** ** save_features.py: data *)

(** The options of the command line that the code below reads, as
    [parser.parse_args()] returns them (line 144).  The other options are
    only handed to the dataset, the backbone and the optimizer. *)
Record Cli : Type := mkCli {
  save_dir : string;
  tag : string;
  resume : option string;
  epochs : Z;
  learning_rate : R;
  lr_decay_epochs_arg : string;
  lr_decay_rate : R;
  cosine : bool;
  warm : bool;
  warm_epochs_arg : Z;
  dataset : string;
  class_split : string;
  n_cls : Z;
  model : string;
  method : string;
  pretrained : bool;
  pretrained_ckpt : option string;
  from_sl_official : bool;
  patch_size : Z;
  seed : Z
}.

(** The namespace [args] after [parse_args]: the options, the attributes
    that were rebound, and the attributes that were added.  An attribute
    that was never set is [None]. *)
Record Args : Type := mkArgs {
  cli : Cli;
  lr_decay_epochs : list Z;
  warm_epochs : Z;
  model_name : string;
  save_folder : string;
  warmup_from : option R;
  warmup_to : option R;
  cls_list : option (list string);
  start_epoch : option Z
}.

Definition set_start_epoch (e : Z) (a : Args) : Args :=
  mkArgs (cli a) (lr_decay_epochs a) (warm_epochs a) (model_name a)
         (save_folder a) (warmup_from a) (warmup_to a) (cls_list a) (Some e).

Section Pipeline.

(** The payload of a tensor of the pipeline (an image batch, a feature
    batch, a parameter): its content is never inspected. *)
Variable T : Type.

(** Whatever the code that is not in this repository's two files keeps
    between calls: the states of the random number generators, of the
    devices and of the data set. *)
Variable H : Type.

Definition state_dict : Type := list (string * T).

(** A checkpoint file: a dictionary with the keys ['epoch'], ['model'] and
    ['optimizer'], each of which may be missing. *)
Record checkpoint : Type := mkCheckpoint {
  ck_epoch : option Z;
  ck_model : option state_dict;
  ck_optimizer : option state_dict
}.

Inductive content : Type :=
| CheckpointFile (c : checkpoint)
| TensorFile (t : T)
| JsonFile (a : Args).

(** What [print] writes. *)
Inductive line : Type :=
| Text (s : string)
| IncompatibleKeys (missing unexpected : list string).

(** The file system, the standard output and the hidden state.  [dirs]
    holds the directories besides the working directory and the root,
    which always exist; [files] is read from the front, so a later write to
    a path hides an earlier one. *)
Record World : Type := mkWorld {
  dirs : list path;
  files : list (path * content);
  stdout : list line;
  hidden : H
}.

(** A batch of a loader: images, labels, raw audio. *)
Definition batch : Type := (T * T * T)%type.

(** A network with its parameters and its forward pass, [model(images,
    audio)], which is code of the backbone: it may raise and may change
    the world. *)
Record Model : Type := mkModel {
  params : state_dict;
  forward : T -> T -> World -> result (T * World)
}.

(** What the code calls and this repository's two files do not define.
    Each call may raise and may read and change the world. *)
Record Externals : Type := mkExternals {
  (* int(s) for a string *)
  py_int : string -> result Z;
  (* random.seed, np.random.seed, torch.manual_seed, torch.cuda.manual_seed
     and the two cudnn flags of lines 327-332, on the hidden state *)
  seed_rng : Z -> H -> H;
  (* ICBHIDataset and DataLoader of set_loader: the batches that the one
     pass over the train loader and the one pass over the validation
     loader yield *)
  make_loaders : Args -> World -> result (list batch * list batch * World);
  (* the backbone built by get_backbone_class from the keyword
     arguments of lines 242-258 *)
  get_backbone : Args -> World -> result (Model * World);
  (* model.load_sl_official_weights() *)
  load_sl_official_weights : Model -> World -> result (Model * World);
  (* set_optimizer(args, optim_params): the state of the new optimizer *)
  set_optimizer : Args -> state_dict -> World -> result (state_dict * World);
  (* torch.cuda.device_count() *)
  device_count : nat
}.

Fixpoint lookup {V : Type} (k : string) (l : list (string * V)) : option V :=
  match l with
  | [] => None
  | (k', v) :: l' => if String.eqb k k' then Some v else lookup k l'
  end.

(** ** The file system *)

Fixpoint find_file (q : path) (l : list (path * content)) : option content :=
  match l with
  | [] => None
  | (q', c) :: l' => if path_eqb q q' then Some c else find_file q l'
  end.

Definition is_file (w : World) (q : path) : bool :=
  match find_file q (files w) with Some _ => true | None => false end.

Definition is_dir (w : World) (q : path) : bool :=
  path_eqb q [] || path_eqb q ["/"] || existsb (path_eqb q) (dirs w).

(** Some directory on the way to the entry is a regular file. *)
Definition blocked (w : World) (q : path) : bool :=
  existsb (fun k => is_file w (firstn k q)) (seq 1 (length q - 1)).

(** The content of the regular file that a path string names. *)
Definition read_file (w : World) (p : string) : option content :=
  find_file (resolve p) (files w).

(** [os.path.isfile(p)], [os.path.isdir(p)] and [os.path.exists(p)]. *)
Definition isfile (w : World) (p : string) : bool :=
  negb (String.eqb p "") && negb (dir_only p) && is_file w (resolve p).

Definition isdir (w : World) (p : string) : bool :=
  negb (String.eqb p "") && is_dir w (resolve p).

Definition path_exists (w : World) (p : string) : bool :=
  isdir w p || isfile w p.

Definition print (l : line) (w : World) : World :=
  mkWorld (dirs w) (files w) (stdout w ++ [l])%list (hidden w).

(** [os.mkdir] of a resolved path: the way to the entry must consist of
    directories, the parent must exist, and the entry must not. *)
Definition mkdir (q : path) (w : World) : result World :=
  if blocked w q then Raise NotADirectoryError
  else if negb (is_dir w (removelast q)) then Raise FileNotFoundError
  else if is_dir w q || is_file w q then Raise FileExistsError
  else Ok (mkWorld (q :: dirs w) (files w) (stdout w) (hidden w)).

(** The recursion of [os.makedirs] on the reversed path: a parent that
    does not exist is made first, and a [FileExistsError] from making it
    is passed over; then the entry itself is made. *)
Fixpoint makedirs_from (rq : list string) (w : World) : result World :=
  match rq with
  | [] => mkdir [] w
  | _ :: rparent =>
      w1 <- (if negb (is_dir w (List.rev rparent) || is_file w (List.rev rparent)) then
               match makedirs_from rparent w with
               | Raise FileExistsError => Ok w
               | r => r
               end
             else Ok w) ;;
      mkdir (List.rev rq) w1
  end.

(** [os.makedirs(p)]. *)
Definition makedirs (p : string) (w : World) : result World :=
  if String.eqb p "" then Raise FileNotFoundError
  else makedirs_from (List.rev (resolve p)) w.

(** Writing a file: [torch.save(obj, p)], [json.dump] into [open(p, 'w')].
    The directory of the file must exist. *)
Definition write_file (p : string) (c : content) (w : World) : result World :=
  let q := resolve p in
  if String.eqb p "" then Raise FileNotFoundError
  else if blocked w q then Raise NotADirectoryError
  else if negb (is_dir w (removelast q)) then Raise FileNotFoundError
  else if is_dir w q then Raise IsADirectoryError
  else if dir_only p then
    (if is_file w q then Raise NotADirectoryError else Raise IsADirectoryError)
  else Ok (mkWorld (dirs w) ((q, c) :: files w) (stdout w) (hidden w)).

(** [torch.load(p)] of a checkpoint.  [TypeError] stands for what happens
    with a file that holds no checkpoint dictionary. *)
Definition torch_load (w : World) (p : string) : result checkpoint :=
  let q := resolve p in
  if String.eqb p "" then Raise FileNotFoundError
  else if blocked w q then Raise NotADirectoryError
  else if is_dir w q then Raise IsADirectoryError
  else match find_file q (files w) with
       | None => Raise FileNotFoundError
       | Some f =>
           if dir_only p then Raise NotADirectoryError
           else match f with
                | CheckpointFile c => Ok c
                | _ => Raise TypeError
                end
       end.

(** [d[key]] on a dictionary entry that may be missing. *)
Definition getitem {V : Type} (o : option V) : result V :=
  match o with
  | Some v => Ok v
  | None => Raise KeyError
  end.

Definition keys (sd : state_dict) : list string := map fst sd.

Definition mem (k : string) (l : list string) : bool := existsb (String.eqb k) l.

(** [module.load_state_dict(sd, strict)]: every parameter of the module
    named in [sd] takes its value; with [strict] a missing or an unexpected
    key raises.  The second component is the value the call returns. *)
Definition load_state_dict (strict : bool) (own sd : state_dict)
  : result (state_dict * line) :=
  let missing := filter (fun k => negb (mem k (keys sd))) (keys own) in
  let unexpected := filter (fun k => negb (mem k (keys own))) (keys sd) in
  let loaded := map (fun kv => match lookup (fst kv) sd with
                               | Some v => (fst kv, v)
                               | None => kv
                               end) own in
  match strict, missing, unexpected with
  | true, _ :: _, _ => Raise RuntimeError
  | true, _, _ :: _ => Raise RuntimeError
  | _, _, _ => Ok (loaded, IncompatibleKeys missing unexpected)
  end.

(** ** save_features.py: parse_args, lines 146-186 *)

Variable ext : Externals.

Fixpoint map_result {A B : Type} (f : A -> result B) (l : list A)
  : result (list B) :=
  match l with
  | [] => Ok []
  | a :: l' => b <- f a ;; bs <- map_result f l' ;; Ok (b :: bs)
  end.

(** Lines 172-184: the class names of the chosen task. *)
Definition class_names (c : Cli) : result (option (list string)) :=
  if String.eqb (dataset c) "icbhi" then
    if String.eqb (class_split c) "lungsound" then
      if (n_cls c =? 4)%Z then Ok (Some ["normal"; "crackle"; "wheeze"; "both"])
      else if (n_cls c =? 2)%Z then Ok (Some ["normal"; "abnormal"])
      else Ok None
    else if String.eqb (class_split c) "diagnosis" then
      if (n_cls c =? 3)%Z
      then Ok (Some ["healthy"; "chronic_diseases"; "non-chronic_diseases"])
      else if (n_cls c =? 2)%Z then Ok (Some ["healthy"; "unhealthy"])
      else Ok None
    else Ok None
  else Raise NotImplementedError.

(** Lines 162-170: the warm-up attributes [(warm_epochs, warmup_from,
    warmup_to)]. *)
Definition warmup (c : Cli) : result (Z * option R * option R) :=
  if warm c then
    let warmup_from := (learning_rate c * 0.1)%R in
    let warm_epochs := 10%Z in
    if cosine c then
      let eta_min := (learning_rate c * lr_decay_rate c ^ 3)%R in
      if (epochs c =? 0)%Z then Raise ZeroDivisionError
      else
        Ok (warm_epochs, Some warmup_from,
            Some (eta_min + (learning_rate c - eta_min)
                            * (1 + cos (PI * IZR warm_epochs / IZR (epochs c))) / 2)%R)
    else Ok (warm_epochs, Some warmup_from, Some (learning_rate c))
  else Ok (warm_epochs_arg c, None, None).

Definition parse_args (c : Cli) (w : World) : result (Args * World) :=
  let iterations := split_comma (lr_decay_epochs_arg c) in
  lr_decay_epochs <- map_result (py_int ext) iterations ;;
  let model_name := dataset c ++ "_" ++ model c ++ "_" ++ method c in
  let model_name :=
    if truthy (tag c) then model_name ++ "_" ++ tag c else model_name in
  _ <- (if mem (method c) ["patchmix"; "patchmix_cl"]
        then if mem (model c) ["ast"; "ssast"] then Ok tt
             else Raise AssertionError
        else Ok tt) ;;
  let save_folder := path_join (save_dir c) model_name in
  w <- (if negb (isdir w save_folder) then makedirs save_folder w else Ok w) ;;
  wu <- warmup c ;;
  cls_list <- class_names c ;;
  Ok (mkArgs c lr_decay_epochs (fst (fst wu)) model_name save_folder
             (snd (fst wu)) (snd wu) cls_list None, w).

(** ** save_features.py: set_loader *)

(** The data sets and the loaders are built by [make_loaders]; the other
    branch raises the constant [NotImplemented], which is not an exception.
    The attributes [args.h], [args.w] and [args.class_nums] that the function
    sets are read by the backbone and the criterion only. *)
Definition set_loader (args : Args) (w : World)
  : result (list batch * list batch * World) :=
  if String.eqb (dataset (cli args)) "icbhi" then make_loaders ext args w
  else Raise TypeError.

(** ** save_features.py: set_model *)

(** Lines 267-269: the class weights of the weighted cross-entropy, from
    the number of training samples of each class, [args.class_nums]. *)
Definition criterion_weights (class_nums : list Z) : list R :=
  let weights := map IZR class_nums in
  let total := np_sum weights in
  let weights := map (fun w => (1 / (w / total))%R) weights in
  let total := np_sum weights in
  map (fun w => (w / total)%R) weights.

(** [d[k] = v] on a dictionary that keeps insertion order. *)
Fixpoint dict_set (k : string) (v : T) (d : state_dict) : state_dict :=
  match d with
  | [] => [(k, v)]
  | (k', v') :: d' =>
      if String.eqb k k' then (k, v) :: d' else (k', v') :: dict_set k v d'
  end.

(** Lines 283-291: the keys of the checkpoint without the prefixes of the
    data-parallel wrapper and of the backbone. *)
Definition rename_key (k : string) : string :=
  let k := if contains "module." k then replace "module." "" k else k in
  if contains "backbone." k then replace "backbone." "" k else k.

Definition rename_keys (sd : state_dict) : state_dict :=
  fold_left (fun new kv => dict_set (rename_key (fst kv)) (snd kv) new) sd [].

(** Lines 277-297: the pre-trained checkpoint. *)
Definition load_pretrained (args : Args) (m : Model) (w : World)
  : result (Model * World) :=
  match pretrained (cli args), pretrained_ckpt (cli args) with
  | true, Some path =>
      ckpt <- torch_load w path ;;
      sd <- getitem (ck_model ckpt) ;;
      let sd := rename_keys sd in
      let w := print (Text ("pretrained model loaded from: " ++ path)) w in
      r <- load_state_dict false (params m) sd ;;
      Ok (mkModel (fst r) (forward m), print (snd r) w)
  | _, _ => Ok (m, w)
  end.

(** [torch.nn.DataParallel(model)]: the parameters are those of the
    attribute [module]. *)
Definition DataParallel (m : Model) : Model :=
  mkModel (map (fun kv => ("module." ++ fst kv, snd kv)) (params m)) (forward m).

(** [set_model(args)]: the model and the state of the optimizer.  The
    classifier is an empty [nn.Sequential], and neither it nor the
    projector nor the criterion is used by [main]. *)
Definition set_model (args : Args) (w : World)
  : result (Model * state_dict * World) :=
  mw <- get_backbone ext args w ;;
  mw <- (if negb (mem (model (cli args)) ["ast"; "ssast"])
            && from_sl_official (cli args)
         then
           r <- load_sl_official_weights ext (fst mw) (snd mw) ;;
           Ok (fst r,
               print (Text "pretrained model loaded from PyTorch ImageNet-pretrained")
                     (snd r))
         else Ok mw) ;;
  mw <- load_pretrained args (fst mw) (snd mw) ;;
  let m := if (1 <? device_count ext)%nat then DataParallel (fst mw) else fst mw in
  ow <- set_optimizer ext args (params m) (snd mw) ;;
  Ok (m, fst ow, snd ow).

(** ** save_features.py: main *)

(** Lines 327-332: the seeds. *)
Definition fix_seed (s : Z) (w : World) : World :=
  mkWorld (dirs w) (files w) (stdout w) (seed_rng ext s (hidden w)).

(** Lines 341-353: resuming from a checkpoint.  [optimizer.load_state_dict]
    replaces the state of the optimizer. *)
Definition resume_checkpoint (args : Args) (m : Model) (optimizer : state_dict)
           (w : World) : result (Args * Model * state_dict * World) :=
  match resume (cli args) with
  | Some path =>
      if truthy path then
        if isfile w path then
          let w := print (Text ("=> loading checkpoint '" ++ path ++ "'")) w in
          checkpoint <- torch_load w path ;;
          epoch <- getitem (ck_epoch checkpoint) ;;
          let args := set_start_epoch epoch args in
          sd <- getitem (ck_model checkpoint) ;;
          r <- load_state_dict true (params m) sd ;;
          let m := mkModel (fst r) (forward m) in
          optimizer <- getitem (ck_optimizer checkpoint) ;;
          let args := set_start_epoch (epoch + 1) args in
          let w := print (Text ("=> loaded checkpoint '" ++ path ++ "' (epoch "
                                ++ str_of_Z epoch ++ ")")) w in
          Ok (args, m, optimizer, w)
        else
          Ok (args, m, optimizer,
              print (Text ("=> no checkpoint found at '" ++ path ++ "'")) w)
      else Ok (set_start_epoch 1 args, m, optimizer, w)
  | None => Ok (set_start_epoch 1 args, m, optimizer, w)
  end.

(** The directory and the two file names of one batch; [kind] is ["train"]
    in the loop of lines 361-371 and ["test"] in the loop of lines 375-385. *)
Definition feature_dir (kind : string) (args : Args) : string :=
  "./features_" ++ kind ++ "/" ++ str_of_Z (patch_size (cli args)) ++ "/".

Definition feature_path (kind : string) (args : Args) (idx : nat) : string :=
  feature_dir kind args ++ "/feature_" ++ kind ++ "_"
              ++ zfill 5 (str_of_nat idx) ++ ".pth".

Definition label_path (kind : string) (args : Args) (idx : nat) : string :=
  feature_dir kind args ++ "/label_" ++ kind ++ "_"
              ++ zfill 5 (str_of_nat idx) ++ ".pth".

(** One pass over the batches of a loader, from the batch index [idx] on. *)
Fixpoint dump_features (kind : string) (args : Args) (m : Model)
         (idx : nat) (loader : list batch) (w : World) : result World :=
  match loader with
  | [] => Ok w
  | (images, labels, audio) :: rest =>
      fw <- forward m images audio w ;;
      let features := fst fw in
      let w := snd fw in
      let save_dir := feature_dir kind args in
      w <- (if negb (path_exists w save_dir) then makedirs save_dir w else Ok w) ;;
      w <- write_file (feature_path kind args idx) (TensorFile features) w ;;
      w <- write_file (label_path kind args idx) (TensorFile labels) w ;;
      dump_features kind args m (S idx) rest w
  end.

(** Lines 360-385: the pass over the train loader, then the pass over the
    validation loader. *)
Definition feature_dump (args : Args) (m : Model)
           (train_loader val_loader : list batch) (w : World) : result World :=
  w <- dump_features "train" args m 0 train_loader w ;;
  dump_features "test" args m 0 val_loader w.

(** [main()], from the parsed command line and the initial world to the
    final world. *)
Definition main (c : Cli) (w : World) : result World :=
  aw <- parse_args c w ;;
  let args := fst aw in
  w <- write_file (path_join (save_folder args) "train_args.json")
                  (JsonFile args) (snd aw) ;;
  let w := fix_seed (seed (cli args)) w in
  lw <- set_loader args w ;;
  let train_loader := fst (fst lw) in
  let val_loader := snd (fst lw) in
  mow <- set_model args (snd lw) ;;
  r <- resume_checkpoint args (fst (fst mow)) (snd (fst mow)) (snd mow) ;;
  let args := fst (fst (fst r)) in
  let m := snd (fst (fst r)) in
  let w := print (Text (replicate_char 20 "*")) (snd r) in
  feature_dump args m train_loader val_loader w.

End Pipeline.

(** ** Example inputs *)

(** An [int] for strings of decimal digits; every other string raises. *)
Definition digits_int (s : string) : result Z :=
  match s with
  | "" => Raise ValueError
  | _ => match NilEmpty.uint_of_string s with
         | Some d => Ok (Z.of_uint d)
         | None => Raise ValueError
         end
  end.

(** A backbone over tensors that are natural numbers, with one parameter:
    its forward pass adds its two inputs and leaves the world alone. *)
Definition example_model : Model nat unit :=
  mkModel [("v.weight", 0%nat)] (fun x y w => Ok ((x + y)%nat, w)).

(** Externals that leave the world alone: one train batch and one
    validation batch, the backbone above, a single device. *)
Definition example_ext : Externals nat unit :=
  mkExternals digits_int
    (fun _ h => h)
    (fun _ w => Ok ([(1, 2, 3)], [(4, 5, 6)], w)%nat)
    (fun _ w => Ok (example_model, w))
    (fun m w => Ok (m, w))
    (fun _ p w => Ok (p, w))
    1.

(** The defaults of the command line, with the options the examples vary. *)
Definition example_cli (save_dir : string) (resume : option string)
           (dataset class_split : string) (pretrained : bool) : Cli :=
  mkCli save_dir "bs8_lr5e-5_ep50_seed1" resume 1 (5 / 100000) "120,160"
        (1 / 10) true false 0 dataset class_split 4 "ast" "ce" pretrained
        (Some "./save/16/icbhi_ast_ce_bs8_lr5e-5_ep50_seed1/best.pth")
        true 16 1.

(** A command line with [--warm] and an empty [--tag]. *)
Definition warm_cli (epochs : Z) (model method : string) : Cli :=
  mkCli "./out/" "" None epochs (5 / 100000) "120,160" (1 / 10) true true 0
        "icbhi" "lungsound" 4 model method false
        (Some "./save/16/icbhi_ast_ce_bs8_lr5e-5_ep50_seed1/best.pth")
        true 16 1.

Definition empty_world : World nat unit := mkWorld (T := nat) [] [] [] tt.

(** * Specifications *)

Open Scope R_scope.

(** The reciprocal of the effective number of a class with [n] samples,
    [(1 - beta) / (1 - beta^n)]. *)
Definition effective_number_weight (beta : R) (n : Z) : R :=
  (1 - beta) / (1 - powerRZ beta n).

(** The modulating factor of the focal loss as the specification writes it,
    [exp(-gamma * y * x - gamma * log(1 + exp(-x)))], for a label [y] and a
    logit [x]. *)
Definition modulator_formula (gamma y x : R) : R :=
  exp (- gamma * y * x - gamma * ln (1 + exp (- x))).

(** The focal loss as the specification describes it: the elementwise
    binary cross-entropy with logits times the modulating factor, weighted
    by [alpha], summed, and divided by the sum of the labels. *)
Definition focal_loss_formula (labels logits alpha : tensor) (gamma : R) : R :=
  big_sum (fun i =>
    big_sum (fun j =>
      bentry alpha i j
      * (modulator_formula gamma (entry labels i j) (entry logits i j)
         * bce_logit (entry logits i j) (entry labels i j)))
      (cols logits)) (rows logits)
  / tsum labels.

(** The [alpha]-weighted binary cross-entropy with logits, summed and
    divided by the sum of the labels. *)
Definition weighted_bce_formula (labels logits alpha : tensor) : R :=
  big_sum (fun i =>
    big_sum (fun j =>
      bentry alpha i j * bce_logit (entry logits i j) (entry labels i j))
      (cols logits)) (rows logits)
  / tsum labels.

(** The modulating factor of the docstring of [focal_loss],
    [(1 - pt)^gamma], where [pt] is the probability of the true class. *)
Definition pt (y x : R) : R :=
  if Req_dec_T y 1 then sigmoid x else 1 - sigmoid x.

Definition docstring_modulator (gamma y x : R) : R :=
  Rpower (1 - pt y x) gamma.

(** The factor that multiplies the cross-entropy in [focal_loss]: the float
    1.0 for [gamma = 0], the formula otherwise. *)
Definition focal_factor (gamma y x : R) : R :=
  if Req_dec_T gamma 0 then 1 else modulator_formula gamma y x.

(** The value of [modulator] at a position: a float is the same at every
    position. *)
Definition pyval_entry (v : pyval) (i j : nat) : R :=
  match v with
  | PyFloat r => r
  | PyTensor t => entry t i j
  end.

(** A tensor whose entries are all 0 or 1. *)
Definition binary (t : tensor) : Prop :=
  forall i j, (i < rows t)%nat -> (j < cols t)%nat ->
              entry t i j = 0 \/ entry t i j = 1.

(** A label that is a class index. *)
Definition in_range (no_of_classes : nat) (l : Z) : Prop :=
  (0 <= l < Z.of_nat no_of_classes)%Z.

(** A string without a slash. *)
Fixpoint no_slash (s : string) : bool :=
  match s with
  | EmptyString => true
  | String c s' => negb (Ascii.eqb c "/") && no_slash s'
  end.

(** The names of the two files of a batch, and the names that the patch
    size adds to the way to them. *)
Definition feature_name (kind : string) (idx : nat) : string :=
  ("feature_" ++ kind ++ "_" ++ zfill 5 (str_of_nat idx) ++ ".pth")%string.

Definition label_name (kind : string) (idx : nat) : string :=
  ("label_" ++ kind ++ "_" ++ zfill 5 (str_of_nat idx) ++ ".pth")%string.

Definition patch_dir (args : Args) : path :=
  filter is_name (split_slash (str_of_Z (patch_size (cli args)))).

(** A resolved path that the pass [kind] of the feature dump writes for a
    batch index from [lo] on. *)
Definition dump_target (kind : string) (args : Args) (lo : nat) (q : path)
  : Prop :=
  exists i, (lo <= i)%nat /\
            (q = resolve (feature_path kind args i)
             \/ q = resolve (label_path kind args i)).

(** A resolved path that the pass [kind] of the feature dump writes for one
    of the [n] batch indices from [lo] on. *)
Definition dump_written (kind : string) (args : Args) (lo n : nat) (q : path)
  : Prop :=
  exists i, (lo <= i < lo + n)%nat /\
            (q = resolve (feature_path kind args i)
             \/ q = resolve (label_path kind args i)).

(** No file of the dump is a directory. *)
Definition dump_writable (T H : Type) (kind : string) (args : Args)
           (w : World T H) : Prop :=
  forall i, is_dir w (resolve (feature_path kind args i)) = false /\
            is_dir w (resolve (label_path kind args i)) = false.

(** On the way to the directory of the pass [kind], the directory included,
    nothing is a regular file. *)
Definition dump_dir_free (T H : Type) (kind : string) (args : Args)
           (w : World T H) : Prop :=
  forall k, is_file w (firstn k (resolve (feature_dir kind args))) = false.

(** The forward pass returns on every batch of a loader, in every world. *)
Definition forward_returns (T H : Type) (m : Model T H)
           (loader : list (batch T)) : Prop :=
  forall images labels audio w,
    In (images, labels, audio) loader -> returns (forward m images audio w).

(** A call that leaves the directories and the files as they are. *)
Definition keeps_files (T H A : Type)
           (f : World T H -> result (A * World T H)) : Prop :=
  forall w a w', f w = Ok (a, w') -> dirs w' = dirs w /\ files w' = files w.

Definition forward_keeps_files (T H : Type) (m : Model T H) : Prop :=
  forall images audio, keeps_files (forward m images audio).

(** The code outside the two files leaves the directories and the files as
    they are: the loaders, the construction of the backbone and of the
    optimizer, and the forward pass of the backbone. *)
Definition externals_keep_files (T H : Type) (ext : Externals T H) : Prop :=
  (forall args, keeps_files (make_loaders ext args)) /\
  (forall args, keeps_files (get_backbone ext args)) /\
  (forall args w m w',
      get_backbone ext args w = Ok (m, w') -> forward_keeps_files m) /\
  (forall m, keeps_files (load_sl_official_weights ext m)) /\
  (forall m w m' w',
      load_sl_official_weights ext m w = Ok (m', w') ->
      forward_keeps_files m -> forward_keeps_files m') /\
  (forall args p, keeps_files (set_optimizer ext args p)).

(** The world after the two writes of the batch [idx] of the pass [kind]. *)
Definition after_batch (T H : Type) (kind : string) (args : Args) (idx : nat)
           (features labels : T) (w : World T H) : World T H :=
  mkWorld (dirs w)
          ((resolve (label_path kind args idx), TensorFile labels)
             :: (resolve (feature_path kind args idx), TensorFile features)
             :: files w)
          (stdout w) (hidden w).

(** A parameter name without the prefixes that lines 283-291 remove. *)
Definition clean_key (k : string) : Prop :=
  contains "module." k = false /\ contains "backbone." k = false.

(** The number of commas of a string. *)
Fixpoint commas (s : string) : nat :=
  match s with
  | EmptyString => 0%nat
  | String c s' => if Ascii.eqb c "," then S (commas s') else commas s'
  end.

(** C8 as stated: every tensor file that a run of [main] leaves lies under
    the output directory of the command line, [--save_dir]. *)
Definition features_under_save_dir (T H : Type) (ext : Externals T H)
           (c : Cli) (w : World T H) : Prop :=
  forall w' q t,
    main ext c w = Ok w' ->
    find_file q (files w') = Some (TensorFile t) ->
    firstn (length (resolve (save_dir c))) q = resolve (save_dir c).

(** * Properties of cb.py *)

(** ** Sums *)

Lemma big_sum_ext (f g : nat -> R) (n : nat) :
  (forall i, (i < n)%nat -> f i = g i) -> big_sum f n = big_sum g n.
Proof.
  induction n as [|n IH]; intros H; simpl; [reflexivity|].
  rewrite IH by (intros; apply H; lia).
  rewrite (H n) by lia. reflexivity.
Qed.

Lemma big_sum_const (c : R) (n : nat) : big_sum (fun _ => c) n = INR n * c.
Proof.
  induction n as [|n IH]; [simpl; ring|].
  rewrite S_INR. simpl big_sum. rewrite IH. ring.
Qed.

Lemma big_sum_nonneg (f : nat -> R) (n : nat) :
  (forall i, (i < n)%nat -> 0 <= f i) -> 0 <= big_sum f n.
Proof.
  induction n as [|n IH]; intros H; simpl; [lra|].
  assert (0 <= big_sum f n) by (apply IH; intros; apply H; lia).
  assert (0 <= f n) by (apply H; lia). lra.
Qed.

(** A sum whose only non-zero term is the one at [k]. *)
Lemma big_sum_single (f : nat -> R) (n k : nat) :
  (k < n)%nat -> (forall i, (i < n)%nat -> i <> k -> f i = 0) ->
  big_sum f n = f k.
Proof.
  induction n as [|n IH]; intros Hk H; [lia|]. simpl.
  destruct (Nat.eq_dec k n) as [->|Hne].
  - rewrite (big_sum_ext f (fun _ => 0)) by (intros; apply H; lia).
    rewrite big_sum_const. ring.
  - rewrite IH by (try lia; intros; apply H; lia).
    rewrite (H n) by lia. ring.
Qed.

Lemma np_sum_scale (f : Z -> R) (k : R) (l : list Z) :
  np_sum (map (fun n => f n * k) l) = np_sum (map f l) * k.
Proof.
  induction l as [|a l IH]; simpl; [ring|]. rewrite IH. ring.
Qed.

Lemma np_sum_pos (f : Z -> R) (l : list Z) :
  l <> [] -> Forall (fun n => 0 < f n) l -> 0 < np_sum (map f l).
Proof.
  intros Hne Hall. induction Hall as [|a l Ha Hl IH]; [congruence|].
  simpl. destruct l as [|b l].
  - simpl. lra.
  - assert (0 < np_sum (map f (b :: l))) by (apply IH; discriminate). lra.
Qed.

(** ** The class weights *)

Lemma pow_lt_1 (beta : R) (n : nat) :
  0 <= beta < 1 -> (0 < n)%nat -> beta ^ n < 1.
Proof.
  intros Hb Hn. destruct n as [|n]; [lia|]. clear Hn.
  induction n as [|n IH]; simpl in *; [lra|].
  assert (0 <= beta * beta ^ n).
  { apply Rmult_le_pos; [lra|]. apply pow_le. lra. }
  nra.
Qed.

Lemma powerRZ_lt_1 (beta : R) (n : Z) :
  0 <= beta < 1 -> (0 < n)%Z -> powerRZ beta n < 1.
Proof.
  intros Hb Hn. destruct n as [|p|p]; try lia.
  simpl. apply pow_lt_1; [assumption|]. lia.
Qed.

Lemma effective_number_weight_pos (beta : R) (n : Z) :
  0 <= beta < 1 -> (0 < n)%Z -> 0 < effective_number_weight beta n.
Proof.
  intros Hb Hn. unfold effective_number_weight.
  pose proof (powerRZ_lt_1 Hb Hn).
  apply Rdiv_lt_0_compat; lra.
Qed.

Lemma class_weights_eq (samples : list Z) (C : nat) (beta : R) :
  class_weights samples C beta =
  map (fun n => effective_number_weight beta n
                * (INR C / np_sum (map (effective_number_weight beta) samples)))
      samples.
Proof.
  unfold class_weights. rewrite !map_map.
  apply map_ext. intros n. unfold effective_number_weight, Rdiv. ring.
Qed.

(** C1. For positive per-class sample counts and [beta] in [0, 1), the
    weight that [CB_loss] computes for the class [c] is the reciprocal of
    the effective number, [(1 - beta) / (1 - beta^n_c)], times a factor
    common to all classes, and the weights sum to [no_of_classes]. *)
Theorem class_weights_normalized (samples_per_cls : list Z)
        (no_of_classes : nat) (beta : R) :
  Forall (fun n => (0 < n)%Z) samples_per_cls ->
  0 <= beta < 1 ->
  length samples_per_cls = no_of_classes ->
  (forall c, (c < no_of_classes)%nat ->
     nth c (class_weights samples_per_cls no_of_classes beta) 0 =
     effective_number_weight beta (nth c samples_per_cls 0%Z)
     * (INR no_of_classes
        / np_sum (map (effective_number_weight beta) samples_per_cls)))
  /\ np_sum (class_weights samples_per_cls no_of_classes beta)
     = INR no_of_classes.
Proof.
  intros Hpos Hb Hlen. rewrite class_weights_eq. split.
  - intros c Hc.
    set (k := INR no_of_classes / _).
    rewrite (nth_indep _ 0 (effective_number_weight beta 0%Z * k))
      by (rewrite length_map; lia).
    apply (map_nth (fun n => effective_number_weight beta n * k)).
  - rewrite np_sum_scale.
    destruct samples_per_cls as [|a l].
    + simpl in Hlen. subst. simpl. ring.
    + assert (0 < np_sum (map (effective_number_weight beta) (a :: l))).
      { apply np_sum_pos; [discriminate|].
        eapply Forall_impl; [|exact Hpos].
        intros n Hn. apply effective_number_weight_pos; assumption. }
      field. lra.
Qed.

Lemma class_weights_normalized_witness :
  np_sum (class_weights [2; 3; 1]%Z 3 (1 / 2)) = INR 3.
Proof.
  apply (class_weights_normalized (samples_per_cls := [2; 3; 1]%Z)
           (no_of_classes := 3) (beta := 1 / 2)).
  - repeat constructor.
  - lra.
  - reflexivity.
Defined.

(** ** One-hot labels and the expanded weights *)

Lemma class_ok_forallb (C : nat) (labels : list Z) :
  Forall (in_range C) labels -> forallb (class_ok C) labels = true.
Proof.
  intros H. apply forallb_forall. intros l Hl.
  rewrite Forall_forall in H. specialize (H l Hl). unfold in_range in H.
  unfold class_ok. apply andb_true_iff. split.
  - apply Z.leb_le. lia.
  - apply Z.ltb_lt. lia.
Qed.

Lemma one_hot_ok (labels : list Z) (C : nat) :
  labels <> [] -> Forall (in_range C) labels ->
  one_hot labels C =
  Ok (mkTensor (length labels) C
        (fun i j => if (nth i labels 0%Z =? Z.of_nat j)%Z then 1 else 0)).
Proof.
  intros Hne Hall. unfold one_hot.
  destruct labels as [|a l]; [congruence|].
  rewrite class_ok_forallb by assumption. reflexivity.
Qed.

Lemma nth_in_range (labels : list Z) (C i : nat) :
  Forall (in_range C) labels -> (i < length labels)%nat ->
  in_range C (nth i labels 0%Z).
Proof.
  intros Hall Hi. rewrite Forall_forall in Hall. apply Hall. apply nth_In. exact Hi.
Qed.

(** A row of the one-hot tensor holds a single one. *)
Lemma one_hot_row_sum (labels : list Z) (C i : nat) :
  Forall (in_range C) labels -> (i < length labels)%nat ->
  big_sum (fun j => if (nth i labels 0%Z =? Z.of_nat j)%Z then 1 else 0) C = 1.
Proof.
  intros Hall Hi. pose proof (nth_in_range Hall Hi) as Hr. unfold in_range in Hr.
  rewrite (big_sum_single _ (k := Z.to_nat (nth i labels 0%Z))).
  - rewrite Z2Nat.id by lia. rewrite Z.eqb_refl. reflexivity.
  - lia.
  - intros j _ Hj. destruct (Z.eqb_spec (nth i labels 0%Z) (Z.of_nat j)); [|reflexivity].
    exfalso. apply Hj. lia.
Qed.

Lemma bidx_lt (d i : nat) : (i < d)%nat -> bidx d i = i.
Proof.
  intros H. unfold bidx. destruct (Nat.eqb_spec d 1); [lia|reflexivity].
Qed.

Lemma bdim_refl (a : nat) : bdim a a = Some a.
Proof. unfold bdim. rewrite Nat.eqb_refl. reflexivity. Qed.



(** ** The denominator of the focal loss *)

Lemma tsum_one_hot (labels : list Z) (C : nat) :
  Forall (in_range C) labels ->
  tsum (mkTensor (length labels) C
          (fun i j => if (nth i labels 0%Z =? Z.of_nat j)%Z then 1 else 0))
  = INR (length labels).
Proof.
  intros Hall. unfold tsum. simpl.
  rewrite (big_sum_ext _ (fun _ => 1)).
  - rewrite big_sum_const. ring.
  - intros i Hi. apply one_hot_row_sum; assumption.
Qed.

(** C10. When [CB_loss] runs with the loss type ["focal"] on a non-empty
    batch of labels in [0, no_of_classes), [focal_loss] is called on the
    one-hot labels, whose sum, the divisor of line 34, is the batch size and
    so is strictly positive. *)
Theorem focal_divisor_positive (labels : list Z) (logits : tensor)
        (samples_per_cls : list Z) (no_of_classes : nat) (beta gamma : R) :
  labels <> [] ->
  Forall (in_range no_of_classes) labels ->
  exists labels_one_hot,
    one_hot labels no_of_classes = Ok labels_one_hot /\
    CB_loss labels logits samples_per_cls no_of_classes "focal" beta gamma =
      (weights <- expand_weights
                    (class_weights samples_per_cls no_of_classes beta)
                    labels_one_hot no_of_classes ;;
       focal_loss labels_one_hot logits weights gamma) /\
    tsum labels_one_hot = INR (length labels) /\
    0 < tsum labels_one_hot.
Proof.
  intros Hne Hall. eexists. split; [apply one_hot_ok; assumption|].
  split.
  - unfold CB_loss. rewrite one_hot_ok by assumption. simpl.
    destruct (expand_weights _ _ _) as [w|e]; simpl; [|reflexivity].
    unfold dispatch_loss. simpl.
    destruct (focal_loss _ logits w gamma); reflexivity.
  - rewrite tsum_one_hot by assumption. split; [reflexivity|].
    apply lt_0_INR. destruct labels; [congruence|simpl; lia].
Qed.

Lemma focal_divisor_positive_witness :
  exists labels_one_hot,
    one_hot [1; 0; 1]%Z 2 = Ok labels_one_hot /\
    tsum labels_one_hot = INR 3 /\ 0 < tsum labels_one_hot.
Proof.
  destruct (@focal_divisor_positive [1; 0; 1]%Z (mkTensor 3 2 (fun _ _ => 0))
              [3; 5]%Z 2 (1 / 2) 2) as [t [H1 [_ [H3 H4]]]].
  - discriminate.
  - repeat constructor; unfold in_range; simpl; lia.
  - exists t. repeat split; assumption.
Defined.

(** ** The focal loss *)

Lemma same_shape_eq (a b : tensor) :
  same_shape a b = true -> rows a = rows b /\ cols a = cols b.
Proof.
  unfold same_shape. intros H. apply andb_true_iff in H. destruct H as [H1 H2].
  apply Nat.eqb_eq in H1. apply Nat.eqb_eq in H2. split; assumption.
Qed.

Lemma bdim_expands (d n : nat) : expands_to d n = true -> bdim d n = Some n.
Proof.
  unfold expands_to, bdim. intros H.
  destruct (Nat.eqb_spec d n) as [->|Hne]; [reflexivity|].
  simpl in H. rewrite H. reflexivity.
Qed.

Lemma tsum_ext (a b : tensor) :
  rows a = rows b -> cols a = cols b ->
  (forall i j, (i < rows a)%nat -> (j < cols a)%nat -> entry a i j = entry b i j) ->
  tsum a = tsum b.
Proof.
  intros Hr Hc H. unfold tsum. rewrite <- Hr, <- Hc.
  apply big_sum_ext. intros i Hi. apply big_sum_ext. intros j Hj.
  apply H; assumption.
Qed.

(** The tensor branch of the modulating factor computes the formula of the
    specification at every position. *)
Lemma focal_modulator_tensor (labels logits : tensor) (gamma : R) :
  gamma <> 0 -> same_shape logits labels = true ->
  exists m,
    focal_modulator labels logits gamma = Ok (PyTensor m) /\
    rows m = rows logits /\ cols m = cols logits /\
    forall i j, (i < rows logits)%nat -> (j < cols logits)%nat ->
      entry m i j = modulator_formula gamma (entry labels i j) (entry logits i j).
Proof.
  intros Hg Hs. apply same_shape_eq in Hs. destruct Hs as [Hr Hc].
  unfold focal_modulator. destruct (Req_dec_T gamma 0) as [|_]; [contradiction|].
  unfold tmul, tsub, tzip. simpl. rewrite <- Hr, <- Hc, !bdim_refl. simpl.
  rewrite !bdim_refl. simpl.
  eexists. split; [reflexivity|]. simpl. split; [reflexivity|]. split; [reflexivity|].
  intros i j Hi Hj. unfold bentry. simpl.
  rewrite !(bidx_lt Hi), !(bidx_lt Hj).
  unfold modulator_formula. f_equal.
  replace (-1 * entry logits i j) with (- entry logits i j) by ring.
  reflexivity.
Qed.

(** C2. For [gamma <> 0], labels and logits of one shape and a weight
    tensor [alpha] that broadcasts to it, [focal_loss] returns the sum of
    [alpha] times the modulating factor
    [exp(-gamma*y*x - gamma*log(1+exp(-x)))] times the elementwise binary
    cross-entropy with logits, divided by the sum of the labels. *)
Theorem focal_loss_is_formula (labels logits alpha : tensor) (gamma : R) :
  gamma <> 0 ->
  same_shape logits labels = true ->
  expands_to (rows alpha) (rows logits) = true ->
  expands_to (cols alpha) (cols logits) = true ->
  focal_loss labels logits alpha gamma
  = Ok (focal_loss_formula labels logits alpha gamma).
Proof.
  intros Hg Hs Har Hac.
  destruct (@focal_modulator_tensor labels logits gamma Hg Hs)
    as [m [Hm [Hmr [Hmc Hme]]]].
  unfold focal_loss, binary_cross_entropy_with_logits_none.
  rewrite Hs, Hm. simpl.
  unfold tmul, tzip. simpl. rewrite Hmr, Hmc, !bdim_refl. simpl.
  rewrite (bdim_expands _ _ Har), (bdim_expands _ _ Hac). simpl.
  unfold focal_loss_formula. f_equal. f_equal.
  unfold tsum. simpl.
  apply big_sum_ext. intros i Hi. apply big_sum_ext. intros j Hj.
  unfold bentry at 2 3. simpl. rewrite Hmr, Hmc, !(bidx_lt Hi), !(bidx_lt Hj).
  rewrite Hme by assumption. reflexivity.
Qed.

Lemma focal_loss_is_formula_witness :
  focal_loss (mkTensor 1 2 (fun _ j => if (j =? 0)%nat then 1 else 0))
             (mkTensor 1 2 (fun _ _ => 0))
             (mkTensor 1 2 (fun _ _ => 1)) 2
  = Ok (focal_loss_formula
          (mkTensor 1 2 (fun _ j => if (j =? 0)%nat then 1 else 0))
          (mkTensor 1 2 (fun _ _ => 0))
          (mkTensor 1 2 (fun _ _ => 1)) 2).
Proof.
  apply focal_loss_is_formula.
  - lra.
  - reflexivity.
  - reflexivity.
  - reflexivity.
Defined.

(** C3. With [gamma = 0] the modulating factor is the constant 1 and
    [focal_loss] is the [alpha]-weighted binary cross-entropy with logits,
    summed and divided by the sum of the labels. *)
Theorem focal_loss_gamma_zero (labels logits alpha : tensor) :
  same_shape logits labels = true ->
  expands_to (rows alpha) (rows logits) = true ->
  expands_to (cols alpha) (cols logits) = true ->
  focal_modulator labels logits 0 = Ok (PyFloat 1) /\
  focal_loss labels logits alpha 0
  = Ok (weighted_bce_formula labels logits alpha).
Proof.
  intros Hs Har Hac.
  assert (Hm : focal_modulator labels logits 0 = Ok (PyFloat 1)).
  { unfold focal_modulator. destruct (Req_dec_T 0 0); [reflexivity|congruence]. }
  split; [exact Hm|].
  unfold focal_loss, binary_cross_entropy_with_logits_none.
  rewrite Hs, Hm. simpl.
  unfold tmul, tzip. simpl.
  rewrite (bdim_expands _ _ Har), (bdim_expands _ _ Hac). simpl.
  unfold weighted_bce_formula. f_equal. f_equal.
  unfold tsum. simpl.
  apply big_sum_ext. intros i Hi. apply big_sum_ext. intros j Hj.
  unfold bentry. simpl. rewrite ?(bidx_lt Hi), ?(bidx_lt Hj). ring.
Qed.

Lemma focal_loss_gamma_zero_witness :
  focal_loss (mkTensor 1 2 (fun _ j => if (j =? 0)%nat then 1 else 0))
             (mkTensor 1 2 (fun _ _ => 0))
             (mkTensor 1 2 (fun _ _ => 1)) 0
  = Ok (weighted_bce_formula
          (mkTensor 1 2 (fun _ j => if (j =? 0)%nat then 1 else 0))
          (mkTensor 1 2 (fun _ _ => 0))
          (mkTensor 1 2 (fun _ _ => 1))).
Proof.
  apply focal_loss_gamma_zero; reflexivity.
Defined.

(** ** The modulating factor and the docstring *)

Lemma one_minus_sigmoid (x : R) : 1 - sigmoid x = exp (- x) / (1 + exp (- x)).
Proof.
  unfold sigmoid. pose proof (exp_pos (- x)). field. lra.
Qed.

Lemma ln_sigmoid (x : R) : ln (sigmoid x) = - ln (1 + exp (- x)).
Proof.
  unfold sigmoid. pose proof (exp_pos (- x)).
  unfold Rdiv. rewrite Rmult_1_l. apply ln_Rinv. lra.
Qed.

Lemma ln_one_minus_sigmoid (x : R) :
  ln (1 - sigmoid x) = - x - ln (1 + exp (- x)).
Proof.
  rewrite one_minus_sigmoid. pose proof (exp_pos (- x)).
  assert (0 < / (1 + exp (- x))) by (apply Rinv_0_lt_compat; lra).
  unfold Rdiv. rewrite ln_mult by lra.
  rewrite ln_Rinv by lra. rewrite ln_exp. reflexivity.
Qed.

(** For a label that is 0 or 1 the formula of the code is the power of the
    docstring. *)
Lemma modulator_formula_docstring (gamma y x : R) :
  y = 0 \/ y = 1 ->
  modulator_formula gamma y x = docstring_modulator gamma y x.
Proof.
  intros Hy. unfold modulator_formula, docstring_modulator, pt, Rpower.
  destruct (Req_dec_T y 1) as [->|Hne].
  - rewrite ln_one_minus_sigmoid. f_equal. ring.
  - destruct Hy as [->|Hy]; [|contradiction].
    replace (1 - (1 - sigmoid x)) with (sigmoid x) by ring.
    rewrite ln_sigmoid. f_equal. ring.
Qed.

(** X27. Over the reals: for labels that are 0 or 1 and [gamma >= 0], the
    modulating factor that [focal_loss] computes is, at every position,
    [(1 - pt)^gamma] with [pt = sigmoid(x)] for the label 1 and
    [pt = 1 - sigmoid(x)] for the label 0, as the docstring states it. *)
Theorem focal_modulator_docstring (labels logits : tensor) (gamma : R) :
  0 <= gamma ->
  same_shape logits labels = true ->
  binary labels ->
  (forall y x, y = 0 \/ y = 1 ->
     modulator_formula gamma y x = docstring_modulator gamma y x) /\
  exists modulator,
    focal_modulator labels logits gamma = Ok modulator /\
    forall i j, (i < rows logits)%nat -> (j < cols logits)%nat ->
      pyval_entry modulator i j
      = docstring_modulator gamma (entry labels i j) (entry logits i j).
Proof.
  intros Hg Hs Hb. split; [intros; apply modulator_formula_docstring; assumption|].
  destruct (Req_dec_T gamma 0) as [Hz|Hnz].
  - exists (PyFloat 1). split.
    + unfold focal_modulator. destruct (Req_dec_T gamma 0); [reflexivity|contradiction].
    + intros i j _ _. simpl. subst gamma.
      unfold docstring_modulator, Rpower. rewrite Rmult_0_l, exp_0. reflexivity.
  - destruct (@focal_modulator_tensor labels logits gamma Hnz Hs)
      as [m [Hm [_ [_ Hme]]]].
    exists (PyTensor m). split; [exact Hm|].
    intros i j Hi Hj. simpl. rewrite Hme by assumption.
    apply modulator_formula_docstring.
    apply same_shape_eq in Hs. destruct Hs as [Hr Hc].
    apply Hb; lia.
Qed.

Lemma focal_modulator_docstring_witness :
  exists modulator,
    focal_modulator (mkTensor 1 2 (fun _ j => if (j =? 0)%nat then 1 else 0))
                    (mkTensor 1 2 (fun _ _ => 0)) 2 = Ok modulator /\
    forall i j, (i < 1)%nat -> (j < 2)%nat ->
      pyval_entry modulator i j
      = docstring_modulator 2 (if (j =? 0)%nat then 1 else 0) 0.
Proof.
  apply (@focal_modulator_docstring
           (mkTensor 1 2 (fun _ j => if (j =? 0)%nat then 1 else 0))
           (mkTensor 1 2 (fun _ _ => 0)) 2).
  - lra.
  - reflexivity.
  - intros i j _ _. simpl. destruct (j =? 0)%nat; [right|left]; reflexivity.
Defined.

(** ** The modulating factor in single precision *)

Lemma f32_threshold_val : f32_threshold = IZR (2 ^ 128 - 2 ^ 103).
Proof.
  unfold f32_threshold. rewrite !pow_IZR, <- minus_IZR. reflexivity.
Qed.

Lemma f32_round_fin (r : R) :
  - f32_threshold < r < f32_threshold -> f32_round r = Fin r.
Proof.
  intros [Hlo Hhi]. unfold f32_round.
  destruct (Rle_dec f32_threshold r); [lra|].
  destruct (Rle_dec r (- f32_threshold)); [lra|reflexivity].
Qed.

Lemma f32_round_pinf (r : R) : f32_threshold <= r -> f32_round r = PInf.
Proof.
  intros Hr. unfold f32_round.
  destruct (Rle_dec f32_threshold r); [reflexivity|contradiction].
Qed.

Lemma exp_ge_pow2 (n : nat) : 2 ^ n <= exp (INR n).
Proof.
  induction n as [|n IH].
  - simpl. rewrite exp_0. lra.
  - rewrite S_INR, exp_plus. simpl pow.
    pose proof (exp_ineq1_le 1) as H1.
    pose proof (exp_pos (INR n)) as Hp.
    assert (H0 : 0 <= 2 ^ n) by (apply pow_le; lra).
    nra.
Qed.

(** [exp(150)] is beyond the single-precision range. *)
Lemma exp_150_overflows : f32_threshold <= exp 150.
Proof.
  apply Rle_trans with (2 ^ 150).
  - rewrite f32_threshold_val, pow_IZR. apply IZR_le. vm_compute. discriminate.
  - replace 150 with (INR 150) by (rewrite INR_IZR_INZ; reflexivity).
    apply exp_ge_pow2.
Qed.

(** C9. The claim holds of the docstring and fails of the code in single
    precision, the type of the logits.  For the label 1, the logit [-150]
    and [gamma = 2], [torch.exp(-1.0 * logits)] overflows to infinity, the
    logarithm and the difference of lines 26-27 are infinite, and the
    modulating factor that the code computes is 0, while [(1 - pt)^gamma]
    of the docstring is more than 1/4 (it is almost 1). *)
Theorem focal_modulator_overflow :
  modulator_f32 2 (Fin 1) (Fin (-150)) = Fin 0 /\
  1 / 4 < docstring_modulator 2 1 (-150).
Proof.
  assert (Hthr : 1000 < f32_threshold).
  { rewrite f32_threshold_val. apply IZR_lt. reflexivity. }
  split.
  - unfold modulator_f32.
    assert (H1 : f32_mul (Fin (-1)) (Fin (-150)) = Fin 150).
    { unfold f32_mul. rewrite f32_round_fin by lra. f_equal. lra. }
    assert (H2 : f32_mul (f32_mul (Fin (Ropp 2)) (Fin 1)) (Fin (-150)) = Fin 300).
    { unfold f32_mul. rewrite f32_round_fin by lra.
      rewrite f32_round_fin by lra. f_equal. lra. }
    rewrite H1, H2. unfold f32_exp at 2.
    rewrite (f32_round_pinf exp_150_overflows).
    cbn [f32_add f32_log f32_mul]. unfold f32_signed_inf.
    destruct (Rlt_dec 0 2) as [_|N]; [|exfalso; lra].
    reflexivity.
  - unfold docstring_modulator, pt.
    destruct (Req_dec_T 1 1) as [_|N]; [|congruence].
    unfold sigmoid.
    assert (He : 1 < exp (- -150)).
    { replace (- -150) with 150 by lra.
      pose proof (exp_ineq1_le 150). lra. }
    set (e := exp (- -150)) in *.
    assert (Hs : 1 / 2 < 1 - 1 / (1 + e)).
    { assert (Hinv : 1 / (1 + e) < 1 / 2).
      { unfold Rdiv. rewrite !Rmult_1_l. apply Rinv_lt_contravar; lra. }
      lra. }
    set (a := 1 - 1 / (1 + e)) in *.
    replace 2 with (INR 2) by (simpl; lra).
    rewrite Rpower_pow by lra. simpl. nra.
Qed.

(** ** Sign of the loss over the reals *)

Lemma sigmoid_range (x : R) : 0 < sigmoid x < 1.
Proof.
  pose proof (exp_pos (- x)) as He. split.
  - unfold sigmoid. apply Rdiv_lt_0_compat; lra.
  - assert (0 < 1 - sigmoid x); [|lra].
    rewrite one_minus_sigmoid. apply Rdiv_lt_0_compat; lra.
Qed.

Lemma ln_nonpos (a : R) : 0 < a <= 1 -> ln a <= 0.
Proof.
  intros [H0 [H1| ->]]; [|rewrite ln_1; lra].
  pose proof (ln_increasing a 1 H0 H1) as H. rewrite ln_1 in H. lra.
Qed.

Lemma bce_logit_nonneg (x y : R) : y = 0 \/ y = 1 -> 0 <= bce_logit x y.
Proof.
  pose proof (sigmoid_range x) as Hs.
  assert (ln (sigmoid x) <= 0) by (apply ln_nonpos; lra).
  assert (ln (1 - sigmoid x) <= 0) by (apply ln_nonpos; lra).
  unfold bce_logit. intros [-> | ->]; lra.
Qed.

Lemma clamped_log_nonpos (p : R) : p <= 1 -> clamped_log p <= 0.
Proof.
  intros Hp. unfold clamped_log. destruct (Rle_dec p 0); [lra|].
  apply Rmax_lub; [apply ln_nonpos|]; lra.
Qed.

Lemma bce_prob_nonneg (p y : R) :
  0 <= p <= 1 -> y = 0 \/ y = 1 -> 0 <= bce_prob p y.
Proof.
  intros Hp Hy.
  assert (clamped_log p <= 0) by (apply clamped_log_nonpos; lra).
  assert (clamped_log (1 - p) <= 0) by (apply clamped_log_nonpos; lra).
  unfold bce_prob. destruct Hy as [-> | ->]; lra.
Qed.

Lemma big_sum_term_le (f : nat -> R) (n j : nat) :
  (forall i, (i < n)%nat -> 0 <= f i) -> (j < n)%nat -> f j <= big_sum f n.
Proof.
  induction n as [|n IH]; intros Hf Hj; [lia|]. simpl.
  assert (0 <= f n) by (apply Hf; lia).
  assert (0 <= big_sum f n) by (apply big_sum_nonneg; intros; apply Hf; lia).
  destruct (Nat.eq_dec j n) as [->|Hne]; [lra|].
  assert (f j <= big_sum f n) by (apply IH; [intros; apply Hf|]; lia). lra.
Qed.

Lemma softmax_range (a : tensor) (i j : nat) :
  (j < cols a)%nat -> 0 <= entry (softmax1 a) i j <= 1.
Proof.
  intros Hj. simpl.
  set (f := fun k => exp (entry a i k)).
  assert (Hpos : forall k, (k < cols a)%nat -> 0 <= f k)
    by (intros; unfold f; left; apply exp_pos).
  pose proof (big_sum_term_le f Hpos Hj) as Hle.
  assert (0 < f j) by (unfold f; apply exp_pos).
  change (exp (entry a i j)) with (f j).
  assert (Hs : 0 < big_sum f (cols a)) by lra.
  split.
  - left. apply Rdiv_lt_0_compat; assumption.
  - apply (Rmult_le_reg_r (big_sum f (cols a))); [exact Hs|].
    unfold Rdiv. rewrite Rmult_assoc, Rinv_l by lra. lra.
Qed.

Lemma all_below_true (n : nat) (test : nat -> bool) :
  (forall i, (i < n)%nat -> test i = true) -> all_below n test = true.
Proof.
  induction n as [|n IH]; intros H; simpl; [reflexivity|].
  rewrite IH by (intros; apply H; lia). rewrite H by lia. reflexivity.
Qed.

Lemma all_probs_softmax (a : tensor) : all_probs (softmax1 a) = true.
Proof.
  unfold all_probs. apply all_below_true. intros i _.
  apply all_below_true. intros j Hj.
  destruct (softmax_range a i Hj) as [H0 H1]. unfold is_prob.
  destruct (Rle_dec 0 _); [|contradiction].
  destruct (Rle_dec _ 1); [reflexivity|contradiction].
Qed.

Lemma tsum_nonneg (a : tensor) :
  (forall i j, (i < rows a)%nat -> (j < cols a)%nat -> 0 <= entry a i j) ->
  0 <= tsum a.
Proof.
  intros H. unfold tsum. apply big_sum_nonneg. intros i Hi.
  apply big_sum_nonneg. intros j Hj. apply H; assumption.
Qed.

Lemma tmean_nonneg (a : tensor) :
  (forall i j, (i < rows a)%nat -> (j < cols a)%nat -> 0 <= entry a i j) ->
  0 <= tmean a.
Proof.
  intros H. unfold tmean.
  destruct (Nat.eq_dec (rows a * cols a) 0) as [Hz|Hnz].
  - rewrite Hz. simpl. unfold Rdiv. rewrite Rinv_0. lra.
  - apply Rle_mult_inv_pos; [apply tsum_nonneg; exact H|].
    apply lt_0_INR. lia.
Qed.

(** The weight of one class, written out. *)
Lemma class_weights_nth (samples_per_cls : list Z) (no_of_classes : nat)
      (beta : R) (k : nat) :
  (k < length samples_per_cls)%nat ->
  nth k (class_weights samples_per_cls no_of_classes beta) 0
  = effective_number_weight beta (nth k samples_per_cls 0%Z)
    * (INR no_of_classes
       / np_sum (map (effective_number_weight beta) samples_per_cls)).
Proof.
  intros Hk. rewrite class_weights_eq.
  set (c := INR no_of_classes / _).
  rewrite (nth_indep _ 0 (effective_number_weight beta 0%Z * c))
    by (rewrite length_map; exact Hk).
  apply (map_nth (fun n => effective_number_weight beta n * c)).
Qed.

Lemma effective_weights_pos (samples_per_cls : list Z) (beta : R) :
  Forall (fun n => (0 < n)%Z) samples_per_cls -> 0 <= beta < 1 ->
  Forall (fun n => 0 < effective_number_weight beta n) samples_per_cls.
Proof.
  intros Hpos Hb. eapply Forall_impl; [|exact Hpos].
  intros n Hn. apply effective_number_weight_pos; assumption.
Qed.

Lemma class_weight_pos (samples_per_cls : list Z) (no_of_classes : nat)
      (beta : R) (k : nat) :
  Forall (fun n => (0 < n)%Z) samples_per_cls ->
  0 <= beta < 1 ->
  length samples_per_cls = no_of_classes ->
  (k < no_of_classes)%nat ->
  0 < nth k (class_weights samples_per_cls no_of_classes beta) 0.
Proof.
  intros Hpos Hb Hlen Hk.
  rewrite class_weights_nth by lia.
  pose proof (effective_weights_pos Hpos Hb) as Hall.
  apply Rmult_lt_0_compat.
  - rewrite Forall_forall in Hall. apply Hall. apply nth_In. lia.
  - apply Rdiv_lt_0_compat; [apply lt_0_INR; lia|].
    apply np_sum_pos; [|exact Hall].
    intros ->. simpl in Hlen. lia.
Qed.

(** Lines 60-67 on the one-hot tensor of labels in range, for any array of
    [no_of_classes] weights. *)
Lemma expand_weights_entries (labels : list Z) (cw : list R) (C : nat) :
  Forall (in_range C) labels ->
  length cw = C ->
  exists w,
    expand_weights cw
      (mkTensor (length labels) C
         (fun i j => if (nth i labels 0%Z =? Z.of_nat j)%Z then 1 else 0)) C
    = Ok w /\
    rows w = length labels /\ cols w = C /\
    forall i j, (i < length labels)%nat -> (j < C)%nat ->
      entry w i j = nth (Z.to_nat (nth i labels 0%Z)) cw 0.
Proof.
  intros Hall Hcw.
  unfold expand_weights, tmul, tzip. simpl.
  rewrite Hcw, Nat.add_0_r, Nat.mul_1_r, !bdim_refl. simpl.
  eexists. split; [reflexivity|]. unfold repeat, unsqueeze1, sum_dim1. simpl.
  split; [lia|]. split; [lia|].
  intros i j Hi Hj.
  rewrite (Nat.mod_small i) by lia.
  pose proof (nth_in_range Hall Hi) as Hr. unfold in_range in Hr.
  rewrite (big_sum_single _ (k := Z.to_nat (nth i labels 0%Z))).
  - rewrite !bidx_lt by lia.
    rewrite Nat.mod_small by lia.
    rewrite Z2Nat.id by lia. rewrite Z.eqb_refl. ring.
  - lia.
  - intros c Hc Hne'. rewrite !bidx_lt by lia.
    destruct (Z.eqb_spec (nth i labels 0%Z) (Z.of_nat c)); [|ring].
    exfalso. apply Hne'. lia.
Qed.

(** [focal_loss] as one sum, for every [gamma]. *)
Lemma focal_loss_sum (labels logits alpha : tensor) (gamma : R) :
  same_shape logits labels = true ->
  expands_to (rows alpha) (rows logits) = true ->
  expands_to (cols alpha) (cols logits) = true ->
  focal_loss labels logits alpha gamma
  = Ok (big_sum (fun i =>
          big_sum (fun j =>
            bentry alpha i j
            * (focal_factor gamma (entry labels i j) (entry logits i j)
               * bce_logit (entry logits i j) (entry labels i j)))
            (cols logits)) (rows logits)
        / tsum labels).
Proof.
  intros Hs Har Hac. unfold focal_factor.
  destruct (Req_dec_T gamma 0) as [Hz|Hnz].
  - unfold focal_loss, binary_cross_entropy_with_logits_none, focal_modulator.
    rewrite Hs. destruct (Req_dec_T gamma 0); [|contradiction]. simpl.
    unfold tmul, tzip. simpl.
    rewrite (bdim_expands _ _ Har), (bdim_expands _ _ Hac). simpl.
    f_equal. f_equal. unfold tsum. simpl.
    apply big_sum_ext. intros i Hi. apply big_sum_ext. intros j Hj.
    unfold bentry. simpl. rewrite ?(bidx_lt Hi), ?(bidx_lt Hj). reflexivity.
  - destruct (@focal_modulator_tensor labels logits gamma Hnz Hs)
      as [m [Hm [Hmr [Hmc Hme]]]].
    unfold focal_loss, binary_cross_entropy_with_logits_none.
    rewrite Hs, Hm. simpl.
    unfold tmul, tzip. simpl. rewrite Hmr, Hmc, !bdim_refl. simpl.
    rewrite (bdim_expands _ _ Har), (bdim_expands _ _ Hac). simpl.
    f_equal. f_equal. unfold tsum. simpl.
    apply big_sum_ext. intros i Hi. apply big_sum_ext. intros j Hj.
    unfold bentry at 2 3. simpl. rewrite Hmr, Hmc, !(bidx_lt Hi), !(bidx_lt Hj).
    rewrite Hme by assumption. reflexivity.
Qed.

Lemma focal_factor_pos (gamma y x : R) : 0 < focal_factor gamma y x.
Proof.
  unfold focal_factor, modulator_formula.
  destruct (Req_dec_T gamma 0); [lra|apply exp_pos].
Qed.

(** What [CB_loss] computes before the dispatch, on valid labels: the
    one-hot labels and the expanded weights do not depend on the logits,
    the loss type or [gamma]. *)
Lemma CB_loss_dispatch (labels : list Z) (samples_per_cls : list Z)
      (no_of_classes : nat) (beta : R) :
  labels <> [] ->
  Forall (in_range no_of_classes) labels ->
  length samples_per_cls = no_of_classes ->
  exists t w,
    t = mkTensor (length labels) no_of_classes
          (fun i j => if (nth i labels 0%Z =? Z.of_nat j)%Z then 1 else 0) /\
    (forall logits loss_type gamma,
        CB_loss labels logits samples_per_cls no_of_classes loss_type beta gamma
        = dispatch_loss t logits w loss_type gamma) /\
    rows w = length labels /\ cols w = no_of_classes /\
    forall i j, (i < length labels)%nat -> (j < no_of_classes)%nat ->
      entry w i j
      = nth (Z.to_nat (nth i labels 0%Z))
            (class_weights samples_per_cls no_of_classes beta) 0.
Proof.
  intros Hne Hall Hlen.
  destruct (@expand_weights_entries labels
              (class_weights samples_per_cls no_of_classes beta) no_of_classes
              Hall) as [w [Hw [Hwr [Hwc Hwe]]]].
  { rewrite class_weights_eq, length_map. exact Hlen. }
  eexists. exists w. split; [reflexivity|].
  split; [|split; [exact Hwr|split; [exact Hwc|exact Hwe]]].
  intros logits loss_type gamma.
  unfold CB_loss. rewrite one_hot_ok by assumption. simpl.
  rewrite Hw. reflexivity.
Qed.

(** X1. Over the reals, on a non-empty batch of labels in range, logits of
    the shape [batch, no_of_classes], positive sample counts, [beta] in
    [0, 1) and one of the three loss types, [CB_loss] returns a number that
    is not negative. *)
Theorem CB_loss_nonneg (labels : list Z) (logits : tensor)
        (samples_per_cls : list Z) (no_of_classes : nat) (loss_type : string)
        (beta gamma : R) :
  labels <> [] ->
  Forall (in_range no_of_classes) labels ->
  rows logits = length labels ->
  cols logits = no_of_classes ->
  length samples_per_cls = no_of_classes ->
  Forall (fun n => (0 < n)%Z) samples_per_cls ->
  0 <= beta < 1 ->
  loss_type = "focal"%string \/ loss_type = "sigmoid"%string
  \/ loss_type = "softmax"%string ->
  exists cb_loss,
    CB_loss labels logits samples_per_cls no_of_classes loss_type beta gamma
    = Ok cb_loss /\ 0 <= cb_loss.
Proof.
  intros Hne Hall Hr Hc Hlen Hpos Hb Hty.
  destruct (@CB_loss_dispatch labels samples_per_cls no_of_classes beta
              Hne Hall Hlen)
    as [t [w [Ht [Hrun [Hwr [Hwc Hwe]]]]]].
  assert (Htr : rows t = length labels) by (rewrite Ht; reflexivity).
  assert (Htc : cols t = no_of_classes) by (rewrite Ht; reflexivity).
  assert (Hbin : forall i j, entry t i j = 0 \/ entry t i j = 1).
  { intros i j. rewrite Ht. simpl.
    destruct (nth i labels 0%Z =? Z.of_nat j)%Z; [right|left]; reflexivity. }
  assert (Hwpos : forall i j, (i < rows logits)%nat -> (j < cols logits)%nat ->
                              0 <= bentry w i j).
  { intros i j Hi Hj. unfold bentry.
    rewrite !bidx_lt by lia. rewrite Hwe by lia. left.
    apply class_weight_pos; try assumption.
    pose proof (@nth_in_range labels no_of_classes i Hall ltac:(lia)) as Hin.
    unfold in_range in Hin. lia. }
  assert (Hs : same_shape logits t = true).
  { unfold same_shape. rewrite Hr, Hc, Htr, Htc, !Nat.eqb_refl. reflexivity. }
  assert (Har : expands_to (rows w) (rows logits) = true).
  { unfold expands_to. rewrite Hwr, Hr, Nat.eqb_refl. reflexivity. }
  assert (Hac : expands_to (cols w) (cols logits) = true).
  { unfold expands_to. rewrite Hwc, Hc, Nat.eqb_refl. reflexivity. }
  assert (Hden : 0 < tsum t).
  { rewrite Ht, tsum_one_hot by assumption.
    apply lt_0_INR. destruct labels; [congruence|simpl; lia]. }
  rewrite Hrun. unfold dispatch_loss.
  destruct Hty as [-> | [-> | ->]]; simpl.
  - rewrite (focal_loss_sum t logits w gamma Hs Har Hac). simpl.
    eexists. split; [reflexivity|].
    apply Rle_mult_inv_pos; [|exact Hden].
    apply big_sum_nonneg. intros i Hi. apply big_sum_nonneg. intros j Hj.
    apply Rmult_le_pos; [apply Hwpos; assumption|].
    apply Rmult_le_pos; [left; apply focal_factor_pos|].
    apply bce_logit_nonneg. apply Hbin.
  - unfold binary_cross_entropy_with_logits,
      binary_cross_entropy_with_logits_none, tmul_.
    rewrite Hs. simpl. rewrite Har, Hac. simpl.
    eexists. split; [reflexivity|].
    apply tmean_nonneg. simpl. intros i j Hi Hj.
    apply Rmult_le_pos; [|apply Hwpos; assumption].
    apply bce_logit_nonneg. apply Hbin.
  - unfold binary_cross_entropy, tmul_.
    replace (same_shape (softmax1 logits) t) with true by (symmetry; exact Hs).
    rewrite all_probs_softmax. simpl. rewrite Har, Hac. simpl.
    eexists. split; [reflexivity|].
    apply tmean_nonneg. simpl. intros i j Hi Hj.
    apply Rmult_le_pos; [|apply Hwpos; assumption].
    apply bce_prob_nonneg; [|apply Hbin].
    apply (softmax_range logits i Hj).
Qed.

Lemma CB_loss_nonneg_witness :
  exists cb_loss,
    CB_loss [1; 0]%Z (mkTensor 2 2 (fun _ _ => 0)) [3; 5]%Z 2 "softmax"
            (1 / 2) 2
    = Ok cb_loss /\ 0 <= cb_loss.
Proof.
  apply (@CB_loss_nonneg [1; 0]%Z (mkTensor 2 2 (fun _ _ => 0)) [3; 5]%Z 2%nat
           "softmax"%string (1 / 2) 2).
  - discriminate.
  - repeat constructor; unfold in_range; simpl; lia.
  - reflexivity.
  - reflexivity.
  - reflexivity.
  - repeat constructor.
  - lra.
  - right. right. reflexivity.
Defined.

(** ** Further properties of cb.py *)

(** X3. A label outside [0, no_of_classes) makes [CB_loss] raise the
    [RuntimeError] of [F.one_hot], whatever the other arguments are. *)
Theorem CB_loss_label_out_of_range (labels : list Z) (logits : tensor)
        (samples_per_cls : list Z) (no_of_classes : nat) (loss_type : string)
        (beta gamma : R) (l : Z) :
  In l labels -> ~ in_range no_of_classes l ->
  CB_loss labels logits samples_per_cls no_of_classes loss_type beta gamma
  = Raise RuntimeError.
Proof.
  intros Hin Hout. unfold CB_loss, one_hot.
  destruct labels as [|a rest]; [contradiction|].
  change ((length (a :: rest) =? 0)%nat) with false. simpl andb.
  destruct (forallb (class_ok no_of_classes) (a :: rest)) eqn:Hall;
    [|reflexivity].
  exfalso. apply Hout. rewrite forallb_forall in Hall.
  specialize (Hall l Hin). unfold class_ok in Hall.
  apply andb_true_iff in Hall. destruct Hall as [H1 H2].
  apply Z.leb_le in H1. apply Z.ltb_lt in H2. unfold in_range. lia.
Qed.

Lemma CB_loss_label_out_of_range_witness :
  CB_loss [0; 2]%Z (mkTensor 2 2 (fun _ _ => 0)) [3; 5]%Z 2 "focal" (1 / 2) 2
  = Raise RuntimeError.
Proof.
  apply (@CB_loss_label_out_of_range [0; 2]%Z (mkTensor 2 2 (fun _ _ => 0))
           [3; 5]%Z 2%nat "focal"%string (1 / 2) 2 2%Z).
  - right. left. reflexivity.
  - unfold in_range. simpl. lia.
Defined.

(** X4. Logits that do not have the shape [batch, no_of_classes] make
    [CB_loss] raise the [ValueError] of the cross-entropy, for each of the
    three loss types. *)
Theorem CB_loss_logits_shape_mismatch (labels : list Z) (logits : tensor)
        (samples_per_cls : list Z) (no_of_classes : nat) (loss_type : string)
        (beta gamma : R) :
  labels <> [] ->
  Forall (in_range no_of_classes) labels ->
  length samples_per_cls = no_of_classes ->
  rows logits <> length labels \/ cols logits <> no_of_classes ->
  loss_type = "focal"%string \/ loss_type = "sigmoid"%string
  \/ loss_type = "softmax"%string ->
  CB_loss labels logits samples_per_cls no_of_classes loss_type beta gamma
  = Raise ValueError.
Proof.
  intros Hne Hall Hlen Hshape Hty.
  destruct (@CB_loss_dispatch labels samples_per_cls no_of_classes beta
              Hne Hall Hlen) as [t [w [Ht [Hrun _]]]].
  assert (Hs : same_shape logits t = false).
  { rewrite Ht. unfold same_shape. simpl. apply andb_false_iff.
    destruct Hshape as [H|H]; [left|right]; apply Nat.eqb_neq; exact H. }
  rewrite Hrun. unfold dispatch_loss.
  destruct Hty as [-> | [-> | ->]]; simpl.
  - unfold focal_loss, binary_cross_entropy_with_logits_none.
    rewrite Hs. reflexivity.
  - unfold binary_cross_entropy_with_logits,
      binary_cross_entropy_with_logits_none.
    rewrite Hs. reflexivity.
  - unfold binary_cross_entropy.
    replace (same_shape (softmax1 logits) t) with false by (symmetry; exact Hs).
    reflexivity.
Qed.

Lemma CB_loss_logits_shape_mismatch_witness :
  CB_loss [0; 1]%Z (mkTensor 2 3 (fun _ _ => 0)) [3; 5]%Z 2 "sigmoid" (1 / 2) 2
  = Raise ValueError.
Proof.
  apply CB_loss_logits_shape_mismatch.
  - discriminate.
  - repeat constructor; unfold in_range; simpl; lia.
  - reflexivity.
  - right. simpl. lia.
  - right. left. reflexivity.
Defined.

(** X5. With [gamma = 0] the loss type ["focal"] gives [no_of_classes]
    times the loss of the type ["sigmoid"]: the first divides the weighted
    sum by the batch size, the second by the number of entries. *)
Theorem focal_zero_is_scaled_sigmoid (labels : list Z) (logits : tensor)
        (samples_per_cls : list Z) (no_of_classes : nat) (beta gamma : R) :
  labels <> [] ->
  Forall (in_range no_of_classes) labels ->
  rows logits = length labels ->
  cols logits = no_of_classes ->
  length samples_per_cls = no_of_classes ->
  exists focal sigmoid_loss,
    CB_loss labels logits samples_per_cls no_of_classes "focal" beta 0
    = Ok focal /\
    CB_loss labels logits samples_per_cls no_of_classes "sigmoid" beta gamma
    = Ok sigmoid_loss /\
    focal = INR no_of_classes * sigmoid_loss.
Proof.
  intros Hne Hall Hr Hc Hlen.
  destruct (@CB_loss_dispatch labels samples_per_cls no_of_classes beta
              Hne Hall Hlen) as [t [w [Ht [Hrun [Hwr [Hwc _]]]]]].
  assert (Htr : rows t = length labels) by (rewrite Ht; reflexivity).
  assert (Htc : cols t = no_of_classes) by (rewrite Ht; reflexivity).
  assert (Hs : same_shape logits t = true).
  { unfold same_shape. rewrite Hr, Hc, Htr, Htc, !Nat.eqb_refl. reflexivity. }
  assert (Har : expands_to (rows w) (rows logits) = true).
  { unfold expands_to. rewrite Hwr, Hr, Nat.eqb_refl. reflexivity. }
  assert (Hac : expands_to (cols w) (cols logits) = true).
  { unfold expands_to. rewrite Hwc, Hc, Nat.eqb_refl. reflexivity. }
  assert (Hden : tsum t = INR (length labels))
    by (rewrite Ht; apply tsum_one_hot; assumption).
  assert (HB : 0 < INR (length labels)).
  { apply lt_0_INR. destruct labels; [congruence|simpl; lia]. }
  assert (HC : 0 < INR no_of_classes).
  { apply lt_0_INR. destruct labels as [|a rest]; [congruence|].
    inversion Hall as [|? ? Ha _]. unfold in_range in Ha. lia. }
  rewrite !Hrun. unfold dispatch_loss. simpl.
  rewrite (focal_loss_sum t logits w 0 Hs Har Hac). simpl.
  unfold binary_cross_entropy_with_logits,
    binary_cross_entropy_with_logits_none, tmul_.
  rewrite Hs. simpl. rewrite Har, Hac. simpl.
  eexists. eexists. split; [reflexivity|]. split; [reflexivity|].
  rewrite Hden. unfold tmean, tsum. simpl. rewrite Hr, Hc, mult_INR.
  set (a := big_sum _ (length labels)). set (b := big_sum _ (length labels)).
  assert (Hab : a = b).
  { unfold a, b. apply big_sum_ext. intros i Hi. apply big_sum_ext. intros j Hj.
    unfold focal_factor. destruct (Req_dec_T 0 0); [ring|congruence]. }
  rewrite Hab. field. lra.
Qed.

Lemma focal_zero_is_scaled_sigmoid_witness :
  exists focal sigmoid_loss,
    CB_loss [1; 0]%Z (mkTensor 2 2 (fun _ _ => 0)) [3; 5]%Z 2 "focal" (1 / 2) 0
    = Ok focal /\
    CB_loss [1; 0]%Z (mkTensor 2 2 (fun _ _ => 0)) [3; 5]%Z 2 "sigmoid" (1 / 2) 2
    = Ok sigmoid_loss /\
    focal = INR 2 * sigmoid_loss.
Proof.
  apply (@focal_zero_is_scaled_sigmoid [1; 0]%Z (mkTensor 2 2 (fun _ _ => 0))
           [3; 5]%Z 2%nat (1 / 2) 2).
  - discriminate.
  - repeat constructor; unfold in_range; simpl; lia.
  - reflexivity.
  - reflexivity.
  - reflexivity.
Defined.

(** ** The class weights in special cases *)

Lemma np_sum_constant (f : Z -> R) (e : R) (l : list Z) :
  Forall (fun n => f n = e) l -> np_sum (map f l) = INR (length l) * e.
Proof.
  intros Hall. induction Hall as [|a l Ha Hl IH].
  - simpl. ring.
  - change (np_sum (map f (a :: l))) with (f a + np_sum (map f l)).
    change (length (a :: l)) with (S (length l)).
    rewrite IH, Ha, S_INR. ring.
Qed.

(** When every class has the same reciprocal effective number, the
    normalization makes every weight 1. *)
Lemma class_weights_uniform (samples_per_cls : list Z) (no_of_classes : nat)
      (beta e : R) (k : nat) :
  0 < e ->
  Forall (fun n => effective_number_weight beta n = e) samples_per_cls ->
  length samples_per_cls = no_of_classes ->
  (k < no_of_classes)%nat ->
  nth k (class_weights samples_per_cls no_of_classes beta) 0 = 1.
Proof.
  intros He Hall Hlen Hk.
  rewrite class_weights_nth by lia.
  rewrite (np_sum_constant _ Hall), Hlen.
  assert (Hnth : effective_number_weight beta (nth k samples_per_cls 0%Z) = e).
  { rewrite Forall_forall in Hall. apply Hall. apply nth_In. lia. }
  rewrite Hnth.
  assert (0 < INR no_of_classes) by (apply lt_0_INR; lia).
  field. split; lra.
Qed.

(** X6. With [beta = 0] and positive sample counts every class weight is 1:
    the loss is not re-weighted. *)
Theorem class_weights_beta_zero (samples_per_cls : list Z)
        (no_of_classes : nat) (k : nat) :
  Forall (fun n => (0 < n)%Z) samples_per_cls ->
  length samples_per_cls = no_of_classes ->
  (k < no_of_classes)%nat ->
  nth k (class_weights samples_per_cls no_of_classes 0) 0 = 1.
Proof.
  intros Hpos Hlen Hk.
  apply (@class_weights_uniform samples_per_cls no_of_classes 0 1 k);
    try assumption; [lra|].
  eapply Forall_impl; [|exact Hpos].
  intros n Hn. unfold effective_number_weight.
  destruct n as [|p|p]; try lia.
  simpl. rewrite pow_i by lia. field.
Qed.

Lemma class_weights_beta_zero_witness :
  nth 1 (class_weights [3; 5; 2]%Z 3 0) 0 = 1.
Proof.
  apply (@class_weights_beta_zero [3; 5; 2]%Z 3%nat 1%nat).
  - repeat constructor.
  - reflexivity.
  - lia.
Defined.

(** X7. When all classes have the same positive number of samples, every
    class weight is 1, for every [beta] in [0, 1). *)
Theorem class_weights_balanced (samples_per_cls : list Z)
        (no_of_classes : nat) (beta : R) (n0 : Z) (k : nat) :
  (0 < n0)%Z ->
  0 <= beta < 1 ->
  Forall (fun n => n = n0) samples_per_cls ->
  length samples_per_cls = no_of_classes ->
  (k < no_of_classes)%nat ->
  nth k (class_weights samples_per_cls no_of_classes beta) 0 = 1.
Proof.
  intros Hn0 Hb Hall Hlen Hk.
  apply (@class_weights_uniform samples_per_cls no_of_classes beta
           (effective_number_weight beta n0) k); try assumption.
  - apply effective_number_weight_pos; assumption.
  - eapply Forall_impl; [|exact Hall]. intros n ->. reflexivity.
Qed.

Lemma class_weights_balanced_witness :
  nth 0 (class_weights [4; 4]%Z 2 (1 / 2)) 0 = 1.
Proof.
  apply (@class_weights_balanced [4; 4]%Z 2%nat (1 / 2) 4%Z 0%nat).
  - lia.
  - lra.
  - repeat constructor.
  - reflexivity.
  - lia.
Defined.

Lemma pow_antitone (beta : R) (n m : nat) :
  0 <= beta <= 1 -> (n <= m)%nat -> beta ^ m <= beta ^ n.
Proof.
  intros Hb Hnm. replace m with (n + (m - n))%nat by lia.
  rewrite pow_add.
  assert (0 <= beta ^ n) by (apply pow_le; lra).
  assert (0 <= beta ^ (m - n)) by (apply pow_le; lra).
  assert (beta ^ (m - n) <= 1).
  { rewrite <- (pow1 (m - n)). apply pow_incr. lra. }
  nra.
Qed.

Lemma powerRZ_to_nat (beta : R) (n : Z) :
  (0 <= n)%Z -> powerRZ beta n = beta ^ Z.to_nat n.
Proof.
  intros Hn. destruct n as [|p|p]; try lia; reflexivity.
Qed.

Lemma effective_number_weight_antitone (beta : R) (n m : Z) :
  0 <= beta < 1 -> (0 < n <= m)%Z ->
  effective_number_weight beta m <= effective_number_weight beta n.
Proof.
  intros Hb Hnm. unfold effective_number_weight.
  assert (Hn : powerRZ beta n < 1) by (apply powerRZ_lt_1; [assumption|lia]).
  assert (Hm : powerRZ beta m < 1) by (apply powerRZ_lt_1; [assumption|lia]).
  assert (Hle : powerRZ beta m <= powerRZ beta n).
  { rewrite !powerRZ_to_nat by lia. apply pow_antitone; [lra|lia]. }
  unfold Rdiv. apply Rmult_le_compat_l; [lra|].
  apply Rinv_le_contravar; lra.
Qed.

(** X8. A class with fewer samples never gets a smaller weight than a class
    with more samples. *)
Theorem class_weights_antitone (samples_per_cls : list Z)
        (no_of_classes : nat) (beta : R) (a b : nat) :
  Forall (fun n => (0 < n)%Z) samples_per_cls ->
  0 <= beta < 1 ->
  length samples_per_cls = no_of_classes ->
  (a < no_of_classes)%nat -> (b < no_of_classes)%nat ->
  (nth a samples_per_cls 0 <= nth b samples_per_cls 0)%Z ->
  nth b (class_weights samples_per_cls no_of_classes beta) 0
  <= nth a (class_weights samples_per_cls no_of_classes beta) 0.
Proof.
  intros Hpos Hb Hlen Ha Hbk Hle.
  rewrite !class_weights_nth by lia.
  apply Rmult_le_compat_r.
  - left. apply Rdiv_lt_0_compat; [apply lt_0_INR; lia|].
    apply np_sum_pos.
    + intros ->. simpl in Hlen. lia.
    + apply effective_weights_pos; assumption.
  - apply effective_number_weight_antitone; [assumption|].
    split; [|exact Hle].
    rewrite Forall_forall in Hpos. apply Hpos. apply nth_In. lia.
Qed.

Lemma class_weights_antitone_witness :
  nth 0 (class_weights [7; 2]%Z 2 (1 / 2)) 0
  <= nth 1 (class_weights [7; 2]%Z 2 (1 / 2)) 0.
Proof.
  apply (@class_weights_antitone [7; 2]%Z 2%nat (1 / 2) 1%nat 0%nat).
  - repeat constructor.
  - lra.
  - reflexivity.
  - lia.
  - lia.
  - simpl. lia.
Defined.

(** ** The focal loss against the cross-entropy *)

Lemma big_sum_le (f g : nat -> R) (n : nat) :
  (forall i, (i < n)%nat -> f i <= g i) -> big_sum f n <= big_sum g n.
Proof.
  intros H. induction n as [|n IH]; simpl; [lra|].
  assert (big_sum f n <= big_sum g n) by (apply IH; intros; apply H; lia).
  assert (f n <= g n) by (apply H; lia). lra.
Qed.

Lemma exp_le_1 (z : R) : z <= 0 -> exp z <= 1.
Proof.
  intros [Hz| ->]; [|rewrite exp_0; lra].
  left. rewrite <- exp_0. apply exp_increasing. exact Hz.
Qed.

(** For a label 0 or 1 and [gamma >= 0] the modulating factor is at most 1. *)
Lemma focal_factor_le_1 (gamma y x : R) :
  0 <= gamma -> y = 0 \/ y = 1 -> focal_factor gamma y x <= 1.
Proof.
  intros Hg Hy. unfold focal_factor.
  destruct (Req_dec_T gamma 0); [lra|].
  unfold modulator_formula. apply exp_le_1.
  assert (Hl : 0 <= ln (1 + exp (- x))).
  { rewrite <- ln_1. pose proof (exp_pos (- x)).
    destruct (Req_dec (exp (- x)) 0) as [He|He]; [lra|].
    left. apply ln_increasing; lra. }
  assert (Hx : 0 <= x + ln (1 + exp (- x))).
  { replace x with (ln (exp x)) at 1 by apply ln_exp.
    rewrite <- ln_mult; [|apply exp_pos|pose proof (exp_pos (- x)); lra].
    rewrite Rmult_plus_distr_l, Rmult_1_r, <- exp_plus, Rplus_opp_r, exp_0.
    rewrite <- ln_1. pose proof (exp_pos x).
    left. apply ln_increasing; lra. }
  destruct Hy as [-> | ->]; nra.
Qed.

(** X9. Over the reals: for labels 0 or 1, weights that are not negative
    and [gamma >= 0], the focal loss is not negative and is at most the
    loss for [gamma = 0], the weighted cross-entropy: the modulating factor
    only scales terms down. *)
Theorem focal_loss_le_gamma_zero (labels logits alpha : tensor) (gamma : R) :
  same_shape logits labels = true ->
  expands_to (rows alpha) (rows logits) = true ->
  expands_to (cols alpha) (cols logits) = true ->
  binary labels ->
  (forall i j, (i < rows logits)%nat -> (j < cols logits)%nat ->
               0 <= bentry alpha i j) ->
  0 <= gamma ->
  0 < tsum labels ->
  exists focal bce,
    focal_loss labels logits alpha gamma = Ok focal /\
    focal_loss labels logits alpha 0 = Ok bce /\
    0 <= focal <= bce.
Proof.
  intros Hs Har Hac Hbin Halpha Hg Hden.
  rewrite !focal_loss_sum by assumption.
  eexists. eexists. split; [reflexivity|]. split; [reflexivity|].
  destruct (same_shape_eq _ _ Hs) as [Hrows Hcols].
  assert (Hy : forall i j, (i < rows logits)%nat -> (j < cols logits)%nat ->
                           entry labels i j = 0 \/ entry labels i j = 1).
  { intros i j Hi Hj. apply Hbin; [rewrite <- Hrows|rewrite <- Hcols]; assumption. }
  split.
  - apply Rle_mult_inv_pos; [|exact Hden].
    apply big_sum_nonneg. intros i Hi. apply big_sum_nonneg. intros j Hj.
    apply Rmult_le_pos; [apply Halpha; assumption|].
    apply Rmult_le_pos; [left; apply focal_factor_pos|].
    apply bce_logit_nonneg. apply Hy; assumption.
  - unfold Rdiv. apply Rmult_le_compat_r; [left; apply Rinv_0_lt_compat; exact Hden|].
    apply big_sum_le. intros i Hi. apply big_sum_le. intros j Hj.
    apply Rmult_le_compat_l; [apply Halpha; assumption|].
    apply Rmult_le_compat_r; [apply bce_logit_nonneg; apply Hy; assumption|].
    replace (focal_factor 0 (entry labels i j) (entry logits i j)) with 1.
    + apply focal_factor_le_1; [exact Hg|apply Hy; assumption].
    + unfold focal_factor. destruct (Req_dec_T 0 0); [reflexivity|congruence].
Qed.

Lemma focal_loss_le_gamma_zero_witness :
  exists focal bce,
    focal_loss (mkTensor 1 2 (fun _ j => if (j =? 0)%nat then 1 else 0))
               (mkTensor 1 2 (fun _ _ => 0))
               (mkTensor 1 2 (fun _ _ => 1)) 2 = Ok focal /\
    focal_loss (mkTensor 1 2 (fun _ j => if (j =? 0)%nat then 1 else 0))
               (mkTensor 1 2 (fun _ _ => 0))
               (mkTensor 1 2 (fun _ _ => 1)) 0 = Ok bce /\
    0 <= focal <= bce.
Proof.
  apply (@focal_loss_le_gamma_zero
           (mkTensor 1 2 (fun _ j => if (j =? 0)%nat then 1 else 0))
           (mkTensor 1 2 (fun _ _ => 0))
           (mkTensor 1 2 (fun _ _ => 1)) 2).
  - reflexivity.
  - reflexivity.
  - reflexivity.
  - intros i j Hi Hj. simpl. destruct (j =? 0)%nat; [right|left]; reflexivity.
  - intros i j Hi Hj. unfold bentry. simpl. lra.
  - lra.
  - unfold tsum. simpl. lra.
Defined.

(** ** Without re-weighting *)

Lemma class_weights_beta_zero_list (samples_per_cls : list Z)
      (no_of_classes : nat) :
  Forall (fun n => (0 < n)%Z) samples_per_cls ->
  length samples_per_cls = no_of_classes ->
  class_weights samples_per_cls no_of_classes 0 = List.repeat 1 no_of_classes.
Proof.
  intros Hpos Hlen.
  assert (Hl : length (class_weights samples_per_cls no_of_classes 0)
               = no_of_classes)
    by (rewrite class_weights_eq, length_map; exact Hlen).
  apply (nth_ext _ _ 0 0).
  - rewrite repeat_length. exact Hl.
  - intros k Hk. rewrite Hl in Hk. rewrite nth_repeat_lt by exact Hk.
    apply (@class_weights_uniform samples_per_cls no_of_classes 0 1 k);
      try assumption; [lra|].
    eapply Forall_impl; [|exact Hpos].
    intros n Hn. unfold effective_number_weight.
    destruct n as [|p|p]; try lia.
    simpl. rewrite pow_i by lia. field.
Qed.

(** X25. With [beta = 0] the result of [CB_loss], a value or an exception,
    does not depend on the class counts, as long as they are positive and
    there is one for each class. *)
Theorem CB_loss_beta_zero_ignores_counts (labels : list Z) (logits : tensor)
        (samples1 samples2 : list Z) (no_of_classes : nat)
        (loss_type : string) (gamma : R) :
  Forall (fun n => (0 < n)%Z) samples1 ->
  Forall (fun n => (0 < n)%Z) samples2 ->
  length samples1 = no_of_classes ->
  length samples2 = no_of_classes ->
  CB_loss labels logits samples1 no_of_classes loss_type 0 gamma
  = CB_loss labels logits samples2 no_of_classes loss_type 0 gamma.
Proof.
  intros H1 H2 L1 L2. unfold CB_loss.
  rewrite (class_weights_beta_zero_list H1 L1).
  rewrite (class_weights_beta_zero_list H2 L2). reflexivity.
Qed.

Lemma CB_loss_beta_zero_ignores_counts_witness :
  CB_loss [1; 0]%Z (mkTensor 2 2 (fun _ _ => 0)) [3; 5]%Z 2 "focal" 0 2
  = CB_loss [1; 0]%Z (mkTensor 2 2 (fun _ _ => 0)) [40; 1]%Z 2 "focal" 0 2.
Proof.
  apply CB_loss_beta_zero_ignores_counts.
  - repeat constructor.
  - repeat constructor.
  - reflexivity.
  - reflexivity.
Defined.

(** ** Arguments that [CB_loss] does not accept *)

(** X2. On valid labels, a loss type other than ["focal"], ["sigmoid"] and
    ["softmax"] makes [CB_loss] raise [UnboundLocalError], whatever the
    logits are: no branch assigns [cb_loss] and the logits are never read. *)
Theorem CB_loss_unknown_loss_type_unbound (labels : list Z) (logits : tensor)
        (samples_per_cls : list Z) (no_of_classes : nat) (loss_type : string)
        (beta gamma : R) :
  labels <> [] ->
  Forall (in_range no_of_classes) labels ->
  length samples_per_cls = no_of_classes ->
  loss_type <> "focal"%string -> loss_type <> "sigmoid"%string ->
  loss_type <> "softmax"%string ->
  CB_loss labels logits samples_per_cls no_of_classes loss_type beta gamma
  = Raise UnboundLocalError.
Proof.
  intros Hne Hall Hlen H1 H2 H3.
  destruct (@CB_loss_dispatch labels samples_per_cls no_of_classes beta
              Hne Hall Hlen) as [t [w [_ [Hrun _]]]].
  rewrite Hrun. unfold dispatch_loss.
  apply String.eqb_neq in H1. apply String.eqb_neq in H2.
  apply String.eqb_neq in H3. rewrite H1, H2, H3. reflexivity.
Qed.

Lemma CB_loss_unknown_loss_type_unbound_witness :
  CB_loss [1; 0]%Z (mkTensor 5 7 (fun _ _ => 0)) [3; 5]%Z 2 "Focal" (1 / 2) 2
  = Raise UnboundLocalError.
Proof.
  apply CB_loss_unknown_loss_type_unbound.
  - discriminate.
  - repeat constructor; unfold in_range; simpl; lia.
  - reflexivity.
  - discriminate.
  - discriminate.
  - discriminate.
Defined.

Lemma bdim_none (a b : nat) :
  a <> b -> a <> 1%nat -> b <> 1%nat -> bdim a b = None.
Proof.
  intros Hab Ha Hb. unfold bdim.
  apply Nat.eqb_neq in Hab. apply Nat.eqb_neq in Ha. apply Nat.eqb_neq in Hb.
  rewrite Hab, Ha, Hb. reflexivity.
Qed.

(** X10. When [samples_per_cls] does not have [no_of_classes] entries (and
    neither number is 1, where broadcasting steps in), the product of the
    repeated weights and the one-hot labels on line 63 raises
    [RuntimeError]. *)
Theorem CB_loss_samples_length_mismatch (labels : list Z) (logits : tensor)
        (samples_per_cls : list Z) (no_of_classes : nat) (loss_type : string)
        (beta gamma : R) :
  labels <> [] ->
  Forall (in_range no_of_classes) labels ->
  length samples_per_cls <> no_of_classes ->
  length samples_per_cls <> 1%nat ->
  no_of_classes <> 1%nat ->
  CB_loss labels logits samples_per_cls no_of_classes loss_type beta gamma
  = Raise RuntimeError.
Proof.
  intros Hne Hall Hlen Hl1 Hc1.
  unfold CB_loss. rewrite one_hot_ok by assumption. simpl.
  unfold expand_weights, tmul, tzip. simpl.
  rewrite class_weights_eq, length_map, Nat.add_0_r, Nat.mul_1_r, bdim_refl.
  rewrite bdim_none by assumption. reflexivity.
Qed.

Lemma CB_loss_samples_length_mismatch_witness :
  CB_loss [1; 0]%Z (mkTensor 2 2 (fun _ _ => 0)) [3; 5; 4]%Z 2 "focal" (1 / 2) 2
  = Raise RuntimeError.
Proof.
  apply CB_loss_samples_length_mismatch.
  - discriminate.
  - repeat constructor; unfold in_range; simpl; lia.
  - simpl. lia.
  - simpl. lia.
  - lia.
Defined.

(** * Properties of save_features.py and of the loss dispatch *)

(** ** Unsupported configurations *)

Lemma raises_bind {A B : Type} (m : result A) (k : A -> result B) :
  (forall a, raises (k a)) -> raises (bind m k).
Proof.
  intros H. destruct m as [a|e]; simpl; [apply H|]. exists e. reflexivity.
Qed.

(** X11. A data set other than ['icbhi'] makes [parse_args] raise, whatever
    happened before line 172: it never returns arguments for another data
    set. *)
Lemma parse_args_unknown_dataset_raises (T H : Type) (ext : Externals T H)
      (c : Cli) (w : World T H) :
  dataset c <> "icbhi"%string -> raises (parse_args ext c w).
Proof.
  intros Hd. unfold parse_args.
  apply raises_bind. intros lr. apply raises_bind. intros _.
  apply raises_bind. intros w'. apply raises_bind. intros wu.
  unfold class_names. apply String.eqb_neq in Hd. rewrite Hd. simpl.
  exists NotImplementedError. reflexivity.
Qed.

Lemma parse_args_unknown_dataset_raises_witness :
  raises (parse_args example_ext
            (example_cli "./save/" None "esc50" "lungsound" false) empty_world).
Proof.
  apply (@parse_args_unknown_dataset_raises nat unit example_ext
           (example_cli "./save/" None "esc50" "lungsound" false) empty_world).
  discriminate.
Defined.

(** A loss type outside the three branches makes [CB_loss] raise: the
    return statement reads a local variable that was never assigned. *)
Lemma CB_loss_unknown_loss_type_raises (labels : list Z) (logits : tensor)
      (samples_per_cls : list Z) (no_of_classes : nat) (loss_type : string)
      (beta gamma : R) :
  loss_type <> "focal"%string -> loss_type <> "sigmoid"%string ->
  loss_type <> "softmax"%string ->
  raises (CB_loss labels logits samples_per_cls no_of_classes loss_type beta gamma).
Proof.
  intros H1 H2 H3. unfold CB_loss.
  apply raises_bind. intros t. apply raises_bind. intros wts.
  unfold dispatch_loss.
  apply String.eqb_neq in H1. apply String.eqb_neq in H2.
  apply String.eqb_neq in H3. rewrite H1, H2, H3. simpl.
  exists UnboundLocalError. reflexivity.
Qed.

(** A class split that is neither ['lungsound'] nor ['diagnosis'] passes
    lines 172-184 without an exception and without a class list. *)
Lemma class_names_unknown_split (c : Cli) :
  dataset c = "icbhi"%string ->
  class_split c <> "lungsound"%string -> class_split c <> "diagnosis"%string ->
  class_names c = Ok None.
Proof.
  intros Hd H1 H2. unfold class_names. rewrite Hd. simpl.
  apply String.eqb_neq in H1. apply String.eqb_neq in H2.
  rewrite H1, H2. reflexivity.
Qed.

(** C6. [parse_args] on the default command line with [--class_split foo]
    returns: no exception is raised and [args.cls_list] is never set. *)
Theorem parse_args_unknown_class_split_returns :
  exists args w,
    parse_args example_ext
      (example_cli "./save/my_split/" None "icbhi" "foo" false) empty_world
    = Ok (args, w) /\
    cls_list args = None.
Proof.
  eexists. eexists. split; reflexivity.
Qed.

(** ** Missing checkpoint files *)

(** [torch.load] of a path that [os.path.isfile] rejects raises one of the
    three errors of [open]. *)
Lemma torch_load_missing (T H : Type) (w : World T H) (path : string) :
  isfile w path = false ->
  exists e, torch_load w path = Raise e /\
            (e = FileNotFoundError \/ e = IsADirectoryError
             \/ e = NotADirectoryError).
Proof.
  unfold isfile, torch_load, is_file. intros Hf.
  destruct (String.eqb path ""); [eauto|].
  destruct (blocked w (resolve path)); [eauto 6|].
  destruct (is_dir w (resolve path)); [eauto 6|].
  destruct (find_file (resolve path) (files w)) as [f|]; [|eauto].
  destruct (dir_only path); [eauto 6|discriminate Hf].
Qed.

(** Where nothing is at the path, the error is [FileNotFoundError]. *)
Lemma torch_load_nothing (T H : Type) (w : World T H) (path : string) :
  blocked w (resolve path) = false ->
  is_dir w (resolve path) = false ->
  is_file w (resolve path) = false ->
  torch_load w path = Raise FileNotFoundError.
Proof.
  unfold torch_load, is_file. intros -> -> Hf.
  destruct (String.eqb path ""); [reflexivity|].
  destruct (find_file (resolve path) (files w)); [discriminate Hf|reflexivity].
Qed.

(** X26. The two checkpoints are not treated alike.  When
    [os.path.isfile] rejects the path of the [--resume] checkpoint, lines
    341-353 print the warning and return the arguments (no start epoch is
    set), the model and the optimizer as they were.  When [--pretrained] is
    set and [os.path.isfile] would reject the path of [--pretrained_ckpt],
    lines 278-297 call [torch.load] without a test, and it raises
    [FileNotFoundError], [IsADirectoryError] or [NotADirectoryError]. *)
Theorem missing_checkpoint (T H : Type) (args : Args) (m : Model T H)
        (optimizer : state_dict T) (w : World T H) (path : string) :
  isfile w path = false ->
  (truthy path = true -> resume (cli args) = Some path ->
   resume_checkpoint args m optimizer w
   = Ok (args, m, optimizer,
         print (Text ("=> no checkpoint found at '" ++ path ++ "'")) w)) /\
  (pretrained (cli args) = true -> pretrained_ckpt (cli args) = Some path ->
   exists e, load_pretrained args m w = Raise e /\
             (e = FileNotFoundError \/ e = IsADirectoryError
              \/ e = NotADirectoryError)).
Proof.
  intros Hf. split.
  - intros Ht Hr. unfold resume_checkpoint. rewrite Hr, Ht, Hf. reflexivity.
  - intros Hp Hc. unfold load_pretrained. rewrite Hp, Hc.
    destruct (torch_load_missing w path Hf) as [e [He Hcases]].
    exists e. rewrite He. split; [reflexivity|exact Hcases].
Qed.

Lemma missing_checkpoint_witness :
  let args := mkArgs (example_cli "./save/" (Some "last.pth") "icbhi" "lungsound" true)
                     [120; 160]%Z 0 "icbhi_ast_ce" "./save/icbhi_ast_ce"
                     None None None None in
  resume_checkpoint args example_model [] empty_world
  = Ok (args, example_model, [],
        print (Text "=> no checkpoint found at 'last.pth'") empty_world) /\
  exists e, load_pretrained args example_model empty_world = Raise e /\
            (e = FileNotFoundError \/ e = IsADirectoryError
             \/ e = NotADirectoryError).
Proof.
  intros args. split.
  - apply (@missing_checkpoint nat unit args example_model [] empty_world
             "last.pth"); reflexivity.
  - apply (@missing_checkpoint nat unit args example_model [] empty_world
             "./save/16/icbhi_ast_ce_bs8_lr5e-5_ep50_seed1/best.pth");
      reflexivity.
Defined.

(** The run of [main] on the default command line with [--resume last.pth]
    and no such file: what it has printed when it returns. *)
Lemma main_resume_missing_stdout :
  match main example_ext
         (example_cli "./save/my_split/" (Some "last.pth") "icbhi" "lungsound"
                      false)
         empty_world with
  | Ok w' => Some (stdout w')
  | Raise _ => None
  end = Some [Text "=> no checkpoint found at 'last.pth'";
              Text "********************"].
Proof. reflexivity. Qed.

(** C7. The claim fails on the pre-trained checkpoint and holds on the
    other one.  On the default command line with [--pretrained] and no file
    at the default [--pretrained_ckpt], [main] ends with the
    [FileNotFoundError] of the unguarded [torch.load] of line 279.  On the
    default command line with [--resume last.pth] and no such file, [main]
    returns, and it has printed the warning of line 351 and the line of
    stars. *)
Theorem missing_pretrained_ckpt_raises :
  main example_ext (example_cli "./save/my_split/" None "icbhi" "lungsound" true)
       empty_world
  = Raise FileNotFoundError /\
  exists w',
    main example_ext
         (example_cli "./save/my_split/" (Some "last.pth") "icbhi" "lungsound"
                      false)
         empty_world
    = Ok w' /\
    stdout w' = [Text "=> no checkpoint found at 'last.pth'";
                 Text "********************"].
Proof.
  split; [reflexivity|].
  pose proof main_resume_missing_stdout as Hs.
  destruct (main example_ext _ empty_world) as [w'|e]; [|discriminate Hs].
  exists w'. split; [reflexivity|]. injection Hs as Hs. exact Hs.
Qed.

(** ** Strings and paths *)

Lemma append_assoc (a b c : string) : ((a ++ b) ++ c = a ++ (b ++ c))%string.
Proof. induction a as [|x a IH]; simpl; [reflexivity|]. rewrite IH. reflexivity. Qed.

Lemma append_length (a b : string) :
  String.length (a ++ b) = (String.length a + String.length b)%nat.
Proof. induction a as [|x a IH]; simpl; [reflexivity|]. rewrite IH. reflexivity. Qed.

Lemma append_inv_head (a b c : string) : (a ++ b = a ++ c)%string -> b = c.
Proof.
  induction a as [|x a IH]; simpl; intros H; [exact H|].
  injection H as H. apply IH. exact H.
Qed.

Lemma append_inv_tail (s a b : string) : (a ++ s = b ++ s)%string -> a = b.
Proof.
  intros H.
  assert (Hlen : String.length a = String.length b).
  { apply (f_equal String.length) in H. rewrite !append_length in H. lia. }
  revert b H Hlen. induction a as [|x a IH]; intros [|y b] H Hlen;
    simpl in Hlen; try discriminate; [reflexivity|].
  simpl in H. injection H as Hx H. subst y. f_equal. apply IH; [exact H|lia].
Qed.

Lemma append_neq_self (a b : string) : b <> ""%string -> (a ++ b)%string <> a.
Proof.
  intros Hb H. apply Hb. apply (append_inv_head a).
  rewrite H. clear. induction a as [|x a IH]; simpl; [reflexivity|].
  rewrite <- IH. reflexivity.
Qed.

(** Padding with zeros keeps the number that a string of digits denotes. *)
Lemma uint_of_zeros (k : nat) (s : string) :
  NilEmpty.uint_of_string (replicate_char k "0" ++ s)
  = option_map (Nat.iter k D0) (NilEmpty.uint_of_string s).
Proof.
  induction k as [|k IH]; simpl.
  - destruct (NilEmpty.uint_of_string s); reflexivity.
  - rewrite IH. destruct (NilEmpty.uint_of_string s); reflexivity.
Qed.

Lemma of_uint_zeros (k : nat) (d : uint) :
  Nat.of_uint (Nat.iter k D0 d) = Nat.of_uint d.
Proof. induction k as [|k IH]; simpl; [reflexivity|]. exact IH. Qed.

Lemma zfill_decode (width n : nat) :
  option_map Nat.of_uint (NilEmpty.uint_of_string (zfill width (str_of_nat n)))
  = Some n.
Proof.
  unfold zfill, str_of_nat. rewrite uint_of_zeros, NilEmpty.usu. simpl.
  rewrite of_uint_zeros, Unsigned.of_to. reflexivity.
Qed.

Lemma zfill_inj (width i j : nat) :
  zfill width (str_of_nat i) = zfill width (str_of_nat j) -> i = j.
Proof.
  intros H. pose proof (zfill_decode width i) as Hi.
  rewrite H, zfill_decode in Hi. congruence.
Qed.

Lemma feature_path_inj (kind : string) (args : Args) (i j : nat) :
  feature_path kind args i = feature_path kind args j -> i = j.
Proof.
  unfold feature_path. intros H.
  repeat apply append_inv_head in H.
  apply append_inv_tail in H. apply zfill_inj in H. exact H.
Qed.

Lemma label_path_inj (kind : string) (args : Args) (i j : nat) :
  label_path kind args i = label_path kind args j -> i = j.
Proof.
  unfold label_path. intros H.
  repeat apply append_inv_head in H.
  apply append_inv_tail in H. apply zfill_inj in H. exact H.
Qed.

Lemma feature_label_neq (kind : string) (args : Args) (i j : nat) :
  feature_path kind args i <> label_path kind args j.
Proof.
  unfold feature_path, label_path. intros H.
  apply append_inv_head in H. discriminate H.
Qed.

(** ** Resolved paths *)

Lemma path_eqb_refl (q : path) : path_eqb q q = true.
Proof.
  induction q as [|x q IH]; simpl; [reflexivity|].
  rewrite String.eqb_refl. exact IH.
Qed.

Lemma path_eqb_eq (a b : path) : path_eqb a b = true <-> a = b.
Proof.
  split; [|intros ->; apply path_eqb_refl].
  revert b. induction a as [|x a IH]; intros [|y b] H; simpl in H;
    try discriminate H; [reflexivity|].
  apply andb_true_iff in H. destruct H as [Hx Hab].
  apply String.eqb_eq in Hx. subst y. f_equal. apply IH. exact Hab.
Qed.

Lemma path_eqb_neq (a b : path) : path_eqb a b = false <-> a <> b.
Proof.
  split.
  - intros H Hab. apply path_eqb_eq in Hab. congruence.
  - intros H. destruct (path_eqb a b) eqn:E; [|reflexivity].
    apply path_eqb_eq in E. contradiction.
Qed.

Lemma split_slash_nonempty (s : string) : split_slash s <> [].
Proof.
  induction s as [|c s IH]; simpl; [discriminate|].
  destruct (Ascii.eqb c "/"); [discriminate|].
  destruct (split_slash s); [contradiction|discriminate].
Qed.

(** Splitting at a slash splits the list of names. *)
Lemma split_slash_app (a b : string) :
  split_slash (a ++ String "/" b) = (split_slash a ++ split_slash b)%list.
Proof.
  induction a as [|c a IH]; simpl; [reflexivity|].
  destruct (Ascii.eqb c "/").
  - rewrite IH. reflexivity.
  - rewrite IH. pose proof (split_slash_nonempty a) as Hne.
    destruct (split_slash a) as [|h t]; [contradiction|reflexivity].
Qed.

Lemma split_slash_no_slash (s : string) :
  no_slash s = true -> split_slash s = [s].
Proof.
  induction s as [|c s IH]; simpl; intros H; [reflexivity|].
  apply andb_true_iff in H. destruct H as [Hc Hs].
  apply negb_true_iff in Hc. rewrite Hc, (IH Hs). reflexivity.
Qed.

Lemma no_slash_app (a b : string) :
  no_slash (a ++ b) = no_slash a && no_slash b.
Proof.
  induction a as [|c a IH]; simpl; [reflexivity|].
  rewrite IH, andb_assoc. reflexivity.
Qed.

Lemma no_slash_uint (d : uint) : no_slash (NilEmpty.string_of_uint d) = true.
Proof. induction d; simpl; auto. Qed.

Lemma no_slash_zfill (width n : nat) : no_slash (zfill width (str_of_nat n)) = true.
Proof.
  unfold zfill, str_of_nat. rewrite no_slash_app, no_slash_uint, andb_true_r.
  induction (width - String.length _)%nat as [|k IH]; simpl; [reflexivity|exact IH].
Qed.

Lemma no_slash_feature_name (kind : string) (idx : nat) :
  no_slash kind = true -> no_slash (feature_name kind idx) = true.
Proof.
  intros Hk. unfold feature_name.
  rewrite !no_slash_app, Hk, no_slash_zfill. reflexivity.
Qed.

Lemma no_slash_label_name (kind : string) (idx : nat) :
  no_slash kind = true -> no_slash (label_name kind idx) = true.
Proof.
  intros Hk. unfold label_name.
  rewrite !no_slash_app, Hk, no_slash_zfill. reflexivity.
Qed.

Lemma prefix_slash_head (s : string) :
  prefix "/" s = match s with
                 | String c _ => Ascii.eqb c "/"
                 | EmptyString => false
                 end.
Proof.
  destruct s as [|c s]; [reflexivity|].
  change (prefix "/" (String c s))
    with (if ascii_dec "/" c then prefix "" s else false).
  destruct (ascii_dec "/" c) as [E|N].
  - subst c. destruct s; reflexivity.
  - symmetry. apply Ascii.eqb_neq. intros E. apply N. symmetry. exact E.
Qed.

Lemma prefix_slash_app (a x y : string) :
  prefix "/" (a ++ String "/" x) = prefix "/" (a ++ String "/" y).
Proof. rewrite !prefix_slash_head. destruct a; reflexivity. Qed.

(** A name appended behind a slash is one more step on the way. *)
Lemma resolve_child (d name : string) :
  no_slash name = true -> is_name name = true ->
  resolve (d ++ String "/" name)
  = (resolve (d ++ String "/" "") ++ [name])%list.
Proof.
  intros Hs Hn. unfold resolve.
  rewrite (prefix_slash_app d name ""), !split_slash_app.
  rewrite (split_slash_no_slash _ Hs), !filter_app. simpl.
  rewrite Hn, app_nil_r, app_assoc. reflexivity.
Qed.

Lemma resolve_trailing_slash (d : string) :
  d <> ""%string -> resolve (d ++ String "/" "") = resolve d.
Proof.
  intros Hd. unfold resolve.
  rewrite split_slash_app, filter_app, !prefix_slash_head. simpl.
  rewrite app_nil_r. destruct d as [|c d]; [contradiction|reflexivity].
Qed.

Lemma dir_only_child (d name : string) :
  no_slash name = true -> is_name name = true ->
  dir_only (d ++ String "/" name) = false.
Proof.
  intros Hs Hn. unfold dir_only.
  rewrite split_slash_app, (split_slash_no_slash _ Hs), last_last, Hn.
  reflexivity.
Qed.

(** ** The paths of the dump, resolved *)

Lemma feature_dir_nonempty (kind : string) (args : Args) :
  String.eqb (feature_dir kind args) "" = false.
Proof. reflexivity. Qed.

Lemma resolve_feature_dir (kind : string) (args : Args) :
  no_slash kind = true ->
  resolve (feature_dir kind args) = (("features_" ++ kind)%string :: patch_dir args).
Proof.
  intros Hk. unfold feature_dir, patch_dir.
  change ("./features_" ++ kind ++ "/" ++ str_of_Z (patch_size (cli args)) ++ "/")%string
    with ("." ++ String "/" ("features_" ++ kind ++ String "/"
            (str_of_Z (patch_size (cli args)) ++ String "/" "")))%string.
  unfold resolve.
  change (prefix "/" ("." ++ String "/" ("features_" ++ kind ++ String "/"
            (str_of_Z (patch_size (cli args)) ++ String "/" ""))))
    with false.
  rewrite split_slash_app.
  rewrite <- (append_assoc "features_" kind).
  rewrite !split_slash_app.
  rewrite (@split_slash_no_slash ("features_" ++ kind))
    by (rewrite no_slash_app, Hk; reflexivity).
  rewrite !filter_app. simpl. rewrite app_nil_r. reflexivity.
Qed.

Lemma feature_path_child (kind : string) (args : Args) (idx : nat) :
  feature_path kind args idx
  = (feature_dir kind args ++ String "/" (feature_name kind idx))%string.
Proof. reflexivity. Qed.

Lemma label_path_child (kind : string) (args : Args) (idx : nat) :
  label_path kind args idx
  = (feature_dir kind args ++ String "/" (label_name kind idx))%string.
Proof. reflexivity. Qed.

Lemma is_name_feature_name (kind : string) (idx : nat) :
  is_name (feature_name kind idx) = true.
Proof. reflexivity. Qed.

Lemma is_name_label_name (kind : string) (idx : nat) :
  is_name (label_name kind idx) = true.
Proof. reflexivity. Qed.

Lemma resolve_dir_slash (kind : string) (args : Args) :
  resolve (feature_dir kind args ++ String "/" "")
  = resolve (feature_dir kind args).
Proof. apply resolve_trailing_slash. discriminate. Qed.

Lemma resolve_feature_path (kind : string) (args : Args) (idx : nat) :
  no_slash kind = true ->
  resolve (feature_path kind args idx)
  = (resolve (feature_dir kind args) ++ [feature_name kind idx])%list.
Proof.
  intros Hk. rewrite feature_path_child, resolve_child, resolve_dir_slash;
    [reflexivity|apply no_slash_feature_name; exact Hk|reflexivity].
Qed.

Lemma resolve_label_path (kind : string) (args : Args) (idx : nat) :
  no_slash kind = true ->
  resolve (label_path kind args idx)
  = (resolve (feature_dir kind args) ++ [label_name kind idx])%list.
Proof.
  intros Hk. rewrite label_path_child, resolve_child, resolve_dir_slash;
    [reflexivity|apply no_slash_label_name; exact Hk|reflexivity].
Qed.

Lemma dir_only_feature_path (kind : string) (args : Args) (idx : nat) :
  no_slash kind = true -> dir_only (feature_path kind args idx) = false.
Proof.
  intros Hk. rewrite feature_path_child. apply dir_only_child;
    [apply no_slash_feature_name; exact Hk|reflexivity].
Qed.

Lemma dir_only_label_path (kind : string) (args : Args) (idx : nat) :
  no_slash kind = true -> dir_only (label_path kind args idx) = false.
Proof.
  intros Hk. rewrite label_path_child. apply dir_only_child;
    [apply no_slash_label_name; exact Hk|reflexivity].
Qed.

Lemma feature_name_inj (kind : string) (i j : nat) :
  feature_name kind i = feature_name kind j -> i = j.
Proof.
  unfold feature_name. intros H.
  repeat apply append_inv_head in H.
  apply append_inv_tail in H. apply zfill_inj in H. exact H.
Qed.

Lemma label_name_inj (kind : string) (i j : nat) :
  label_name kind i = label_name kind j -> i = j.
Proof.
  unfold label_name. intros H.
  repeat apply append_inv_head in H.
  apply append_inv_tail in H. apply zfill_inj in H. exact H.
Qed.

Lemma feature_label_name_neq (k1 k2 : string) (i j : nat) :
  feature_name k1 i <> label_name k2 j.
Proof. unfold feature_name, label_name. intros H. discriminate H. Qed.

(** ** Initial segments *)

Lemma firstn_snoc_le (A : Type) (l : list A) (x : A) (k : nat) :
  (k <= length l)%nat -> firstn k (l ++ [x]) = firstn k l.
Proof.
  intros Hk. rewrite firstn_app.
  replace (k - length l)%nat with 0%nat by lia. simpl. apply app_nil_r.
Qed.

Lemma firstn_neq_snoc (A : Type) (l : list A) (x : A) (k : nat) :
  firstn k l <> (l ++ [x])%list.
Proof.
  intros H. apply (f_equal (@length A)) in H.
  rewrite length_app, length_firstn in H. simpl in H. lia.
Qed.

Lemma removelast_snoc (A : Type) (l : list A) (x : A) :
  removelast (l ++ [x]) = l.
Proof. apply removelast_last. Qed.

Lemma firstn_min_snoc (A : Type) (l : list A) (x : A) (k : nat) :
  firstn k l = firstn (Nat.min k (length l)) (l ++ [x]).
Proof.
  rewrite firstn_snoc_le by lia.
  destruct (Nat.le_gt_cases k (length l)) as [Hk|Hk].
  - rewrite Nat.min_l by exact Hk. reflexivity.
  - rewrite Nat.min_r by lia. rewrite !firstn_all2 by lia. reflexivity.
Qed.

Lemma existsb_eq (A : Type) (f g : A -> bool) (l : list A) :
  (forall a, f a = g a) -> existsb f l = existsb g l.
Proof.
  intros Hfg. induction l as [|a l IH]; simpl; [reflexivity|].
  rewrite Hfg, IH. reflexivity.
Qed.

(** ** The file system *)

Section FileSystem.

Variables T H : Type.

Implicit Types (w : World T H) (q : path) (c : content T).

Lemma is_dir_ext w w' q : dirs w = dirs w' -> is_dir w q = is_dir w' q.
Proof. unfold is_dir. intros ->. reflexivity. Qed.

Lemma is_file_ext w w' q : files w = files w' -> is_file w q = is_file w' q.
Proof. unfold is_file. intros ->. reflexivity. Qed.

Lemma blocked_ext w w' q : files w = files w' -> blocked w q = blocked w' q.
Proof.
  intros Hf. unfold blocked. apply existsb_eq. intros k.
  apply is_file_ext. exact Hf.
Qed.

Lemma is_dir_here w : is_dir w [] = true.
Proof. reflexivity. Qed.

Lemma is_dir_add w w' q :
  dirs w' = q :: dirs w ->
  forall q', is_dir w' q' = path_eqb q' q || is_dir w q'.
Proof.
  unfold is_dir. intros -> q'. simpl.
  destruct (path_eqb q' []), (path_eqb q' ["/"%string]), (path_eqb q' q);
    reflexivity.
Qed.

Lemma is_file_add w w' q c :
  files w' = (q, c) :: files w ->
  forall q', is_file w' q' = path_eqb q' q || is_file w q'.
Proof.
  unfold is_file. intros -> q'. simpl. destruct (path_eqb q' q); reflexivity.
Qed.

Lemma find_file_is_file w q c :
  find_file q (files w) = Some c -> is_file w q = true.
Proof. unfold is_file. intros ->. reflexivity. Qed.

Lemma blocked_false w q :
  (forall k, is_file w (firstn k q) = false) -> blocked w q = false.
Proof.
  intros Hf. unfold blocked.
  destruct (existsb _ _) eqn:E; [|reflexivity].
  apply existsb_exists in E. destruct E as [k [_ Hk]].
  rewrite Hf in Hk. discriminate Hk.
Qed.

(** What a return of [os.mkdir] says. *)
Lemma mkdir_inv q w w' :
  mkdir q w = Ok w' ->
  is_dir w (removelast q) = true /\ is_dir w q = false /\
  w' = mkWorld (q :: dirs w) (files w) (stdout w) (hidden w).
Proof.
  unfold mkdir. intros Hm.
  destruct (blocked w q); [discriminate Hm|].
  destruct (is_dir w (removelast q)); [|discriminate Hm].
  destruct (is_dir w q); [discriminate Hm|].
  destruct (is_file w q); [discriminate Hm|].
  injection Hm as <-. repeat split; reflexivity.
Qed.

Lemma mkdir_ok q w :
  (forall k, is_file w (firstn k q) = false) ->
  is_dir w (removelast q) = true -> is_dir w q = false ->
  mkdir q w = Ok (mkWorld (q :: dirs w) (files w) (stdout w) (hidden w)).
Proof.
  intros Hf Hp Hq. unfold mkdir.
  rewrite (blocked_false _ _ Hf), Hp, Hq.
  replace (is_file w q) with false; [reflexivity|].
  rewrite <- (Hf (length q)), firstn_all. reflexivity.
Qed.

(** What a return of [os.makedirs] says: the directory exists afterwards,
    the directories that existed still exist, every new directory lies on
    the way to it, and nothing else has changed. *)
Lemma makedirs_from_inv (rq : list string) :
  forall w w',
    makedirs_from rq w = Ok w' ->
    files w' = files w /\ stdout w' = stdout w /\ hidden w' = hidden w /\
    is_dir w' (List.rev rq) = true /\
    (forall q, is_dir w q = true -> is_dir w' q = true) /\
    (forall q, is_dir w' q = true ->
               is_dir w q = true \/ exists k, q = firstn k (List.rev rq)).
Proof.
  induction rq as [|x rp IH]; intros w w' Hm.
  - simpl in Hm. apply mkdir_inv in Hm. destruct Hm as [_ [Hd _]].
    rewrite is_dir_here in Hd. discriminate Hd.
  - cbn [makedirs_from] in Hm.
    assert (Hw1 : exists w1,
               mkdir (List.rev (x :: rp)) w1 = Ok w' /\
               files w1 = files w /\ stdout w1 = stdout w /\
               hidden w1 = hidden w /\
               (forall q, is_dir w q = true -> is_dir w1 q = true) /\
               (forall q, is_dir w1 q = true ->
                          is_dir w q = true
                          \/ exists k, q = firstn k (List.rev rp))).
    { destruct (negb (is_dir w (List.rev rp) || is_file w (List.rev rp))).
      - destruct (makedirs_from rp w) as [w1|e] eqn:Hrec.
        + cbn [bind] in Hm.
          destruct (IH w w1 Hrec) as [H1 [H2 [H3 [_ [H5 H6]]]]].
          exists w1. repeat split; assumption.
        + destruct e; try discriminate Hm. cbn [bind] in Hm.
          exists w. repeat split; auto.
      - cbn [bind] in Hm. exists w. repeat split; auto. }
    destruct Hw1 as [w1 [Hmk [H1 [H2 [H3 [H5 H6]]]]]].
    apply mkdir_inv in Hmk. destruct Hmk as [_ [_ Hw']].
    assert (Hdirs : dirs w' = List.rev (x :: rp) :: dirs w1)
      by (rewrite Hw'; reflexivity).
    split; [rewrite Hw'; exact H1|]. split; [rewrite Hw'; exact H2|].
    split; [rewrite Hw'; exact H3|]. split; [|split].
    + rewrite (@is_dir_add _ _ _ Hdirs), path_eqb_refl. reflexivity.
    + intros q Hq. rewrite (@is_dir_add _ _ _ Hdirs), (H5 q Hq). apply orb_true_r.
    + intros q Hq. rewrite (@is_dir_add _ _ _ Hdirs) in Hq.
      apply orb_true_iff in Hq. destruct Hq as [Hq|Hq].
      * right. apply path_eqb_eq in Hq. subst q.
        exists (length (List.rev (x :: rp))). rewrite firstn_all. reflexivity.
      * destruct (H6 q Hq) as [Hw|[k Hk]]; [left; exact Hw|].
        right. simpl. exists (Nat.min k (length (List.rev rp))).
        rewrite Hk. apply firstn_min_snoc.
Qed.

(** [os.makedirs] returns when the directory does not exist and nothing on
    the way to it, the entry itself included, is a regular file. *)
Lemma makedirs_from_ok (rq : list string) :
  forall w,
    (forall k, is_file w (firstn k (List.rev rq)) = false) ->
    is_dir w (List.rev rq) = false ->
    exists w', makedirs_from rq w = Ok w'.
Proof.
  induction rq as [|x rp IH]; intros w Hf Hd.
  - rewrite is_dir_here in Hd. discriminate Hd.
  - cbn [makedirs_from]. simpl List.rev in *.
    assert (Hfp : forall k, is_file w (firstn k (List.rev rp)) = false).
    { intros k. rewrite (firstn_min_snoc _ x). apply Hf. }
    assert (Hfile : is_file w (List.rev rp) = false).
    { rewrite <- (Hfp (length (List.rev rp))), firstn_all. reflexivity. }
    rewrite Hfile, orb_false_r.
    destruct (is_dir w (List.rev rp)) eqn:Hpar.
    + cbn [negb bind]. eexists. apply mkdir_ok; [exact Hf| |exact Hd].
      rewrite removelast_snoc. exact Hpar.
    + cbn [negb]. destruct (IH w Hfp Hpar) as [w1 Hrec]. rewrite Hrec.
      cbn [bind].
      destruct (@makedirs_from_inv _ _ _ Hrec) as [H1 [_ [_ [H4 [_ H6]]]]].
      eexists. apply mkdir_ok.
      * intros k. rewrite (@is_file_ext w1 w _ H1). apply Hf.
      * rewrite removelast_snoc. exact H4.
      * destruct (is_dir w1 (List.rev rp ++ [x])%list) eqn:E; [|reflexivity].
        destruct (H6 _ E) as [Hw|[k Hk]]; [congruence|].
        symmetry in Hk. exfalso. exact (firstn_neq_snoc _ _ _ Hk).
Qed.

(** Lines 368-369 and 382-383, when they return. *)
Lemma ensure_dir_inv w w1 (dir : string) :
  (if negb (path_exists w dir) then makedirs dir w else Ok w) = Ok w1 ->
  files w1 = files w /\ stdout w1 = stdout w /\ hidden w1 = hidden w /\
  (forall q, is_dir w q = true -> is_dir w1 q = true) /\
  (forall q, is_dir w1 q = true ->
             is_dir w q = true \/ exists k, q = firstn k (resolve dir)).
Proof.
  destruct (path_exists w dir); cbn [negb]; intros Hm.
  - injection Hm as <-. repeat split; auto.
  - unfold makedirs in Hm. destruct (String.eqb dir ""); [discriminate Hm|].
    destruct (@makedirs_from_inv _ _ _ Hm) as [H1 [H2 [H3 [_ [H5 H6]]]]].
    rewrite rev_involutive in H6. repeat split; assumption.
Qed.

(** Lines 368-369 and 382-383 return when nothing on the way to the
    directory is a regular file, and the directory exists afterwards. *)
Lemma ensure_dir_ok w (dir : string) :
  String.eqb dir "" = false ->
  (forall k, is_file w (firstn k (resolve dir)) = false) ->
  exists w1,
    (if negb (path_exists w dir) then makedirs dir w else Ok w) = Ok w1 /\
    is_dir w1 (resolve dir) = true.
Proof.
  intros Hne Hf.
  assert (Hfile : is_file w (resolve dir) = false).
  { rewrite <- (Hf (length (resolve dir))), firstn_all. reflexivity. }
  unfold path_exists, isdir, isfile. rewrite Hne, Hfile, andb_false_r.
  cbn [negb andb]. rewrite orb_false_r.
  destruct (is_dir w (resolve dir)) eqn:Hd; cbn [negb].
  - exists w. split; [reflexivity|exact Hd].
  - unfold makedirs. rewrite Hne.
    destruct (@makedirs_from_ok (List.rev (resolve dir)) w) as [w1 Hm].
    + rewrite rev_involutive. exact Hf.
    + rewrite rev_involutive. exact Hd.
    + exists w1. split; [exact Hm|].
      destruct (@makedirs_from_inv _ _ _ Hm) as [_ [_ [_ [H4 _]]]].
      rewrite rev_involutive in H4. exact H4.
Qed.

(** What a return of a write says. *)
Lemma write_file_inv (p : string) c w w' :
  write_file p c w = Ok w' ->
  is_dir w (removelast (resolve p)) = true /\
  w' = mkWorld (dirs w) ((resolve p, c) :: files w) (stdout w) (hidden w).
Proof.
  unfold write_file. intros Hw.
  destruct (String.eqb p ""); [discriminate Hw|].
  destruct (blocked w (resolve p)); [discriminate Hw|].
  destruct (is_dir w (removelast (resolve p))); [|discriminate Hw].
  destruct (is_dir w (resolve p)); [discriminate Hw|].
  destruct (dir_only p).
  - destruct (is_file w (resolve p)); discriminate Hw.
  - injection Hw as <-. split; reflexivity.
Qed.

Lemma write_file_ok (p : string) c w :
  String.eqb p "" = false ->
  (forall k, (k < length (resolve p))%nat ->
             is_file w (firstn k (resolve p)) = false) ->
  is_dir w (removelast (resolve p)) = true ->
  is_dir w (resolve p) = false ->
  dir_only p = false ->
  write_file p c w
  = Ok (mkWorld (dirs w) ((resolve p, c) :: files w) (stdout w) (hidden w)).
Proof.
  intros Hne Hf Hpar Hd Hdo. unfold write_file.
  rewrite Hne, Hpar, Hd, Hdo.
  replace (blocked w (resolve p)) with false; [reflexivity|].
  symmetry. unfold blocked.
  destruct (existsb _ _) eqn:E; [|reflexivity].
  apply existsb_exists in E. destruct E as [k [Hin Hk]].
  apply in_seq in Hin. rewrite Hf in Hk by lia. discriminate Hk.
Qed.

End FileSystem.

(** ** The feature dump *)

Lemma is_file_find (T H : Type) (w w' : World T H) (q : path) :
  find_file q (files w') = find_file q (files w) -> is_file w' q = is_file w q.
Proof. unfold is_file. intros ->. reflexivity. Qed.

(** The directories of two passes with different names share no entry. *)
Lemma segment_other (f1 f2 : string) (x : path) (n : string) (k : nat) :
  f1 <> f2 -> firstn k (f2 :: x) <> ((f1 :: x) ++ [n])%list.
Proof.
  intros Hne E. destruct k; simpl in E; [discriminate E|].
  injection E as E _. apply Hne. symmetry. exact E.
Qed.

Lemma features_kind_neq (k1 k2 : string) :
  k1 <> k2 -> ("features_" ++ k1)%string <> ("features_" ++ k2)%string.
Proof. intros Hne E. apply append_inv_head in E. contradiction. Qed.

Section Dump.

Variables T H : Type.
Variable kind : string.
Variable args : Args.
Variable m : Model T H.
Hypothesis Hkind : no_slash kind = true.
Hypothesis Hquiet : forward_keeps_files m.

Implicit Types (w : World T H) (q : path).

Lemma dump_written_step (idx n : nat) q :
  ~ dump_written kind args idx (S n) q ->
  q <> resolve (feature_path kind args idx) /\
  q <> resolve (label_path kind args idx) /\
  ~ dump_written kind args (S idx) n q.
Proof.
  intros Hn. repeat split.
  - intros E. apply Hn. exists idx. split; [lia|left; exact E].
  - intros E. apply Hn. exists idx. split; [lia|right; exact E].
  - intros [i [Hi Hq]]. apply Hn. exists i. split; [lia|exact Hq].
Qed.

Lemma feature_path_no_segment (idx k : nat) :
  firstn k (resolve (feature_dir kind args))
  <> resolve (feature_path kind args idx).
Proof. rewrite resolve_feature_path by exact Hkind. apply firstn_neq_snoc. Qed.

Lemma label_path_no_segment (idx k : nat) :
  firstn k (resolve (feature_dir kind args))
  <> resolve (label_path kind args idx).
Proof. rewrite resolve_label_path by exact Hkind. apply firstn_neq_snoc. Qed.

Lemma feature_label_path_neq (i j : nat) :
  resolve (feature_path kind args i) <> resolve (label_path kind args j).
Proof.
  rewrite resolve_feature_path, resolve_label_path by exact Hkind.
  intros E. apply app_inj_tail in E. destruct E as [_ E].
  exact (feature_label_name_neq E).
Qed.

Lemma feature_path_resolve_inj (i j : nat) :
  resolve (feature_path kind args i) = resolve (feature_path kind args j) ->
  i = j.
Proof.
  rewrite !resolve_feature_path by exact Hkind.
  intros E. apply app_inj_tail in E. destruct E as [_ E].
  exact (feature_name_inj E).
Qed.

Lemma label_path_resolve_inj (i j : nat) :
  resolve (label_path kind args i) = resolve (label_path kind args j) ->
  i = j.
Proof.
  rewrite !resolve_label_path by exact Hkind.
  intros E. apply app_inj_tail in E. destruct E as [_ E].
  exact (label_name_inj E).
Qed.

(** One batch of a pass that returns: the forward pass returned, the
    directory was there or was made, and the two files were written. *)
Lemma dump_step_inv (images labels audio : T) (rest : list (batch T))
      (idx : nat) w w' :
  dump_features kind args m idx ((images, labels, audio) :: rest) w = Ok w' ->
  exists features wa wb,
    forward m images audio w = Ok (features, wa) /\
    (if negb (path_exists wa (feature_dir kind args))
     then makedirs (feature_dir kind args) wa else Ok wa) = Ok wb /\
    dump_features kind args m (S idx) rest
                  (after_batch kind args idx features labels wb) = Ok w'.
Proof.
  cbn [dump_features]. intros Hd.
  destruct (forward m images audio w) as [[features wa]|e] eqn:Hfw;
    cbn [bind fst snd] in Hd; [|discriminate Hd].
  destruct (if negb (path_exists wa (feature_dir kind args))
            then makedirs (feature_dir kind args) wa else Ok wa)
    as [wb|e] eqn:Hens; cbn [bind] in Hd; [|discriminate Hd].
  destruct (write_file (feature_path kind args idx) (TensorFile features) wb)
    as [wc|e] eqn:Hw1; cbn [bind] in Hd; [|discriminate Hd].
  destruct (write_file (label_path kind args idx) (TensorFile labels) wc)
    as [wd|e] eqn:Hw2; cbn [bind] in Hd; [|discriminate Hd].
  apply write_file_inv in Hw1. destruct Hw1 as [_ Hw1]. subst wc.
  apply write_file_inv in Hw2. destruct Hw2 as [_ Hw2]. subst wd.
  exists features, wa, wb. repeat split; assumption.
Qed.

(** One batch of a pass returns when the forward pass does, nothing on the
    way to the directory is a regular file and no file of the dump is a
    directory; the two conditions hold again after the batch. *)
Lemma dump_step_ok (images labels audio : T) (rest : list (batch T))
      (idx : nat) w :
  dump_dir_free kind args w -> dump_writable kind args w ->
  returns (forward m images audio w) ->
  exists features wb,
    dump_features kind args m idx ((images, labels, audio) :: rest) w
    = dump_features kind args m (S idx) rest
                    (after_batch kind args idx features labels wb) /\
    dump_dir_free kind args (after_batch kind args idx features labels wb) /\
    dump_writable kind args (after_batch kind args idx features labels wb).
Proof.
  intros Hfree Hwr [[features wa] Hfw].
  destruct (Hquiet images audio w Hfw) as [Hda Hfa].
  destruct (@ensure_dir_ok T H wa (feature_dir kind args)) as [wb [Hens HD]].
  { reflexivity. }
  { intros k. rewrite (@is_file_ext T H wa w _ Hfa). apply Hfree. }
  destruct (ensure_dir_inv _ _ Hens) as [Hfb [_ [_ [_ H6]]]].
  assert (Hfbw : files wb = files w) by congruence.
  assert (Hnodir : forall q, is_dir w q = false ->
                             (forall k, firstn k (resolve (feature_dir kind args)) <> q) ->
                             is_dir wb q = false).
  { intros q Hq Hseg. destruct (is_dir wb q) eqn:E; [|reflexivity].
    destruct (H6 q E) as [Hw|[k Hk]].
    - rewrite (@is_dir_ext T H wa w q Hda) in Hw. congruence.
    - exfalso. apply (Hseg k). symmetry. exact Hk. }
  assert (Hw1 : write_file (feature_path kind args idx) (TensorFile features) wb
                = Ok (mkWorld (dirs wb)
                        ((resolve (feature_path kind args idx), TensorFile features)
                           :: files wb) (stdout wb) (hidden wb))).
  { apply write_file_ok.
    - reflexivity.
    - intros k Hk. rewrite resolve_feature_path in * by exact Hkind.
      rewrite length_app in Hk. simpl in Hk.
      rewrite firstn_snoc_le by lia.
      rewrite (@is_file_ext T H wb w _ Hfbw). apply Hfree.
    - rewrite resolve_feature_path by exact Hkind.
      rewrite removelast_snoc. exact HD.
    - apply Hnodir; [apply Hwr|]. intros k. apply feature_path_no_segment.
    - apply dir_only_feature_path. exact Hkind. }
  set (wc := mkWorld (dirs wb)
               ((resolve (feature_path kind args idx), TensorFile features)
                  :: files wb) (stdout wb) (hidden wb)) in *.
  assert (Hfc : forall q, is_file wc q
                          = path_eqb q (resolve (feature_path kind args idx))
                            || is_file wb q).
  { apply (@is_file_add T H wb wc _ (TensorFile features)). reflexivity. }
  assert (Hw2 : write_file (label_path kind args idx) (TensorFile labels) wc
                = Ok (after_batch kind args idx features labels wb)).
  { unfold after_batch.
    change (dirs wb) with (dirs wc). change (stdout wb) with (stdout wc).
    change (hidden wb) with (hidden wc).
    change ((resolve (feature_path kind args idx), TensorFile features)
              :: files wb) with (files wc).
    apply write_file_ok.
    - reflexivity.
    - intros k Hk. rewrite resolve_label_path in * by exact Hkind.
      rewrite length_app in Hk. simpl in Hk.
      rewrite firstn_snoc_le by lia. rewrite Hfc.
      rewrite (proj2 (path_eqb_neq _ _) (@feature_path_no_segment idx k)).
      rewrite (@is_file_ext T H wb w _ Hfbw). apply Hfree.
    - rewrite resolve_label_path by exact Hkind.
      rewrite removelast_snoc. exact HD.
    - change (is_dir wc (resolve (label_path kind args idx)))
        with (is_dir wb (resolve (label_path kind args idx))).
      apply Hnodir; [apply Hwr|]. intros k. apply label_path_no_segment.
    - apply dir_only_label_path. exact Hkind. }
  exists features, wb. split; [|split].
  - cbn [dump_features]. rewrite Hfw. cbn [bind fst snd].
    rewrite Hens. cbn [bind]. rewrite Hw1. cbn [bind].
    fold wc. rewrite Hw2. reflexivity.
  - intros k. unfold after_batch, is_file. cbn [files find_file].
    rewrite (proj2 (path_eqb_neq _ _) (@label_path_no_segment idx k)).
    rewrite (proj2 (path_eqb_neq _ _) (@feature_path_no_segment idx k)).
    rewrite Hfbw. apply Hfree.
  - intros i.
    change (is_dir (after_batch kind args idx features labels wb)
                   (resolve (feature_path kind args i)))
      with (is_dir wb (resolve (feature_path kind args i))).
    change (is_dir (after_batch kind args idx features labels wb)
                   (resolve (label_path kind args i)))
      with (is_dir wb (resolve (label_path kind args i))).
    split; (apply Hnodir; [apply Hwr|]); intros k;
      [apply feature_path_no_segment|apply label_path_no_segment].
Qed.

(** A pass of the dump returns. *)
Lemma dump_features_returns (loader : list (batch T)) :
  forall (idx : nat) w,
    dump_dir_free kind args w -> dump_writable kind args w ->
    forward_returns m loader ->
    returns (dump_features kind args m idx loader w).
Proof.
  unfold forward_returns.
  induction loader as [|[[images labels] audio] rest IH]; intros idx w Hf Hw Hr.
  - exists w. reflexivity.
  - destruct (@dump_step_ok images labels audio rest idx w Hf Hw)
      as [features [wb [Hstep [Hf' Hw']]]].
    { apply Hr with (labels := labels). left. reflexivity. }
    destruct (IH (S idx) _ Hf' Hw') as [w' Hrest].
    { intros i l a w0 Hin. apply Hr with (labels := l). right. exact Hin. }
    exists w'. exact (eq_trans Hstep Hrest).
Qed.

(** What a pass of the dump leaves as it was: the directories that existed
    still exist, every new directory lies on the way to the directory of
    the pass, and every file other than the files of the pass has the
    content it had. *)
Lemma dump_features_frame (loader : list (batch T)) :
  forall (idx : nat) w w',
    dump_features kind args m idx loader w = Ok w' ->
    (forall q, is_dir w q = true -> is_dir w' q = true) /\
    (forall q, is_dir w' q = true ->
               is_dir w q = true
               \/ exists k, q = firstn k (resolve (feature_dir kind args))) /\
    (forall q, ~ dump_written kind args idx (length loader) q ->
               find_file q (files w') = find_file q (files w)).
Proof.
  induction loader as [|[[images labels] audio] rest IH]; intros idx w w' Hd.
  - injection Hd as <-. repeat split; auto.
  - apply dump_step_inv in Hd.
    destruct Hd as [features [wa [wb [Hfw [Hens Hrest]]]]].
    destruct (Hquiet images audio w Hfw) as [Hda Hfa].
    destruct (ensure_dir_inv _ _ Hens) as [Hfb [_ [_ [H5 H6]]]].
    destruct (IH _ _ _ Hrest) as [I1 [I2 I3]].
    split; [|split].
    + intros q Hq. apply I1.
      change (is_dir wb q = true). apply H5.
      rewrite (@is_dir_ext T H wa w q Hda). exact Hq.
    + intros q Hq. destruct (I2 q Hq) as [Hb|Hseg]; [|right; exact Hseg].
      change (is_dir wb q = true) in Hb.
      destruct (H6 q Hb) as [Ha|Hseg]; [|right; exact Hseg].
      left. rewrite <- (@is_dir_ext T H wa w q Hda). exact Ha.
    + intros q Hq. simpl length in Hq.
      apply dump_written_step in Hq. destruct Hq as [Hqf [Hql Hq]].
      rewrite (I3 q Hq). unfold after_batch. cbn [files find_file].
      rewrite (proj2 (path_eqb_neq _ _) Hql).
      rewrite (proj2 (path_eqb_neq _ _) Hqf).
      congruence.
Qed.

(** What a pass of the dump that returns has written: for every batch, the
    output of a forward pass on it and its labels, in the two files of its
    index. *)
Lemma dump_features_contents (loader : list (batch T)) :
  forall (idx : nat) w w',
    dump_features kind args m idx loader w = Ok w' ->
    forall (k : nat) (images labels audio : T),
      nth_error loader k = Some (images, labels, audio) ->
      exists features w0 w1,
        forward m images audio w0 = Ok (features, w1) /\
        read_file w' (feature_path kind args (idx + k))
        = Some (TensorFile features) /\
        read_file w' (label_path kind args (idx + k))
        = Some (TensorFile labels).
Proof.
  induction loader as [|[[images0 labels0] audio0] rest IH];
    intros idx w w' Hd k images labels audio Hk.
  - destruct k; discriminate Hk.
  - apply dump_step_inv in Hd.
    destruct Hd as [features [wa [wb [Hfw [Hens Hrest]]]]].
    destruct k as [|k].
    + simpl in Hk. injection Hk as -> -> ->.
      rewrite Nat.add_0_r.
      destruct (dump_features_frame _ _ _ Hrest) as [_ [_ I3]].
      exists features, w, wa. split; [exact Hfw|]. unfold read_file. split.
      * rewrite I3.
        -- unfold after_batch. cbn [files find_file].
           rewrite (proj2 (path_eqb_neq _ _) (@feature_label_path_neq idx idx)).
           rewrite path_eqb_refl. reflexivity.
        -- intros [i [Hi [E|E]]].
           ++ apply feature_path_resolve_inj in E. lia.
           ++ exact (@feature_label_path_neq _ _ E).
      * rewrite I3.
        -- unfold after_batch. cbn [files find_file].
           rewrite path_eqb_refl. reflexivity.
        -- intros [i [Hi [E|E]]].
           ++ symmetry in E. exact (@feature_label_path_neq _ _ E).
           ++ apply label_path_resolve_inj in E. lia.
    + simpl in Hk. replace (idx + S k)%nat with (S idx + k)%nat by lia.
      exact (IH _ _ _ Hrest k images labels audio Hk).
Qed.

(** A pass leaves its own conditions as they are. *)
Lemma dump_features_keeps (loader : list (batch T)) (idx : nat) w w' :
  dump_features kind args m idx loader w = Ok w' ->
  dump_dir_free kind args w -> dump_writable kind args w ->
  dump_dir_free kind args w' /\ dump_writable kind args w'.
Proof.
  intros Hd Hfree Hwr.
  destruct (dump_features_frame _ _ _ Hd) as [_ [I2 I3]]. split.
  - intros k. rewrite (@is_file_find T H w w'); [apply Hfree|].
    apply I3. intros [i [_ [E|E]]].
    + exact (@feature_path_no_segment _ _ E).
    + exact (@label_path_no_segment _ _ E).
  - intros i. split.
    + destruct (is_dir w' (resolve (feature_path kind args i))) eqn:E;
        [|reflexivity].
      destruct (I2 _ E) as [Hw|[k Hk]]; [destruct (Hwr i); congruence|].
      symmetry in Hk. exfalso. exact (@feature_path_no_segment _ _ Hk).
    + destruct (is_dir w' (resolve (label_path kind args i))) eqn:E;
        [|reflexivity].
      destruct (I2 _ E) as [Hw|[k Hk]]; [destruct (Hwr i); congruence|].
      symmetry in Hk. exfalso. exact (@label_path_no_segment _ _ Hk).
Qed.

(** A pass leaves the conditions of a pass with another name as they are. *)
Lemma dump_features_other (kind2 : string) (loader : list (batch T))
      (idx : nat) w w' :
  no_slash kind2 = true -> kind <> kind2 ->
  dump_features kind args m idx loader w = Ok w' ->
  dump_dir_free kind2 args w -> dump_writable kind2 args w ->
  dump_dir_free kind2 args w' /\ dump_writable kind2 args w'.
Proof.
  intros Hk2 Hne Hd Hfree Hwr.
  destruct (dump_features_frame _ _ _ Hd) as [_ [I2 I3]].
  pose proof (features_kind_neq Hne) as Hne'.
  split.
  - intros k. rewrite (@is_file_find T H w w'); [apply Hfree|].
    apply I3. intros [i [_ [E|E]]].
    + rewrite resolve_feature_path, !resolve_feature_dir in E by assumption.
      exact (@segment_other _ _ _ _ _ Hne' E).
    + rewrite resolve_label_path, !resolve_feature_dir in E by assumption.
      exact (@segment_other _ _ _ _ _ Hne' E).
  - assert (Hno : forall q n,
               q = (resolve (feature_dir kind2 args) ++ [n])%list ->
               is_dir w q = false -> is_dir w' q = false).
    { intros q n Hq Hwq. destruct (is_dir w' q) eqn:E; [|reflexivity].
      destruct (I2 q E) as [Hw|[k Hseg]]; [congruence|].
      exfalso. rewrite Hq, !resolve_feature_dir in Hseg by assumption.
      symmetry in Hseg.
      assert (Hne2 : ("features_" ++ kind2)%string <> ("features_" ++ kind)%string)
        by (intros E'; apply Hne'; symmetry; exact E').
      exact (@segment_other _ _ _ _ _ Hne2 Hseg). }
    intros i. split.
    + apply (Hno _ (feature_name kind2 i)).
      * apply resolve_feature_path. exact Hk2.
      * apply Hwr.
    + apply (Hno _ (label_name kind2 i)).
      * apply resolve_label_path. exact Hk2.
      * apply Hwr.
Qed.

End Dump.
(** The paths of the two passes, written out: both depend on the command
    line through [--patch_size] alone. *)
Lemma feature_path_train (args : Args) (idx : nat) :
  feature_path "train" args idx
  = ("./features_train/" ++ str_of_Z (patch_size (cli args))
     ++ "//feature_train_" ++ zfill 5 (str_of_nat idx) ++ ".pth")%string.
Proof.
  unfold feature_path, feature_dir. simpl. rewrite !append_assoc. reflexivity.
Qed.

Lemma label_path_train (args : Args) (idx : nat) :
  label_path "train" args idx
  = ("./features_train/" ++ str_of_Z (patch_size (cli args))
     ++ "//label_train_" ++ zfill 5 (str_of_nat idx) ++ ".pth")%string.
Proof.
  unfold label_path, feature_dir. simpl. rewrite !append_assoc. reflexivity.
Qed.

Lemma feature_path_test (args : Args) (idx : nat) :
  feature_path "test" args idx
  = ("./features_test/" ++ str_of_Z (patch_size (cli args))
     ++ "//feature_test_" ++ zfill 5 (str_of_nat idx) ++ ".pth")%string.
Proof.
  unfold feature_path, feature_dir. simpl. rewrite !append_assoc. reflexivity.
Qed.

Lemma label_path_test (args : Args) (idx : nat) :
  label_path "test" args idx
  = ("./features_test/" ++ str_of_Z (patch_size (cli args))
     ++ "//label_test_" ++ zfill 5 (str_of_nat idx) ++ ".pth")%string.
Proof.
  unfold label_path, feature_dir. simpl. rewrite !append_assoc. reflexivity.
Qed.


(** In a world without files nothing is in the way of the dump, and in a
    world without directories no file of the dump is a directory. *)
Lemma dump_dir_free_no_files (T H : Type) (kind : string) (args : Args)
      (w : World T H) :
  files w = [] -> dump_dir_free kind args w.
Proof. intros Hf k. unfold is_file. rewrite Hf. reflexivity. Qed.

Lemma dump_writable_no_dirs (T H : Type) (kind : string) (args : Args)
      (w : World T H) :
  no_slash kind = true -> dirs w = [] -> dump_writable kind args w.
Proof.
  intros Hk Hd i.
  rewrite resolve_feature_path, resolve_label_path, resolve_feature_dir
    by exact Hk.
  unfold is_dir. rewrite Hd. split; reflexivity.
Qed.

(** C8, as the code has it. In a world where nothing on the way to the two
    directories of the dump is a regular file and no file of the dump is a
    directory, with a forward pass that returns on every batch and leaves
    the directories and the files as they are, the feature dump returns,
    and it leaves, for every batch index of the train loader, the output
    of the forward pass and the labels of the batch in the files
    [feature_train_<idx>.pth] and [label_train_<idx>.pth] of the directory
    [./features_train/<patch_size>/], and for every batch index of the
    validation loader in the files [feature_test_<idx>.pth] and
    [label_test_<idx>.pth] of [./features_test/<patch_size>/], the index
    written with at least five digits.  The directories depend on the
    command line through [--patch_size] only. *)
Theorem feature_dump_writes (T H : Type) (args : Args) (m : Model T H)
        (train_loader val_loader : list (batch T)) (w : World T H) :
  dump_dir_free "train" args w ->
  dump_dir_free "test" args w ->
  dump_writable "train" args w ->
  dump_writable "test" args w ->
  forward_keeps_files m ->
  forward_returns m train_loader ->
  forward_returns m val_loader ->
  exists w',
    feature_dump args m train_loader val_loader w = Ok w' /\
    (forall idx images labels audio,
        nth_error train_loader idx = Some (images, labels, audio) ->
        exists features w0 w1,
          forward m images audio w0 = Ok (features, w1) /\
          read_file w' ("./features_train/" ++ str_of_Z (patch_size (cli args))
                        ++ "//feature_train_" ++ zfill 5 (str_of_nat idx) ++ ".pth")
          = Some (TensorFile features) /\
          read_file w' ("./features_train/" ++ str_of_Z (patch_size (cli args))
                        ++ "//label_train_" ++ zfill 5 (str_of_nat idx) ++ ".pth")
          = Some (TensorFile labels)) /\
    (forall idx images labels audio,
        nth_error val_loader idx = Some (images, labels, audio) ->
        exists features w0 w1,
          forward m images audio w0 = Ok (features, w1) /\
          read_file w' ("./features_test/" ++ str_of_Z (patch_size (cli args))
                        ++ "//feature_test_" ++ zfill 5 (str_of_nat idx) ++ ".pth")
          = Some (TensorFile features) /\
          read_file w' ("./features_test/" ++ str_of_Z (patch_size (cli args))
                        ++ "//label_test_" ++ zfill 5 (str_of_nat idx) ++ ".pth")
          = Some (TensorFile labels)).
Proof.
  intros Hft Hfv Hwt Hwv Hq Hrt Hrv.
  assert (Hkt : no_slash "train" = true) by reflexivity.
  assert (Hkv : no_slash "test" = true) by reflexivity.
  assert (Hne : "train"%string <> "test"%string) by discriminate.
  destruct (@dump_features_returns T H "train" args m Hkt Hq train_loader 0%nat
              w Hft Hwt Hrt) as [w1 Hrun1].
  destruct (@dump_features_other T H "train" args m Hkt Hq "test" train_loader
              0%nat w w1 Hkv Hne Hrun1 Hfv Hwv) as [Hfv1 Hwv1].
  destruct (@dump_features_returns T H "test" args m Hkv Hq val_loader 0%nat
              w1 Hfv1 Hwv1 Hrv) as [w2 Hrun2].
  destruct (@dump_features_frame T H "test" args m Hq val_loader 0%nat
              w1 w2 Hrun2) as [_ [_ Hkeep2]].
  exists w2. split; [unfold feature_dump; rewrite Hrun1; exact Hrun2|]. split.
  - intros idx images labels audio Hn.
    destruct (@dump_features_contents T H "train" args m Hkt Hq train_loader
                0%nat w w1 Hrun1 idx images labels audio Hn)
      as [features [w0 [w0' [Hfw [Hf Hl]]]]].
    exists features, w0, w0'. split; [exact Hfw|].
    rewrite <- feature_path_train, <- label_path_train.
    unfold read_file in *. simpl Nat.add in Hf, Hl.
    rewrite !Hkeep2.
    + split; assumption.
    + intros [i [_ [E|E]]];
        rewrite ?resolve_label_path, ?resolve_feature_path,
          !resolve_feature_dir in E by reflexivity;
        apply app_inj_tail in E; destruct E as [E _]; discriminate E.
    + intros [i [_ [E|E]]];
        rewrite ?resolve_label_path, ?resolve_feature_path,
          !resolve_feature_dir in E by reflexivity;
        apply app_inj_tail in E; destruct E as [E _]; discriminate E.
  - intros idx images labels audio Hn.
    destruct (@dump_features_contents T H "test" args m Hkv Hq val_loader
                0%nat w1 w2 Hrun2 idx images labels audio Hn)
      as [features [w0 [w0' [Hfw [Hf Hl]]]]].
    exists features, w0, w0'. split; [exact Hfw|].
    rewrite <- feature_path_test, <- label_path_test. split; assumption.
Qed.

Lemma feature_dump_writes_witness :
  let args := mkArgs (example_cli "./out/" None "icbhi" "lungsound" false)
                     [120; 160]%Z 0 "icbhi_ast_ce" "./out/icbhi_ast_ce"
                     None None None None in
  exists w',
    feature_dump args example_model [(1, 2, 3)%nat] [(4, 5, 6)%nat] empty_world
    = Ok w' /\
    read_file w' "./features_train/16//feature_train_00000.pth"
    = Some (TensorFile 4%nat) /\
    read_file w' "./features_test/16//label_test_00000.pth"
    = Some (TensorFile 5%nat).
Proof.
  intros args.
  destruct (@feature_dump_writes nat unit args example_model
              [(1, 2, 3)%nat] [(4, 5, 6)%nat] empty_world)
    as [w' [Hrun [Htrain Hval]]].
  - intros k. reflexivity.
  - intros k. reflexivity.
  - apply dump_writable_no_dirs; reflexivity.
  - apply dump_writable_no_dirs; reflexivity.
  - intros x y w a w' E. injection E as _ <-. split; reflexivity.
  - intros x y z w _. eexists. reflexivity.
  - intros x y z w _. eexists. reflexivity.
  - exists w'. split; [exact Hrun|]. split.
    + destruct (Htrain 0%nat 1%nat 2%nat 3%nat eq_refl)
        as [f [w0 [w1 [Hf [H1 _]]]]].
      injection Hf as <- _. exact H1.
    + destruct (Hval 0%nat 4%nat 5%nat 6%nat eq_refl)
        as [f [w0 [w1 [_ [_ H2]]]]].
      exact H2.
Defined.

(** The run of [main] on the example command line with [--save_dir ./out/]
    leaves the features of the first train batch in the directory of the
    patch size. *)
Lemma main_example_feature_file :
  match main example_ext (example_cli "./out/" None "icbhi" "lungsound" false)
             empty_world with
  | Ok w' => find_file ["features_train"; "16"; "feature_train_00000.pth"]
                       (files w')
  | Raise _ => None
  end = Some (TensorFile 4%nat).
Proof. reflexivity. Qed.

(** C8 as stated fails: with [--save_dir ./out/] the run leaves the
    features of the first train batch in
    [./features_train/16//feature_train_00000.pth], which is not under
    [./out/]. *)
Lemma features_not_under_save_dir :
  ~ features_under_save_dir example_ext
      (example_cli "./out/" None "icbhi" "lungsound" false) empty_world.
Proof.
  intros Hu. unfold features_under_save_dir in Hu.
  pose proof main_example_feature_file as Hex.
  destruct (main example_ext _ empty_world) as [w'|e]; [|discriminate Hex].
  specialize (Hu w' _ _ eq_refl Hex). discriminate Hu.
Qed.
(** * Further properties of save_features.py *)

(** ** parse_args *)

(** What a return of [parse_args] says about each of its steps. *)
Lemma parse_args_inv (T St : Type) (ext : Externals T St) (c : Cli) (w : World T St)
      (args : Args) (w' : World T St) :
  parse_args ext c w = Ok (args, w') ->
  exists lr wu cl,
    map_result (py_int ext) (split_comma (lr_decay_epochs_arg c)) = Ok lr /\
    (if negb (isdir w (save_folder args))
     then makedirs (save_folder args) w else Ok w) = Ok w' /\
    warmup c = Ok wu /\
    class_names c = Ok cl /\
    args = mkArgs c lr (fst (fst wu)) (model_name args)
                  (path_join (save_dir c) (model_name args))
                  (snd (fst wu)) (snd wu) cl None.
Proof.
  unfold parse_args. intros H.
  destruct (map_result (py_int ext) (split_comma (lr_decay_epochs_arg c)))
    as [lr|e]; [|discriminate H].
  simpl in H.
  match type of H with
  | bind ?a _ = _ => destruct a as [[]|e]; [|discriminate H]
  end.
  simpl in H.
  match type of H with
  | bind ?a _ = _ => destruct a as [w1|e] eqn:Hmk; [|discriminate H]
  end.
  simpl in H.
  destruct (warmup c) as [wu|e]; [|discriminate H]. simpl in H.
  destruct (class_names c) as [cl|e]; [|discriminate H]. simpl in H.
  injection H as Ha Hw. subst w1. subst args. simpl.
  exists lr, wu, cl. repeat split; try reflexivity. exact Hmk.
Qed.

Lemma isdir_mono (T St : Type) (w w' : World T St) :
  (forall q, is_dir w q = true -> is_dir w' q = true) ->
  forall p, isdir w p = true -> isdir w' p = true.
Proof.
  intros Hm p. unfold isdir. intros Hp.
  apply andb_true_iff in Hp. destruct Hp as [Hn Hd].
  rewrite Hn, (Hm _ Hd). reflexivity.
Qed.

(** Lines 159-160, when they return: the directory exists, the directories
    that existed still exist, every new directory lies on the way to it,
    and nothing else has changed. *)
Lemma makedirs_if_missing (T St : Type) (w w' : World T St) (dir : string) :
  (if negb (isdir w dir) then makedirs dir w else Ok w) = Ok w' ->
  isdir w' dir = true /\
  (forall p, isdir w p = true -> isdir w' p = true) /\
  files w' = files w /\ stdout w' = stdout w /\ hidden w' = hidden w /\
  (forall q, is_dir w' q = true ->
             is_dir w q = true \/ exists k, q = firstn k (resolve dir)).
Proof.
  intros Hmk. destruct (isdir w dir) eqn:Hd; cbn [negb] in Hmk.
  - injection Hmk as <-. repeat split; auto.
  - unfold makedirs in Hmk.
    destruct (String.eqb dir "") eqn:Hne; [discriminate Hmk|].
    destruct (@makedirs_from_inv T St _ _ _ Hmk) as [H1 [H2 [H3 [H4 [H5 H6]]]]].
    rewrite rev_involutive in H4, H6.
    split; [unfold isdir; rewrite Hne, H4; reflexivity|].
    split; [apply isdir_mono; exact H5|].
    repeat split; assumption.
Qed.

(** X12. When [parse_args] returns, the save folder is the join of
    [--save_dir] and the model name and exists as a directory; the
    directories that existed before still exist, no file was written and
    nothing was printed; no start epoch is set. *)
Theorem parse_args_save_folder (T St : Type) (ext : Externals T St) (c : Cli)
        (w : World T St) (args : Args) (w' : World T St) :
  parse_args ext c w = Ok (args, w') ->
  save_folder args = path_join (save_dir c) (model_name args) /\
  isdir w' (save_folder args) = true /\
  (forall p, isdir w p = true -> isdir w' p = true) /\
  files w' = files w /\
  stdout w' = stdout w /\
  start_epoch args = None.
Proof.
  intros H.
  destruct (parse_args_inv ext c w H)
    as [lr [wu [cl [_ [Hmk [_ [_ Ha]]]]]]].
  destruct (makedirs_if_missing _ _ Hmk) as [H1 [H2 [H3 [H4 _]]]].
  split; [rewrite Ha at 1; reflexivity|].
  split; [exact H1|]. split; [exact H2|]. split; [exact H3|].
  split; [exact H4|]. rewrite Ha. reflexivity.
Qed.

Lemma parse_args_save_folder_witness :
  let c := example_cli "./out/" None "icbhi" "lungsound" false in
  let folder := "./out/icbhi_ast_ce_bs8_lr5e-5_ep50_seed1"%string in
  let args := mkArgs c [120; 160]%Z 0 "icbhi_ast_ce_bs8_lr5e-5_ep50_seed1" folder
                     None None (Some ["normal"; "crackle"; "wheeze"; "both"]%string)
                     None in
  let w' := mkWorld (T := nat)
              [["out"; "icbhi_ast_ce_bs8_lr5e-5_ep50_seed1"]; ["out"]]%string
              [] [] tt in
  save_folder args = path_join (save_dir c) (model_name args) /\
  isdir w' (save_folder args) = true /\
  (forall p, isdir empty_world p = true -> isdir w' p = true) /\
  files w' = files empty_world /\
  stdout w' = stdout empty_world /\
  start_epoch args = None.
Proof.
  intros c folder args w'.
  apply (@parse_args_save_folder nat unit example_ext c empty_world args w').
  reflexivity.
Defined.

(** X13. Whenever [parse_args] sets [args.cls_list], the list has [n_cls]
    class names, all different. *)
Theorem parse_args_cls_list (T St : Type) (ext : Externals T St) (c : Cli)
        (w : World T St) (args : Args) (w' : World T St) (names : list string) :
  parse_args ext c w = Ok (args, w') ->
  cls_list args = Some names ->
  Z.of_nat (length names) = n_cls c /\ NoDup names.
Proof.
  intros H Hl.
  destruct (parse_args_inv ext c w H)
    as [lr [wu [cl [_ [_ [_ [Hcl Ha]]]]]]].
  rewrite Ha in Hl. simpl in Hl. subst cl.
  unfold class_names in Hcl.
  destruct (String.eqb (dataset c) "icbhi"); [|discriminate Hcl].
  destruct (String.eqb (class_split c) "lungsound").
  - destruct (Z.eqb_spec (n_cls c) 4) as [E4|_].
    + injection Hcl as <-. split; [simpl; lia|].
      repeat constructor; simpl; intuition discriminate.
    + destruct (Z.eqb_spec (n_cls c) 2) as [E2|_]; [|discriminate Hcl].
      injection Hcl as <-. split; [simpl; lia|].
      repeat constructor; simpl; intuition discriminate.
  - destruct (String.eqb (class_split c) "diagnosis"); [|discriminate Hcl].
    destruct (Z.eqb_spec (n_cls c) 3) as [E3|_].
    + injection Hcl as <-. split; [simpl; lia|].
      repeat constructor; simpl; intuition discriminate.
    + destruct (Z.eqb_spec (n_cls c) 2) as [E2|_]; [|discriminate Hcl].
      injection Hcl as <-. split; [simpl; lia|].
      repeat constructor; simpl; intuition discriminate.
Qed.

Lemma parse_args_cls_list_witness :
  Z.of_nat (length ["normal"; "crackle"; "wheeze"; "both"]%string) = 4%Z /\
  NoDup ["normal"; "crackle"; "wheeze"; "both"]%string.
Proof.
  apply (@parse_args_cls_list nat unit example_ext
           (example_cli "./out/" None "icbhi" "lungsound" false) empty_world
           (mkArgs (example_cli "./out/" None "icbhi" "lungsound" false)
                   [120; 160]%Z 0 "icbhi_ast_ce_bs8_lr5e-5_ep50_seed1"
                   "./out/icbhi_ast_ce_bs8_lr5e-5_ep50_seed1"
                   None None (Some ["normal"; "crackle"; "wheeze"; "both"]%string)
                   None)
           (mkWorld (T := nat)
                    [["out"; "icbhi_ast_ce_bs8_lr5e-5_ep50_seed1"]; ["out"]]%string
                    [] [] tt)).
  - reflexivity.
  - reflexivity.
Defined.

(** X14. Over the reals: with [--warm], when [parse_args] returns, the
    warm-up lasts 10 epochs and starts from a tenth of the learning rate,
    and for a learning rate that is not negative and a decay rate in
    [0, 1] its target [warmup_to] lies between [eta_min = lr * rate^3] and
    the learning rate.  (The parser always sets [cosine], so the target is
    the value of line 167.) *)
Theorem parse_args_warmup_bounds (T St : Type) (ext : Externals T St) (c : Cli)
        (w : World T St) (args : Args) (w' : World T St) :
  parse_args ext c w = Ok (args, w') ->
  warm c = true ->
  0 <= learning_rate c ->
  0 <= lr_decay_rate c <= 1 ->
  warm_epochs args = 10%Z /\
  warmup_from args = Some (learning_rate c * 0.1) /\
  exists warmup_to_value,
    warmup_to args = Some warmup_to_value /\
    learning_rate c * lr_decay_rate c ^ 3 <= warmup_to_value <= learning_rate c.
Proof.
  intros H Hwarm Hlr Hrate.
  destruct (parse_args_inv ext c w H)
    as [lr [wu [cl [_ [_ [Hwu [_ Ha]]]]]]].
  assert (Hcube : 0 <= lr_decay_rate c ^ 3 <= 1).
  { split; [apply pow_le; lra|].
    rewrite <- (pow1 3). apply pow_incr. exact Hrate. }
  assert (Hmin : learning_rate c * lr_decay_rate c ^ 3 <= learning_rate c) by nra.
  unfold warmup in Hwu. rewrite Hwarm in Hwu.
  destruct (cosine c).
  - destruct (epochs c =? 0)%Z; [discriminate Hwu|].
    injection Hwu as <-. rewrite Ha. simpl.
    split; [reflexivity|]. split; [reflexivity|].
    eexists. split; [reflexivity|].
    pose proof (COS_bound (PI * 10 / IZR (epochs c))) as [Hc1 Hc2].
    set (x := cos _) in *. set (e := learning_rate c * _) in *.
    split; nra.
  - injection Hwu as <-. rewrite Ha. simpl.
    split; [reflexivity|]. split; [reflexivity|].
    eexists. split; [reflexivity|]. split; lra.
Qed.

Lemma parse_args_warmup_bounds_witness :
  let c := warm_cli 50 "ast" "ce" in
  let eta_min := learning_rate c * lr_decay_rate c ^ 3 in
  let args := mkArgs c [120; 160]%Z 10 "icbhi_ast_ce" "./out/icbhi_ast_ce"
                     (Some (learning_rate c * 0.1))
                     (Some (eta_min + (learning_rate c - eta_min)
                                      * (1 + cos (PI * IZR 10 / IZR 50)) / 2))
                     (Some ["normal"; "crackle"; "wheeze"; "both"]%string) None in
  warm_epochs args = 10%Z /\
  warmup_from args = Some (learning_rate c * 0.1) /\
  exists warmup_to_value,
    warmup_to args = Some warmup_to_value /\
    learning_rate c * lr_decay_rate c ^ 3 <= warmup_to_value <= learning_rate c.
Proof.
  intros c eta_min args.
  apply (@parse_args_warmup_bounds nat unit example_ext c empty_world args
           (mkWorld (T := nat) [["out"; "icbhi_ast_ce"]; ["out"]]%string
                    [] [] tt)).
  - reflexivity.
  - reflexivity.
  - simpl. lra.
  - simpl. lra.
Defined.

(** X15. With [--warm] and [--cosine], [--epochs 0] makes [parse_args]
    raise: line 168 divides by the number of epochs. *)
Theorem parse_args_warm_cosine_zero_epochs (T St : Type) (ext : Externals T St)
        (c : Cli) (w : World T St) :
  warm c = true -> cosine c = true -> epochs c = 0%Z ->
  raises (parse_args ext c w).
Proof.
  intros Hw Hc He. unfold parse_args.
  apply raises_bind. intros lr. apply raises_bind. intros _.
  apply raises_bind. intros w1.
  unfold warmup. rewrite Hw, Hc, He. simpl.
  exists ZeroDivisionError. reflexivity.
Qed.

Lemma parse_args_warm_cosine_zero_epochs_witness :
  raises (parse_args example_ext (warm_cli 0 "ast" "ce") empty_world).
Proof.
  apply (@parse_args_warm_cosine_zero_epochs nat unit example_ext
           (warm_cli 0 "ast" "ce") empty_world); reflexivity.
Defined.

(** X16. The methods ['patchmix'] and ['patchmix_cl'] with a model other
    than ['ast'] and ['ssast'] make [parse_args] raise. *)
Theorem parse_args_patchmix_needs_ast (T St : Type) (ext : Externals T St)
        (c : Cli) (w : World T St) :
  method c = "patchmix"%string \/ method c = "patchmix_cl"%string ->
  model c <> "ast"%string -> model c <> "ssast"%string ->
  raises (parse_args ext c w).
Proof.
  intros Hm H1 H2. unfold parse_args.
  apply raises_bind. intros lr.
  apply String.eqb_neq in H1. apply String.eqb_neq in H2.
  assert (Hmem : mem (method c) ["patchmix"; "patchmix_cl"]%string = true).
  { unfold mem. destruct Hm as [-> | ->]; reflexivity. }
  rewrite Hmem. unfold mem at 1. simpl existsb. rewrite H1, H2. simpl.
  exists AssertionError. reflexivity.
Qed.

Lemma parse_args_patchmix_needs_ast_witness :
  raises (parse_args example_ext (warm_cli 50 "resnet18" "patchmix")
                     empty_world).
Proof.
  apply (@parse_args_patchmix_needs_ast nat unit example_ext
           (warm_cli 50 "resnet18" "patchmix") empty_world).
  - left. reflexivity.
  - discriminate.
  - discriminate.
Defined.

Lemma map_result_length (A B : Type) (f : A -> result B) (l : list A)
      (r : list B) :
  map_result f l = Ok r -> length r = length l.
Proof.
  revert r. induction l as [|a l IH]; intros r H; simpl in H.
  - injection H as <-. reflexivity.
  - destruct (f a) as [b|e]; [|discriminate H]. simpl in H.
    destruct (map_result f l) as [bs|e]; [|discriminate H]. simpl in H.
    injection H as <-. simpl. f_equal. apply IH. reflexivity.
Qed.

Lemma split_comma_length (s : string) :
  length (split_comma s) = S (commas s).
Proof.
  induction s as [|a s IH]; simpl; [reflexivity|].
  destruct (Ascii.eqb a ","); simpl; [rewrite IH; reflexivity|].
  destruct (split_comma s) as [|h t]; simpl in *; [discriminate IH|exact IH].
Qed.

(** X17. When [parse_args] returns, [args.lr_decay_epochs] has one integer
    for each comma-separated item of the option: one more than the option
    has commas. *)
Theorem parse_args_lr_decay_epochs_length (T St : Type) (ext : Externals T St)
        (c : Cli) (w : World T St) (args : Args) (w' : World T St) :
  parse_args ext c w = Ok (args, w') ->
  length (lr_decay_epochs args) = S (commas (lr_decay_epochs_arg c)).
Proof.
  intros H.
  destruct (parse_args_inv ext c w H) as [lr [wu [cl [Hlr [_ [_ [_ Ha]]]]]]].
  rewrite Ha. simpl. rewrite (map_result_length _ _ Hlr).
  apply split_comma_length.
Qed.

Lemma parse_args_lr_decay_epochs_length_witness :
  length [120; 160]%Z = S (commas "120,160").
Proof.
  apply (@parse_args_lr_decay_epochs_length nat unit example_ext
           (example_cli "./out/" None "icbhi" "lungsound" false) empty_world
           (mkArgs (example_cli "./out/" None "icbhi" "lungsound" false)
                   [120; 160]%Z 0 "icbhi_ast_ce_bs8_lr5e-5_ep50_seed1"
                   "./out/icbhi_ast_ce_bs8_lr5e-5_ep50_seed1"
                   None None (Some ["normal"; "crackle"; "wheeze"; "both"]%string)
                   None)
           (mkWorld (T := nat)
                    [["out"; "icbhi_ast_ce_bs8_lr5e-5_ep50_seed1"]; ["out"]]%string
                    [] [] tt)).
  reflexivity.
Defined.
(** ** The weights of the criterion *)

Lemma criterion_weights_eq (class_nums : list Z) :
  criterion_weights class_nums
  = map (fun n =>
           1 / (IZR n / np_sum (map IZR class_nums))
           * / np_sum (map (fun n => 1 / (IZR n / np_sum (map IZR class_nums)))
                           class_nums))
        class_nums.
Proof.
  unfold criterion_weights. rewrite !map_map. reflexivity.
Qed.

(** X18. For positive class counts the weights of the weighted
    cross-entropy of [set_model] are positive, sum to 1 and are inversely
    proportional to the class counts: weight times count is the same for
    all classes. *)
Theorem criterion_weights_inverse_frequency (class_nums : list Z) (a b : nat) :
  Forall (fun n => (0 < n)%Z) class_nums ->
  (a < length class_nums)%nat -> (b < length class_nums)%nat ->
  np_sum (criterion_weights class_nums) = 1 /\
  0 < nth a (criterion_weights class_nums) 0 /\
  nth a (criterion_weights class_nums) 0 * IZR (nth a class_nums 0%Z)
  = nth b (criterion_weights class_nums) 0 * IZR (nth b class_nums 0%Z).
Proof.
  intros Hpos Ha Hb.
  assert (Hne : class_nums <> []) by (intros ->; simpl in Ha; lia).
  rewrite criterion_weights_eq.
  set (total := np_sum (map IZR class_nums)).
  set (f := fun n : Z => 1 / (IZR n / total)).
  assert (Htotal : 0 < total).
  { apply np_sum_pos; [exact Hne|].
    eapply Forall_impl; [|exact Hpos]. intros n Hn. apply IZR_lt. exact Hn. }
  assert (Hf : forall n, (0 < n)%Z -> 0 < f n).
  { intros n Hn. unfold f. apply IZR_lt in Hn.
    apply Rdiv_lt_0_compat; [lra|]. apply Rdiv_lt_0_compat; assumption. }
  assert (Hsum : 0 < np_sum (map f class_nums)).
  { apply np_sum_pos; [exact Hne|].
    eapply Forall_impl; [|exact Hpos]. exact Hf. }
  assert (Hnth : forall k, (k < length class_nums)%nat ->
            nth k (map (fun n => f n * / np_sum (map f class_nums)) class_nums) 0
            = f (nth k class_nums 0%Z) * / np_sum (map f class_nums)).
  { intros k Hk.
    rewrite (nth_indep _ 0 (f 0%Z * / np_sum (map f class_nums)))
      by (rewrite length_map; exact Hk).
    apply (map_nth (fun n => f n * / np_sum (map f class_nums))). }
  assert (Hin : forall k, (k < length class_nums)%nat ->
                          0 < IZR (nth k class_nums 0%Z)).
  { intros k Hk. apply IZR_lt. rewrite Forall_forall in Hpos.
    apply Hpos. apply nth_In. exact Hk. }
  split; [|split].
  - rewrite np_sum_scale.
    change (np_sum (map f class_nums) * / np_sum (map f class_nums) = 1).
    apply Rinv_r. lra.
  - rewrite Hnth by exact Ha. apply Rmult_lt_0_compat.
    + apply Hf. rewrite Forall_forall in Hpos. apply Hpos. apply nth_In. exact Ha.
    + apply Rinv_0_lt_compat. exact Hsum.
  - rewrite !Hnth by assumption.
    set (s := np_sum (map f class_nums)) in *. unfold f.
    pose proof (Hin a Ha). pose proof (Hin b Hb).
    field. repeat split; lra.
Qed.

Lemma criterion_weights_inverse_frequency_witness :
  np_sum (criterion_weights [2; 6]%Z) = 1 /\
  0 < nth 0 (criterion_weights [2; 6]%Z) 0 /\
  nth 0 (criterion_weights [2; 6]%Z) 0 * IZR (nth 0 [2; 6]%Z 0%Z)
  = nth 1 (criterion_weights [2; 6]%Z) 0 * IZR (nth 1 [2; 6]%Z 0%Z).
Proof.
  apply (@criterion_weights_inverse_frequency [2; 6]%Z 0%nat 1%nat).
  - repeat constructor.
  - simpl. lia.
  - simpl. lia.
Defined.

(** ** The keys of the pre-trained checkpoint *)

Lemma prefix_append (a s : string) : prefix a (a ++ s) = true.
Proof.
  induction a as [|c a IH]; simpl; [destruct s; reflexivity|].
  destruct (ascii_dec c c) as [_|N]; [exact IH|contradiction].
Qed.

Lemma contains_prefix (sub s : string) :
  prefix sub s = true -> contains sub s = true.
Proof.
  intros H. destruct s; simpl in *; rewrite H; reflexivity.
Qed.

(** The characters of a replaced occurrence are dropped. *)
Lemma replace_from_skip (old new a s : string) :
  replace_from old new (a ++ s) (String.length a) = replace_from old new s 0.
Proof.
  induction a as [|c a IH]; simpl; [reflexivity|exact IH].
Qed.

(** A string without an occurrence is left as it is. *)
Lemma replace_from_absent (old new s : string) :
  contains old s = false -> replace_from old new s 0 = s.
Proof.
  induction s as [|c s IH]; intros H; [reflexivity|].
  change (contains old (String c s))
    with (prefix old (String c s) || contains old s) in H.
  apply orb_false_iff in H. destruct H as [Hp Hc].
  change (replace_from old new (String c s) 0)
    with (if prefix old (String c s)
          then (new ++ replace_from old new s (String.length old - 1))%string
          else String c (replace_from old new s 0)).
  rewrite Hp, IH by exact Hc. reflexivity.
Qed.

(** An occurrence at the front is replaced, and the rest is searched. *)
Lemma replace_from_front (c : ascii) (old new s : string) :
  replace_from (String c old) new (String c old ++ s) 0
  = (new ++ replace_from (String c old) new s 0)%string.
Proof.
  change (String c old ++ s)%string with (String c (old ++ s)).
  change (replace_from (String c old) new (String c (old ++ s)) 0)
    with (if prefix (String c old) (String c (old ++ s))
          then (new ++ replace_from (String c old) new (old ++ s)
                         (String.length (String c old) - 1))%string
          else String c (replace_from (String c old) new (old ++ s) 0)).
  change (String c (old ++ s)) with (String c old ++ s)%string.
  rewrite prefix_append.
  change (String.length (String c old) - 1)%nat with (String.length old - 0)%nat.
  rewrite Nat.sub_0_r, replace_from_skip. reflexivity.
Qed.

Lemma contains_module_backbone (k : string) :
  contains "module." ("backbone." ++ k) = contains "module." k.
Proof. reflexivity. Qed.

Lemma rename_key_prefixed (p k : string) :
  p = "module."%string \/ p = "backbone."%string
  \/ p = "module.backbone."%string ->
  clean_key k ->
  rename_key (p ++ k) = k.
Proof.
  intros Hp [Hm Hb]. unfold rename_key, replace.
  destruct Hp as [-> | [-> | ->]].
  - rewrite (contains_prefix _ _ (prefix_append "module." k)).
    rewrite replace_from_front, (replace_from_absent _ _ _ Hm).
    change ("" ++ k)%string with k. rewrite Hb. reflexivity.
  - rewrite contains_module_backbone, Hm.
    rewrite (contains_prefix _ _ (prefix_append "backbone." k)).
    rewrite replace_from_front, (replace_from_absent _ _ _ Hb). reflexivity.
  - change ("module.backbone." ++ k)%string
      with ("module." ++ ("backbone." ++ k))%string.
    rewrite (contains_prefix _ _ (prefix_append "module." ("backbone." ++ k))).
    rewrite replace_from_front.
    rewrite replace_from_absent by (rewrite contains_module_backbone; exact Hm).
    change ("" ++ ("backbone." ++ k))%string with ("backbone." ++ k)%string.
    rewrite (contains_prefix _ _ (prefix_append "backbone." k)).
    rewrite replace_from_front, (replace_from_absent _ _ _ Hb). reflexivity.
Qed.

Lemma dict_set_fresh (T : Type) (k : string) (v : T) (d : state_dict T) :
  ~ In k (keys d) -> dict_set k v d = (d ++ [(k, v)])%list.
Proof.
  induction d as [|[k' v'] d IH]; intros Hk; simpl; [reflexivity|].
  destruct (String.eqb_spec k k') as [->|Hne].
  - exfalso. apply Hk. left. reflexivity.
  - f_equal. apply IH. intros Hin. apply Hk. right. exact Hin.
Qed.

Lemma rename_keys_fold (T : Type) (p : string) (sd : state_dict T) :
  p = "module."%string \/ p = "backbone."%string
  \/ p = "module.backbone."%string ->
  Forall clean_key (keys sd) ->
  forall acc : state_dict T,
    NoDup (keys acc ++ keys sd) ->
    fold_left (fun new kv => dict_set (rename_key (fst kv)) (snd kv) new)
              (map (fun kv => ((p ++ fst kv)%string, snd kv)) sd) acc
    = (acc ++ sd)%list.
Proof.
  intros Hp. induction sd as [|[k v] sd IH]; intros Hclean acc Hnd; simpl.
  - rewrite app_nil_r. reflexivity.
  - inversion Hclean as [|? ? Hk Hrest]; subst.
    rewrite (rename_key_prefixed Hp Hk).
    rewrite dict_set_fresh.
    + rewrite IH; [rewrite <- app_assoc; reflexivity|exact Hrest|].
      unfold keys in *. rewrite map_app, <- app_assoc. exact Hnd.
    + simpl in Hnd. apply NoDup_remove_2 in Hnd.
      intros Hin. apply Hnd. apply in_or_app. left. exact Hin.
Qed.

(** X19. Lines 283-291 undo the prefixes: a state dictionary whose keys,
    all different and without ['module.'] and ['backbone.'] inside, were
    saved behind the prefix ['module.'] of [DataParallel], ['backbone.'] or
    ['module.backbone.'] comes back with its own keys, values and order. *)
Theorem rename_keys_strips_prefix (T : Type) (sd : state_dict T) (p : string) :
  p = "module."%string \/ p = "backbone."%string
  \/ p = "module.backbone."%string ->
  NoDup (keys sd) ->
  Forall clean_key (keys sd) ->
  rename_keys (map (fun kv => ((p ++ fst kv)%string, snd kv)) sd) = sd.
Proof.
  intros Hp Hnd Hclean. unfold rename_keys.
  rewrite (@rename_keys_fold T p sd Hp Hclean []); [reflexivity|exact Hnd].
Qed.

Lemma rename_keys_strips_prefix_witness :
  rename_keys (map (fun kv => (("module." ++ fst kv)%string, snd kv))
                   [("v.weight"%string, 1%nat); ("v.bias"%string, 2%nat)])
  = [("v.weight"%string, 1%nat); ("v.bias"%string, 2%nat)].
Proof.
  apply (@rename_keys_strips_prefix nat
           [("v.weight"%string, 1%nat); ("v.bias"%string, 2%nat)] "module.").
  - left. reflexivity.
  - repeat constructor; simpl; intuition discriminate.
  - repeat constructor.
Defined.

(** ** The files of the feature dump *)

(** X20. No two files of the dump share a path: the paths of two batches,
    of a feature file and a label file, and of the train pass and the test
    pass are all different, also from the batch index 100000 on, where
    [zfill(5)] pads no more. *)
Theorem dump_paths_distinct (args : Args) (k1 k2 : string) (i j : nat) :
  k1 = "train"%string \/ k1 = "test"%string ->
  k2 = "train"%string \/ k2 = "test"%string ->
  (feature_path k1 args i = feature_path k2 args j -> k1 = k2 /\ i = j) /\
  (label_path k1 args i = label_path k2 args j -> k1 = k2 /\ i = j) /\
  feature_path k1 args i <> label_path k2 args j.
Proof.
  intros H1 H2.
  destruct H1 as [-> | ->]; destruct H2 as [-> | ->].
  - split; [|split].
    + intros H. split; [reflexivity|]. apply feature_path_inj in H. exact H.
    + intros H. split; [reflexivity|]. apply label_path_inj in H. exact H.
    + apply feature_label_neq.
  - rewrite feature_path_train, label_path_train,
      feature_path_test, label_path_test.
    split; [|split]; intros H; simpl in H; discriminate H.
  - rewrite feature_path_train, label_path_train,
      feature_path_test, label_path_test.
    split; [|split]; intros H; simpl in H; discriminate H.
  - split; [|split].
    + intros H. split; [reflexivity|]. apply feature_path_inj in H. exact H.
    + intros H. split; [reflexivity|]. apply label_path_inj in H. exact H.
    + apply feature_label_neq.
Qed.

Lemma dump_paths_distinct_witness :
  let args := mkArgs (example_cli "./out/" None "icbhi" "lungsound" false)
                     [120; 160]%Z 0 "icbhi_ast_ce" "./out/icbhi_ast_ce"
                     None None None None in
  (feature_path "train" args 7 = feature_path "test" args 12 ->
   "train"%string = "test"%string /\ 7%nat = 12%nat) /\
  (label_path "train" args 7 = label_path "test" args 12 ->
   "train"%string = "test"%string /\ 7%nat = 12%nat) /\
  feature_path "train" args 7 <> label_path "test" args 12.
Proof.
  intros args.
  apply (@dump_paths_distinct args "train" "test" 7 12).
  - left. reflexivity.
  - right. reflexivity.
Defined.

(** ** What the feature dump leaves as it was *)

Lemma feature_dump_inv (T St : Type) (args : Args) (m : Model T St)
      (train_loader val_loader : list (batch T)) (w w' : World T St) :
  feature_dump args m train_loader val_loader w = Ok w' ->
  exists w1,
    dump_features "train" args m 0 train_loader w = Ok w1 /\
    dump_features "test" args m 0 val_loader w1 = Ok w'.
Proof.
  unfold feature_dump. intros Hd.
  destruct (dump_features "train" args m 0 train_loader w) as [w1|e];
    [|discriminate Hd].
  exists w1. split; [reflexivity|exact Hd].
Qed.

Lemma example_model_keeps_files : forward_keeps_files example_model.
Proof. intros x y w a w' E. injection E as _ <-. split; reflexivity. Qed.

(** The two passes together. *)
Lemma feature_dump_passes (T St : Type) (args : Args) (m : Model T St)
      (train_loader val_loader : list (batch T)) (w w' : World T St) :
  forward_keeps_files m ->
  feature_dump args m train_loader val_loader w = Ok w' ->
  (forall q, is_dir w q = true -> is_dir w' q = true) /\
  (forall q, is_dir w' q = true ->
             is_dir w q = true
             \/ (exists k, q = firstn k (resolve (feature_dir "train" args)))
             \/ (exists k, q = firstn k (resolve (feature_dir "test" args)))) /\
  (forall q, ~ dump_written "train" args 0 (length train_loader) q ->
             ~ dump_written "test" args 0 (length val_loader) q ->
             find_file q (files w') = find_file q (files w)).
Proof.
  intros Hq Hd. destruct (feature_dump_inv _ _ _ _ _ Hd) as [w1 [H1 H2]].
  destruct (@dump_features_frame T St "train" args m Hq _ _ _ _ H1)
    as [Hm1 [Hn1 Hk1]].
  destruct (@dump_features_frame T St "test" args m Hq _ _ _ _ H2)
    as [Hm2 [Hn2 Hk2]].
  split; [|split].
  - intros q Hw. apply Hm2. apply Hm1. exact Hw.
  - intros q Hw. destruct (Hn2 q Hw) as [Hw1|Hs]; [|right; right; exact Hs].
    destruct (Hn1 q Hw1) as [Hw0|Hs]; [left; exact Hw0|right; left; exact Hs].
  - intros q Ht Hv. rewrite (Hk2 q Hv). apply Hk1. exact Ht.
Qed.

(** X21. With a forward pass that leaves the directories and the files as
    they are, when the feature dump returns, every directory that existed
    still exists, every new directory is [./features_train],
    [./features_train/<patch_size>], [./features_test] or
    [./features_test/<patch_size>], and no file other than the feature and
    label files of the batches of the two loaders was written or
    changed. *)
Theorem feature_dump_frame (T St : Type) (args : Args) (m : Model T St)
        (train_loader val_loader : list (batch T)) (w w' : World T St) :
  forward_keeps_files m ->
  feature_dump args m train_loader val_loader w = Ok w' ->
  (forall q, is_dir w q = true -> is_dir w' q = true) /\
  (forall q, is_dir w' q = true ->
             is_dir w q = true
             \/ (exists k, q = firstn k ("features_train"%string :: patch_dir args))
             \/ (exists k, q = firstn k ("features_test"%string :: patch_dir args))) /\
  (forall q, ~ dump_written "train" args 0 (length train_loader) q ->
             ~ dump_written "test" args 0 (length val_loader) q ->
             find_file q (files w') = find_file q (files w)).
Proof.
  intros Hq Hd.
  pose proof (@feature_dump_passes T St args m train_loader val_loader w w'
                Hq Hd) as Hp.
  rewrite (@resolve_feature_dir "train" args) in Hp by reflexivity.
  rewrite (@resolve_feature_dir "test" args) in Hp by reflexivity.
  exact Hp.
Qed.

Lemma feature_dump_frame_witness :
  let args := mkArgs (example_cli "./out/" None "icbhi" "lungsound" false)
                     [120; 160]%Z 0 "icbhi_ast_ce" "./out/icbhi_ast_ce"
                     None None None None in
  let w' := mkWorld
              [["features_test"; "16"]; ["features_test"];
               ["features_train"; "16"]; ["features_train"]]%string
              [(["features_test"; "16"; "label_test_00000.pth"]%string,
                TensorFile 5%nat);
               (["features_test"; "16"; "feature_test_00000.pth"]%string,
                TensorFile 10%nat);
               (["features_train"; "16"; "label_train_00000.pth"]%string,
                TensorFile 2%nat);
               (["features_train"; "16"; "feature_train_00000.pth"]%string,
                TensorFile 4%nat)]
              [] tt in
  (forall q, is_dir empty_world q = true -> is_dir w' q = true) /\
  (forall q, is_dir w' q = true ->
             is_dir empty_world q = true
             \/ (exists k, q = firstn k ("features_train"%string :: patch_dir args))
             \/ (exists k, q = firstn k ("features_test"%string :: patch_dir args))) /\
  (forall q, ~ dump_written "train" args 0 (length [(1, 2, 3)%nat]) q ->
             ~ dump_written "test" args 0 (length [(4, 5, 6)%nat]) q ->
             find_file q (files w') = find_file q (files empty_world)).
Proof.
  intros args w'.
  apply (@feature_dump_frame nat unit args example_model [(1, 2, 3)%nat]
           [(4, 5, 6)%nat] empty_world w').
  - intros x y w a w0 E. injection E as _ <-. split; reflexivity.
  - reflexivity.
Defined.

(** ** Running the dump again *)

(** X22. On a world where the dump can write its files, with a forward pass
    that returns and leaves the directories and the files as they are, the
    dump can be run again over its own output, with the batches in another
    order or with other batches: the second run returns as well (the
    directories that exist are no obstacle), and it changes no file other
    than the feature and label files of its own batches. *)
Theorem feature_dump_twice (T St : Type) (args : Args) (m : Model T St)
        (train_loader val_loader train_loader2 val_loader2 : list (batch T))
        (w : World T St) :
  dump_dir_free "train" args w ->
  dump_dir_free "test" args w ->
  dump_writable "train" args w ->
  dump_writable "test" args w ->
  forward_keeps_files m ->
  forward_returns m train_loader ->
  forward_returns m val_loader ->
  forward_returns m train_loader2 ->
  forward_returns m val_loader2 ->
  exists w1 w2,
    feature_dump args m train_loader val_loader w = Ok w1 /\
    feature_dump args m train_loader2 val_loader2 w1 = Ok w2 /\
    forall q, ~ dump_written "train" args 0 (length train_loader2) q ->
              ~ dump_written "test" args 0 (length val_loader2) q ->
              find_file q (files w2) = find_file q (files w1).
Proof.
  intros Hft Hfv Hwt Hwv Hq Hrt Hrv Hrt2 Hrv2.
  assert (Hkt : no_slash "train" = true) by reflexivity.
  assert (Hkv : no_slash "test" = true) by reflexivity.
  assert (Hne : "train"%string <> "test"%string) by discriminate.
  assert (Hne' : "test"%string <> "train"%string) by discriminate.
  assert (Hrun : forall tl vl w0,
             dump_dir_free "train" args w0 -> dump_dir_free "test" args w0 ->
             dump_writable "train" args w0 -> dump_writable "test" args w0 ->
             forward_returns m tl -> forward_returns m vl ->
             exists w3, feature_dump args m tl vl w0 = Ok w3 /\
                        dump_dir_free "train" args w3 /\
                        dump_dir_free "test" args w3 /\
                        dump_writable "train" args w3 /\
                        dump_writable "test" args w3).
  { intros tl vl w0 Gft Gfv Gwt Gwv Grt Grv.
    destruct (@dump_features_returns T St "train" args m Hkt Hq tl 0%nat
                w0 Gft Gwt Grt) as [wa Hrun1].
    destruct (@dump_features_keeps T St "train" args m Hkt Hq tl 0%nat
                w0 wa Hrun1 Gft Gwt) as [Gft1 Gwt1].
    destruct (@dump_features_other T St "train" args m Hkt Hq "test" tl
                0%nat w0 wa Hkv Hne Hrun1 Gfv Gwv) as [Gfv1 Gwv1].
    destruct (@dump_features_returns T St "test" args m Hkv Hq vl 0%nat
                wa Gfv1 Gwv1 Grv) as [wb Hrun2].
    destruct (@dump_features_keeps T St "test" args m Hkv Hq vl 0%nat
                wa wb Hrun2 Gfv1 Gwv1) as [Gfv2 Gwv2].
    destruct (@dump_features_other T St "test" args m Hkv Hq "train" vl
                0%nat wa wb Hkt Hne' Hrun2 Gft1 Gwt1) as [Gft2 Gwt2].
    exists wb. split; [unfold feature_dump; rewrite Hrun1; exact Hrun2|].
    split; [exact Gft2|]. split; [exact Gfv2|]. split; [exact Gwt2|exact Gwv2]. }
  destruct (Hrun train_loader val_loader w Hft Hfv Hwt Hwv Hrt Hrv)
    as [w1 [Hrun1 [Hft1 [Hfv1 [Hwt1 Hwv1]]]]].
  destruct (Hrun train_loader2 val_loader2 w1 Hft1 Hfv1 Hwt1 Hwv1 Hrt2 Hrv2)
    as [w2 [Hrun2 _]].
  exists w1, w2. split; [exact Hrun1|]. split; [exact Hrun2|].
  destruct (@feature_dump_passes T St args m train_loader2 val_loader2 w1 w2
              Hq Hrun2) as [_ [_ Hk]]. exact Hk.
Qed.

Lemma feature_dump_twice_witness :
  let args := mkArgs (example_cli "./out/" None "icbhi" "lungsound" false)
                     [120; 160]%Z 0 "icbhi_ast_ce" "./out/icbhi_ast_ce"
                     None None None None in
  exists w1 w2,
    feature_dump args example_model [(1, 2, 3)%nat] [(4, 5, 6)%nat] empty_world
    = Ok w1 /\
    feature_dump args example_model [(7, 8, 9); (1, 2, 3)]%nat [(4, 5, 6)%nat] w1
    = Ok w2 /\
    forall q, ~ dump_written "train" args 0 (length [(7, 8, 9); (1, 2, 3)]%nat) q ->
              ~ dump_written "test" args 0 (length [(4, 5, 6)%nat]) q ->
              find_file q (files w2) = find_file q (files w1).
Proof.
  intros args.
  apply (@feature_dump_twice nat unit args example_model [(1, 2, 3)%nat]
           [(4, 5, 6)%nat] [(7, 8, 9); (1, 2, 3)]%nat [(4, 5, 6)%nat]
           empty_world).
  - intros k. reflexivity.
  - intros k. reflexivity.
  - apply dump_writable_no_dirs; reflexivity.
  - apply dump_writable_no_dirs; reflexivity.
  - intros x y w a w0 E. injection E as _ <-. split; reflexivity.
  - intros x y z w _. eexists. reflexivity.
  - intros x y z w _. eexists. reflexivity.
  - intros x y z w _. eexists. reflexivity.
  - intros x y z w _. eexists. reflexivity.
Defined.

(** ** Resuming *)

(** What lines 341-353 do when they return: only the start epoch of the
    arguments changes, the forward pass of the model is the same, and the
    files and directories stay as they are. *)
Lemma resume_checkpoint_inv (T St : Type) (args : Args) (m : Model T St)
      (optimizer : state_dict T) (w : World T St)
      (args' : Args) (m' : Model T St) (optimizer' : state_dict T)
      (w' : World T St) :
  resume_checkpoint args m optimizer w = Ok (args', m', optimizer', w') ->
  cli args' = cli args /\ save_folder args' = save_folder args /\
  files w' = files w /\ dirs w' = dirs w /\ forward m' = forward m /\
  ((exists path, resume (cli args) = Some path /\ truthy path = true /\
                 isfile w path = false /\ args' = args) \/
   (exists path ck epoch,
       resume (cli args) = Some path /\ truthy path = true /\
       isfile w path = true /\ torch_load w path = Ok ck /\
       ck_epoch ck = Some epoch /\ ck_optimizer ck = Some optimizer' /\
       args' = set_start_epoch (epoch + 1) (set_start_epoch epoch args)) \/
   ((resume (cli args) = None \/ resume (cli args) = Some ""%string) /\
    args' = set_start_epoch 1 args)).
Proof.
  unfold resume_checkpoint. intros Hr0.
  destruct (resume (cli args)) as [path|] eqn:Hr.
  - destruct (truthy path) eqn:Ht.
    + destruct (isfile w path) eqn:Hf.
      * change (torch_load (print (Text ("=> loading checkpoint '" ++ path ++ "'")) w) path)
          with (torch_load w path) in Hr0.
        destruct (torch_load w path) as [ck|e] eqn:Hl; [|discriminate Hr0].
        cbn [bind] in Hr0.
        destruct (ck_epoch ck) as [epoch|] eqn:He; [|discriminate Hr0].
        cbn [bind getitem] in Hr0.
        destruct (ck_model ck) as [sd|]; [|discriminate Hr0].
        cbn [bind getitem] in Hr0.
        destruct (load_state_dict true (params m) sd) as [r|e];
          [|discriminate Hr0].
        cbn [bind] in Hr0.
        destruct (ck_optimizer ck) as [o|] eqn:Ho; [|discriminate Hr0].
        cbn [bind getitem] in Hr0. injection Hr0 as <- <- <- <-.
        repeat (split; [reflexivity|]).
        right. left. exists path, ck, epoch.
        repeat split; (reflexivity || assumption).
      * injection Hr0 as <- <- <- <-.
        repeat (split; [reflexivity|]).
        left. exists path. repeat split; (reflexivity || assumption).
    + injection Hr0 as <- <- <- <-.
      repeat (split; [reflexivity|]).
      right. right. split; [|reflexivity]. right.
      unfold truthy in Ht. apply negb_false_iff in Ht.
      apply String.eqb_eq in Ht. rewrite Ht. reflexivity.
  - injection Hr0 as <- <- <- <-.
    repeat (split; [reflexivity|]).
    right. right. split; [left|]; reflexivity.
Qed.

(** What [torch.load] returns is the checkpoint of the file at the path. *)
Lemma torch_load_reads (T St : Type) (w : World T St) (path : string)
      (ck : checkpoint T) :
  torch_load w path = Ok ck -> read_file w path = Some (CheckpointFile ck).
Proof.
  unfold torch_load, read_file. intros Hl.
  destruct (String.eqb path ""); [discriminate Hl|].
  destruct (blocked w (resolve path)); [discriminate Hl|].
  destruct (is_dir w (resolve path)); [discriminate Hl|].
  destruct (find_file (resolve path) (files w)) as [f|]; [|discriminate Hl].
  destruct (dir_only path); [discriminate Hl|].
  destruct f as [c| |]; try discriminate Hl.
  injection Hl as ->. reflexivity.
Qed.

(** X23. When lines 341-353 return, the start epoch is 1 without
    [--resume], the epoch of the checkpoint plus one when the checkpoint
    was loaded (and the optimizer state is the one of the checkpoint), and
    stays unset exactly when the checkpoint file is missing. *)
Theorem resume_checkpoint_start_epoch (T St : Type) (args : Args)
        (m : Model T St) (optimizer : state_dict T) (w : World T St)
        (args' : Args) (m' : Model T St) (optimizer' : state_dict T)
        (w' : World T St) :
  resume_checkpoint args m optimizer w = Ok (args', m', optimizer', w') ->
  start_epoch args = None ->
  match resume (cli args) with
  | None => start_epoch args' = Some 1%Z
  | Some path =>
      if truthy path then
        if isfile w path then
          exists ck epoch,
            read_file w path = Some (CheckpointFile ck) /\
            ck_epoch ck = Some epoch /\
            start_epoch args' = Some (epoch + 1)%Z /\
            ck_optimizer ck = Some optimizer'
        else start_epoch args' = None
      else start_epoch args' = Some 1%Z
  end.
Proof.
  intros Hr0 Hs.
  destruct (resume_checkpoint_inv _ _ _ _ Hr0)
    as [_ [_ [_ [_ [_ [Hmiss | [Hload | Hnone]]]]]]].
  - destruct Hmiss as [path [Hr [Ht [Hf Ha]]]].
    rewrite Hr, Ht, Hf, Ha. exact Hs.
  - destruct Hload as [path [ck [epoch [Hr [Ht [Hf [Hl [He [Ho Ha]]]]]]]]].
    rewrite Hr, Ht, Hf. exists ck, epoch.
    split; [|split; [exact He|split; [rewrite Ha; reflexivity|exact Ho]]].
    apply torch_load_reads. exact Hl.
  - destruct Hnone as [[Hr|Hr] Ha]; rewrite Hr, Ha; reflexivity.
Qed.

Lemma resume_checkpoint_start_epoch_witness :
  let c := example_cli "./save/" (Some "last.pth") "icbhi" "lungsound" false in
  let args := mkArgs c [120; 160]%Z 0 "icbhi_ast_ce" "./save/icbhi_ast_ce"
                     None None None None in
  let ck := mkCheckpoint (Some 7%Z) (Some [("v.weight"%string, 3%nat)])
                         (Some [("lr"%string, 5%nat)]) in
  let w := mkWorld [] [(["last.pth"%string], CheckpointFile ck)] [] tt in
  exists ck' epoch,
    read_file w "last.pth" = Some (CheckpointFile ck') /\
    ck_epoch ck' = Some epoch /\
    start_epoch (set_start_epoch 8 args) = Some (epoch + 1)%Z /\
    ck_optimizer ck' = Some [("lr"%string, 5%nat)].
Proof.
  intros c args ck w.
  apply (@resume_checkpoint_start_epoch nat unit args example_model [] w
           (set_start_epoch 8 args)
           (mkModel [("v.weight"%string, 3%nat)] (forward example_model))
           [("lr"%string, 5%nat)]
           (print (Text "=> loaded checkpoint 'last.pth' (epoch 7)")
                  (print (Text "=> loading checkpoint 'last.pth'") w))).
  - reflexivity.
  - reflexivity.
Defined.

(** ** The files of a run *)

Lemma load_pretrained_world (T St : Type) (args : Args) (m m' : Model T St)
      (w w' : World T St) :
  load_pretrained args m w = Ok (m', w') ->
  files w' = files w /\ dirs w' = dirs w /\ forward m' = forward m.
Proof.
  unfold load_pretrained. intros Hl.
  destruct (pretrained (cli args));
    [|injection Hl as <- <-; repeat split; reflexivity].
  destruct (pretrained_ckpt (cli args)) as [path|];
    [|injection Hl as <- <-; repeat split; reflexivity].
  destruct (torch_load w path) as [ck|e]; [|discriminate Hl].
  cbn [bind] in Hl.
  destruct (ck_model ck) as [sd|]; [|discriminate Hl].
  cbn [bind getitem] in Hl.
  destruct (load_state_dict false (params m) (rename_keys sd)) as [r|e];
    [|discriminate Hl].
  cbn [bind] in Hl. injection Hl as <- <-. repeat split; reflexivity.
Qed.

(** With externals that leave the directories and the files as they are,
    so does [set_model], and so does the model it returns. *)
Lemma set_model_world (T St : Type) (ext : Externals T St) (args : Args)
      (w : World T St) (m : Model T St) (optimizer : state_dict T)
      (w' : World T St) :
  externals_keep_files ext ->
  set_model ext args w = Ok (m, optimizer, w') ->
  files w' = files w /\ dirs w' = dirs w /\ forward_keeps_files m.
Proof.
  intros [_ [Hbb [Hbf [Hsl [Hsf Hopt]]]]].
  unfold set_model. intros Hs.
  destruct (get_backbone ext args w) as [[m0 w0]|e] eqn:Hb; [|discriminate Hs].
  cbn [bind fst snd] in Hs.
  destruct (Hbb args w m0 w0 Hb) as [Hd0 Hf0].
  pose proof (Hbf args w m0 w0 Hb) as Hq0.
  match type of Hs with
  | bind ?a _ = _ =>
      assert (Hmw : forall mw, a = Ok mw ->
                               files (snd mw) = files w /\ dirs (snd mw) = dirs w
                               /\ forward_keeps_files (fst mw));
      [|destruct a as [[m1 w1]|e] eqn:Ha; [|discriminate Hs]]
  end.
  { destruct (negb (mem (model (cli args)) ["ast"; "ssast"]%string)
              && from_sl_official (cli args)).
    - destruct (load_sl_official_weights ext m0 w0) as [[m1 w1]|e] eqn:Hsl0;
        intros mw Hmw; [|discriminate Hmw].
      cbn [bind fst snd] in Hmw. injection Hmw as <-. cbn [fst snd print files dirs].
      destruct (Hsl m0 w0 m1 w1 Hsl0) as [Hd1 Hf1].
      split; [congruence|]. split; [congruence|].
      exact (Hsf m0 w0 m1 w1 Hsl0 Hq0).
    - intros mw Hmw. injection Hmw as <-. cbn [fst snd].
      split; [exact Hf0|]. split; [exact Hd0|exact Hq0]. }
  destruct (Hmw _ eq_refl) as [Hf1 [Hd1 Hq1]]. cbn [fst snd] in Hf1, Hd1, Hq1.
  cbn [bind fst snd] in Hs.
  destruct (load_pretrained args m1 w1) as [[m2 w2]|e] eqn:Hl;
    [|discriminate Hs].
  cbn [bind fst snd] in Hs.
  destruct (load_pretrained_world _ _ _ Hl) as [Hf2 [Hd2 Hfw2]].
  match type of Hs with
  | bind (set_optimizer ext args ?p w2) _ = _ =>
      destruct (set_optimizer ext args p w2) as [[o w3]|e] eqn:Ho;
      [|discriminate Hs];
      destruct (Hopt args p w2 o w3 Ho) as [Hd3 Hf3]
  end.
  cbn [bind fst snd] in Hs. injection Hs as <- _ <-.
  split; [congruence|]. split; [congruence|].
  assert (Hq2 : forward_keeps_files m2).
  { unfold forward_keeps_files. rewrite Hfw2. exact Hq1. }
  destruct (1 <? device_count ext)%nat; [|exact Hq2].
  exact Hq2.
Qed.

(** What a return of [main] says about each of its steps. *)
Lemma main_inv (T St : Type) (ext : Externals T St) (c : Cli)
      (w w' : World T St) :
  main ext c w = Ok w' ->
  exists args w0 w1 train_loader val_loader wl m optimizer w2 args' m'
         optimizer' w3,
    parse_args ext c w = Ok (args, w0) /\
    write_file (path_join (save_folder args) "train_args.json")
               (@JsonFile T args) w0 = Ok w1 /\
    set_loader ext args (fix_seed ext (seed (cli args)) w1)
    = Ok (train_loader, val_loader, wl) /\
    set_model ext args wl = Ok (m, optimizer, w2) /\
    resume_checkpoint args m optimizer w2 = Ok (args', m', optimizer', w3) /\
    feature_dump args' m' train_loader val_loader
                 (print (Text (replicate_char 20 "*")) w3) = Ok w'.
Proof.
  unfold main. intros Hm.
  destruct (parse_args ext c w) as [[args w0]|e] eqn:E1; [|discriminate Hm].
  cbn [bind fst snd] in Hm.
  destruct (write_file (path_join (save_folder args) "train_args.json")
                       (@JsonFile T args) w0) as [w1|e] eqn:E2;
    [|discriminate Hm].
  cbn [bind] in Hm.
  destruct (set_loader ext args (fix_seed ext (seed (cli args)) w1))
    as [[[tl vl] wl]|e] eqn:E3; [|discriminate Hm].
  cbn [bind fst snd] in Hm.
  destruct (set_model ext args wl) as [[[m o] w2]|e] eqn:E4; [|discriminate Hm].
  cbn [bind fst snd] in Hm.
  destruct (resume_checkpoint args m o w2) as [[[[args' m'] o'] w3]|e] eqn:E5;
    [|discriminate Hm].
  cbn [bind fst snd] in Hm.
  exists args, w0, w1, tl, vl, wl, m, o, w2, args', m', o', w3.
  repeat split; try reflexivity; assumption.
Qed.

(** The file of the arguments lies in the save folder under its name. *)
Lemma ends_with_slash_app (a : string) :
  ends_with_slash a = true -> exists a', a = (a' ++ String "/" "")%string.
Proof.
  unfold ends_with_slash.
  induction a as [|x a IH]; simpl; [discriminate|].
  destruct a as [|y a].
  - simpl. intros Hx. apply Ascii.eqb_eq in Hx. subst x.
    exists ""%string. reflexivity.
  - intros Hx. simpl in IH. rewrite Nat.sub_0_r in *.
    destruct (IH Hx) as [a' Ha']. exists (String x a'). simpl.
    rewrite <- Ha'. reflexivity.
Qed.

Lemma resolve_train_args (a : string) :
  exists d, resolve (path_join a "train_args.json")
            = (d ++ ["train_args.json"%string])%list.
Proof.
  unfold path_join. change (prefix "/" "train_args.json") with false.
  cbv iota.
  destruct (String.eqb a ""); [exists []; reflexivity|].
  destruct (ends_with_slash a) eqn:Hs.
  - destruct (ends_with_slash_app _ Hs) as [a' ->].
    rewrite append_assoc. simpl append at 2.
    rewrite resolve_child by reflexivity. eexists. reflexivity.
  - change (a ++ "/" ++ "train_args.json")%string
      with (a ++ String "/" "train_args.json")%string.
    rewrite resolve_child by reflexivity. eexists. reflexivity.
Qed.

(** The file of the arguments is none of the files of the dump. *)
Lemma train_args_not_target (folder kind : string) (args : Args) (lo : nat) :
  no_slash kind = true ->
  ~ dump_target kind args lo (resolve (path_join folder "train_args.json")).
Proof.
  intros Hk [i [_ Hp]].
  destruct (resolve_train_args folder) as [d Hd]. rewrite Hd in Hp.
  rewrite resolve_feature_path, resolve_label_path in Hp by exact Hk.
  destruct Hp as [Hp|Hp]; apply app_inj_tail in Hp; destruct Hp as [_ Hp];
    discriminate Hp.
Qed.

Lemma dump_target_cli (kind : string) (a b : Args) (lo : nat) (q : path) :
  cli a = cli b -> dump_target kind a lo q -> dump_target kind b lo q.
Proof.
  intros Hc [i [Hi Hp]]. exists i. split; [exact Hi|].
  unfold feature_path, label_path, feature_dir in *. rewrite <- Hc. exact Hp.
Qed.

Lemma dump_written_target (kind : string) (args : Args) (lo n : nat)
      (q : path) :
  dump_written kind args lo n q -> dump_target kind args lo q.
Proof.
  intros [i [Hi Hp]]. exists i. split; [lia|exact Hp].
Qed.

(** X24. With externals (the loaders, the backbone and its forward pass,
    the optimizer) that leave the directories and the files as they are,
    when [main] returns, the file [train_args.json] of the save folder
    holds the arguments as [parse_args] returned them (no start epoch
    yet), and apart from that file and the feature and label files of the
    two passes no file was written or changed (paths without [..] and
    without symbolic links). *)
Theorem main_files (T St : Type) (ext : Externals T St) (c : Cli)
        (w w' : World T St) :
  externals_keep_files ext ->
  main ext c w = Ok w' ->
  exists args w0,
    parse_args ext c w = Ok (args, w0) /\
    read_file w' (path_join (save_folder args) "train_args.json")
    = Some (@JsonFile T args) /\
    forall q,
      q <> resolve (path_join (save_folder args) "train_args.json") ->
      ~ dump_target "train" args 0 q -> ~ dump_target "test" args 0 q ->
      find_file q (files w') = find_file q (files w).
Proof.
  intros Hext Hm.
  destruct (main_inv _ _ _ Hm)
    as [args [w0 [w1 [tl [vl [wl [m [o [w2 [args' [m' [o' [w3
          [Hparse [Hjson [Hload [Hmodel [Hres Hdump]]]]]]]]]]]]]]]]]].
  exists args, w0. split; [exact Hparse|].
  destruct (parse_args_inv _ _ _ Hparse) as [_ [_ [_ [_ [Hmk _]]]]].
  destruct (makedirs_if_missing _ _ Hmk) as [_ [_ [Hf0 _]]].
  apply write_file_inv in Hjson. destruct Hjson as [_ Hjson].
  assert (Hfl : files wl = files w1).
  { unfold set_loader in Hload.
    destruct (String.eqb (dataset (cli args)) "icbhi"); [|discriminate Hload].
    destruct Hext as [Hml _].
    destruct (Hml args _ _ _ Hload) as [_ Hfl]. exact Hfl. }
  destruct (set_model_world _ _ Hext Hmodel) as [Hf2 [_ Hq]].
  destruct (resume_checkpoint_inv _ _ _ _ Hres) as [Hcli [_ [Hf3 [_ [Hfw _]]]]].
  assert (Hq' : forward_keeps_files m').
  { unfold forward_keeps_files. rewrite Hfw. exact Hq. }
  destruct (@feature_dump_passes T St args' m' tl vl _ w' Hq' Hdump)
    as [_ [_ Hk]].
  assert (Hkeep : forall q,
             ~ dump_target "train" args 0 q -> ~ dump_target "test" args 0 q ->
             find_file q (files w') = find_file q (files w1)).
  { intros q Ht Hv. rewrite Hk.
    - cbn [print files]. rewrite Hf3, Hf2, Hfl. reflexivity.
    - intros Hw. apply Ht. apply (@dump_target_cli "train" args' args 0 q Hcli).
      apply (@dump_written_target "train" args' 0 _ q Hw).
    - intros Hw. apply Hv. apply (@dump_target_cli "test" args' args 0 q Hcli).
      apply (@dump_written_target "test" args' 0 _ q Hw). }
  split.
  - unfold read_file.
    rewrite Hkeep by (apply train_args_not_target; reflexivity).
    rewrite Hjson. cbn [files find_file]. rewrite path_eqb_refl. reflexivity.
  - intros q Hp Ht Hv. rewrite (Hkeep q Ht Hv).
    rewrite Hjson. cbn [files find_file].
    rewrite (proj2 (path_eqb_neq _ _) Hp), Hf0. reflexivity.
Qed.

Lemma main_files_witness :
  let c := example_cli "./out/" None "icbhi" "lungsound" false in
  let folder := "./out/icbhi_ast_ce_bs8_lr5e-5_ep50_seed1"%string in
  let parsed := mkArgs c [120; 160]%Z 0 "icbhi_ast_ce_bs8_lr5e-5_ep50_seed1"
                       folder None None
                       (Some ["normal"; "crackle"; "wheeze"; "both"]%string)
                       None in
  let w' := mkWorld
              [["features_test"; "16"]; ["features_test"];
               ["features_train"; "16"]; ["features_train"];
               ["out"; "icbhi_ast_ce_bs8_lr5e-5_ep50_seed1"]; ["out"]]%string
              [(["features_test"; "16"; "label_test_00000.pth"]%string,
                TensorFile 5%nat);
               (["features_test"; "16"; "feature_test_00000.pth"]%string,
                TensorFile 10%nat);
               (["features_train"; "16"; "label_train_00000.pth"]%string,
                TensorFile 2%nat);
               (["features_train"; "16"; "feature_train_00000.pth"]%string,
                TensorFile 4%nat);
               (["out"; "icbhi_ast_ce_bs8_lr5e-5_ep50_seed1";
                 "train_args.json"]%string, @JsonFile nat parsed)]
              [Text "********************"] tt in
  exists args w0,
    parse_args example_ext c empty_world = Ok (args, w0) /\
    read_file w' (path_join (save_folder args) "train_args.json")
    = Some (@JsonFile nat args) /\
    forall q,
      q <> resolve (path_join (save_folder args) "train_args.json") ->
      ~ dump_target "train" args 0 q -> ~ dump_target "test" args 0 q ->
      find_file q (files w') = find_file q (files empty_world).
Proof.
  intros c folder parsed w'.
  apply (@main_files nat unit example_ext c empty_world w').
  - unfold externals_keep_files, keeps_files. simpl.
    split; [intros args w a w0 E; injection E as _ <-; split; reflexivity|].
    split; [intros args w a w0 E; injection E as _ <-; split; reflexivity|].
    split; [intros args w m w0 E; injection E as <- _;
            exact example_model_keeps_files|].
    split; [intros m w a w0 E; injection E as _ <-; split; reflexivity|].
    split; [intros m w m' w0 E Hq; injection E as <- _; exact Hq|].
    intros args p w a w0 E. injection E as _ <-. split; reflexivity.
  - reflexivity.
Defined.
